(* ===== verification/_CoqProject ===== *)
-Q . S2P
Prelude.v
JsValue.v
Ipv4.v
Url.v
Schema.v
Store.v
Collection.v
Uuid.v
Cors.v
JsonText.v
UriCode.v
App.v
Render.v
Progress.v
