(* ===== verification/Prelude.v ===== *)
(** * A verified model of the movies REST API (rest-api-deploy)

    The repository is a small Express application: [src/app.js] keeps a
    process-wide JavaScript array [movies] (seeded from [movies.json]) and
    serves five routes over it, behind a CORS origin check; and
    [src/schemas/movies.js] declares the zod schema [movieSchema] with the two
    validators [validateMovie] (used by POST) and [validatePartial] (used by
    PATCH).  This development models both files, and the parts of the
    libraries they call whose behaviour the handlers' results depend on.

    ** Files, and what each models

    - [Prelude] (this file): the shared vocabulary.  The JavaScript exception
      monad [js_result] (a callback that throws a [TypeError] makes
      [Array.prototype.filter] throw; notation [throw] in [movies_scope]),
      the array built-ins the handlers use ([js_find_index], [js_find],
      [js_some], [js_filter], [js_includes]) with their equivalence to
      stdpp's [list_find] and [filter], ASCII case mapping ([to_lower_case],
      the [String.prototype.toLowerCase] of the genre filter), and the list
      lemmas the components share.  Hint databases [movies] and [movies_rw].
    - [JsValue]: the parsed request body as a JavaScript value ([jval]),
      zod's [getParsedType] classification, property lookup (the last
      duplicate key wins, as in [JSON.parse]) and number comparisons.
    - [Ipv4] (Module [Ipv4]): the WHATWG host parser's IPv4 part (the
      "ends in a number" check, IPv4 numbers in bases 10, 16 and 8, the
      32-bit bound) and the IPv4 serializer.
    - [Url] (Module [Url]): acceptance of [new URL(s)], which zod's [.url()]
      check of the [poster] field calls; the WHATWG parser's preprocessing,
      scheme, authority, host (with [Ipv4]) and port states, as far as they
      decide success.
    - [Schema]: [src/schemas/movies.js].  The [Genre] enum, zod's issue
      objects ([issue]), one checker per field of [movieSchema] in zod 3's
      semantics (type check first, then every refinement, all issues
      collected, messages from zod's default error map or the schema's own),
      the object parser in full mode ([validateMovie]) and in partial mode
      ([validatePartial], fields wrapped in [ZodOptional], no default).
    - [Store]: the array [movies] of [src/app.js] ([store], a list of
      [movie] records) and the five route handlers ([get_root],
      [get_movies], [get_movie], [post_movie], [patch_movie],
      [delete_movie]), each returning the response and the new store.  The
      handlers see the schema through the typeclass [Validator] (what a
      successful validation guarantees); [Schema] is its instance.
    - [Collection]: the contract of the by-id routes as operations on a
      finite map ([spec_step] on [gmap string movie_data]), the reading of
      the array as that map ([abs], notation [⟦ s ⟧]) and the refinement of
      the one by the other.
    - [Uuid] (Module [Uuid]): Node's [crypto.randomUUID()], which POST
      calls for the new id: 16 random bytes, the version and variant bits
      set with [Z.land]/[Z.lor], lowercase hex with dashes; a parser of
      the text form; and [getBufferedUUID], the entropy cache the call goes
      through ([uuid_cache]: a buffer of 128 slices of 16 bytes refilled by
      [randomFillSync] when the batch counter is 0, the counter advanced
      modulo 128 before each slice is read).
    - [Cors] (Module [Cors]): the [origin] callback of the [cors] middleware
      and the headers the middleware then sets ([response_headers]: the
      reflected [Access-Control-Allow-Origin], [Vary], the preflight's
      methods and headers).
    - [JsonText]: JSON as text.  [json_parse] is [JSON.parse] (whitespace,
      the literals, numbers with fraction and exponent read as exact
      rationals, strings with every escape, nested arrays and objects, by
      the mutually recursive [pvalue], [pelems], [pmembers]);
      [stringify_gap] is [JSON.stringify] with its [space] argument
      (QuoteJSONString escapes, numbers in plain decimal notation, elements
      joined by commas, with a gap on lines of their own and indented);
      [json_stringify] is the call without spacing.
    - [UriCode] (Module [UriCode]): [decodeURIComponent], which Express's
      [decode_param] applies to [:id] (percent escapes, UTF-8 validation,
      [None] for the [URIError]), and [encodeURIComponent] as a client uses
      it to put an id in a path.
    - [App]: body-parser's [json()] middleware ([json_parser]: no body or
      a non-JSON type leaves [{}], a charset not starting with [utf-] or
      one iconv-lite cannot decode is a 415, more than 100kb a 413) and its
      [parse] on the text read
      ([parse_body]: empty body, strict first-character check, [JSON.parse]);
      the Express pipeline on one request ([handle]: [express.json()]
      in its default strict mode, [cors], the routes in registration order
      on the path as sent, [decode_param] on [:id] with its 400, Express's
      404 and error pages), the CORS headers of the answer
      ([answer_cors_headers]) and the server's runs ([server_step],
      [reachable], [fresh_reachable]) as a step relation on stores; the
      server whose state also holds [randomUUID]'s cache ([handle_cached],
      [cached_reachable]), the cache advancing exactly on the requests
      whose handler calls [crypto.randomUUID()] ([draws_uuid]).
    - [Render]: every body [res.json] sends ([body_json]); a stored record as the JSON [res.json] sends
      ([movie_json]: [{ id, ...result.data }], keys in the schema's order),
      and its text sent back as the body of a new request; the 400 body
      [{ error: JSON.parse(result.error.message) }] with zod 3's issue
      objects ([issue_json]) and [ZodError.message] ([zod_error_message]:
      the issues printed with a two-space gap).
    - [Progress]: termination of runs that only delete and reachability of
      the empty collection from every state.

    ** What the theorems show

    - Schema: [validateMovie] and [validatePartial] accept exactly the
      objects whose fields meet the schema and return their values
      ([validateMovie_success], [validatePartial_success]); a rejected body
      gets at least one issue ([validateMovie_error_nonempty]), and the
      issues under each field are exactly that field's checker's
      ([validateMovie_field_issues]); the enum's literals round-trip through
      [Genre] ([genre_of_string_iff]).
    - Store: every handler keeps the store invariant [store_inv] (distinct
      ids, every record within the schema's bounds), POST given a fresh id
      ([post_movie_inv], [patch_movie_inv]); DELETE removes exactly the
      records with the id ([delete_movie_spec]); the functional behaviour
      of each route on its branches, 404s included; the genre filter
      equals a reference filter, case-folded on both sides
      ([get_movies_ref]), and throws on a non-string query
      ([get_movies_array_query]).
    - Collection: every sequence of by-id requests refines the finite-map
      specification ([impl_run_refines]).
    - Uuid: the generated text is a version-4 UUID ([random_uuid_format])
      and parses back to the bytes it encodes ([parse_serialize_uuid]); the
      cache stays well formed and each call returns [randomUUID] of 16
      random bytes ([get_buffered_uuid_refines]); the 128 calls after a
      refill read pairwise disjoint slices, at offsets 16, 32, ..., 2032 and
      then 0, and leave the counter at 0 ([buffered_uuid_batch]).
    - App: by rule induction on runs, stored records always satisfy the
      schema ([reachable_records_ok]), ids stay distinct when generated ids
      are fresh ([fresh_reachable_inv]) and stay v4 UUIDs
      ([reachable_ids_uuid]); a step changes the store's size by at most
      one ([handle_length]); an id [randomUUID] returns that is already
      stored creates a duplicate ([uuid_collision_duplicates]); every error
      page that is not a JSON body has one of five causes
      ([handle_error_pages]), an undecodable [:id] giving 400 for every
      method ([undecodable_param_400]); a percent-encoded ASCII id reaches
      its record ([get_encoded_id]); only the accepted origins get an
      [Access-Control-Allow-Origin] header, and only when the body was
      accepted ([allow_origin_header]); with the entropy cache, every
      request is a [server_step], the cache advances exactly on the
      requests whose answer stores [getBufferedUUID]'s id and the other
      answers do not depend on the random bytes ([cached_step_refines]),
      so every run of the server as Node runs it is a run of [reachable]
      ([cached_reachable_sound]) and the invariants above hold for it.
    - Render: a rendered record is a valid POST body with the same fields
      ([validateMovie_movie_json]), PATCH with it changes nothing
      ([patch_movie_json_unchanged]).
    - Progress: runs of successful DELETEs are finite
      ([deleting_runs_terminate], a well-founded relation measured by the
      store's length) and the empty store is reachable from every state of
      every run, by DELETEs on the encoded ids ([empty_always_reachable]).
    - JsonText, App, Render: [JSON.parse] reads back what [JSON.stringify]
      writes ([json_parse_stringify], by induction on values with a size
      bound on the fuel); body-parser's strict check on the first character
      is the same as keeping the objects and arrays [JSON.parse] returns
      ([parse_body_strict]); posting back the text of a stored record
      creates a copy under the new id, when the text is within the 100kb
      limit ([post_rendered_movie]); the 400
      body is exactly the list of issues ([error_body_issues]), and every
      value [JSON.parse] returns prints and reads back
      ([json_parse_stringify_parse]).
    - Url, Ipv4, Cors: what [.url()] accepts (after a non-special scheme,
      any path, and an authority exactly when its opaque host and port are
      valid: [can_parse_non_special]; no relative reference; a numeric
      http host exactly when it is an IPv4 address:
      [can_parse_numeric_host]); IPv4 addresses fit in 32 bits
      ([ipv4_parse_bound]) and round-trip through their dotted form
      ([ipv4_parse_serialize]); which origins pass the callback
      ([origin_callback_allow]).
    - UriCode: [decodeURIComponent] undoes [encodeURIComponent] on ASCII
      text ([decode_encode_ascii]) and leaves text without [%] as it is.

    ** Numbers, strings, bounds and fuel

    JSON numbers are modelled as exact rationals [Q] (a JSON literal denotes a
    rational; [JSON.parse] rounds it to the nearest double, which this model
    does not do).  The model agrees with the program on every literal whose
    value is a double, which includes every integer literal of the schema's
    ranges; it differs on a literal that rounds onto a bound or an integer:
    [JSON.parse] reads [2077.00000000000000001] as 2077, which the year
    check accepts, while the model keeps it above 2077 and rejects it.
    Strings are Rocq [string]s of 8-bit characters; text that is not ASCII
    (in a body or in a path) is represented by its UTF-8 octets, except
    for the [\u] escapes of [JSON.parse], which give the character of the
    code unit (below U+0100); [toLowerCase] is modelled on ASCII letters
    only.  Bytes are [Z] in [0, 256); the facts on one byte of
    [Uuid] and on the decimal form of an IPv4 byte are proved by evaluating
    all 256 cases ([forallb_below]), which is exhaustive.  IPv4 addresses are
    unbounded [Z] checked against [2 ^ 32] as the standard does.  The
    handlers use no fuel: every recursion is structural, so every handler
    returns on every input.  Three definitions of [JsonText] do.  The
    JSON parser [pvalue] recurses into nested values and spends one unit per
    call; [json_parse] gives it one more unit than the text has characters,
    and [jsize_lt_length] with [pvalue_print] shows this is enough for every
    printed value.  [digits_N] gives [digits_fuel] one more step than the
    binary logarithm, enough by [digits_N_fuel].  [decimal_scale] searches
    the number of fraction digits up to the binary logarithm of the
    denominator, which bounds both exponents of a denominator
    [2 ^ a * 5 ^ b]: every denominator dividing a power of ten is found
    ([decimal_scale_complete]), so every number [JSON.parse] returns prints
    and reads back ([json_parse_printable]).  [uuid_run] runs the generator
    a given number of calls; 128 calls, one batch, is the period of the
    cache, after which it is back to its state before the refill.

    ** Not modelled

    Of [JSON.parse] and body-parser: [\u] escapes above U+00FF (the model's
    characters are 8-bit; such escapes are rejected), content encodings
    (gzip, deflate), the decoding of the body in a [utf-*] charset other
    than UTF-8 (the text is taken as read) and raw-body's errors for a
    body shorter or longer than its [Content-Length]; of [JSON.stringify]: the exponent
    notation of numbers below 1e-6 or from 1e21, and the shortest-digit
    printing of doubles that are not short decimals.  The keys of zod's
    issue objects follow zod 3 ([makeIssue], 3.22 and later); other
    versions order or name them differently.  Reading
    [movies.json] (the seed is a parameter of the run relations; the file
    is not in the repository),
    [app.listen] and the [PORT] variable (I/O), [app.disable('x-powered-by')]
    (a header only), the HTTP layer below Express, the IDNA, percent-decoding and IPv6
    details of the URL host parser, the double rounding of [JSON.parse],
    the randomness of [randomFillSync] (what it writes is an argument of
    each step, any 2048 bytes) and the out-of-memory error of
    [secureBuffer].  A request without a JSON body gets [req.body = {}], as
    Express 4's body-parser sets it.  Handlers are synchronous, so the server's runs are
    sequences of whole steps: there is no interleaving to model. *)

From stdpp Require Export base list strings sets.
From Stdlib Require Export ZArith QArith_base Ascii.
Close Scope Q_scope.
#[local] Set Warnings "-clear-no-such-hyp".

Declare Scope movies_scope.
Delimit Scope movies_scope with movies.

Create HintDb movies.
Create Rewrite HintDb movies_rw.

(** ** JavaScript exceptions *)

(** The only exception the modelled code can raise is the [TypeError] of
    calling a string method on a non-string. *)
Inductive js_error : Type :=
| TypeError (msg : string).

Inductive js_result (A : Type) : Type :=
| JsOk (a : A)
| JsThrow (e : js_error).
Arguments JsOk {A} a.
Arguments JsThrow {A} e.

(** [throw new TypeError(msg)]. *)
Notation "'throw' msg" := (JsThrow (TypeError msg)) (at level 10, msg at level 9) : movies_scope.
Open Scope movies_scope.

#[export] Instance js_result_ret : MRet js_result := λ A a, JsOk a.
#[export] Instance js_result_bind : MBind js_result :=
  λ A B f m, match m with JsOk a => f a | JsThrow e => JsThrow e end.

(** [Array.prototype.some] with a callback that may throw: stops at the
    first [true] and propagates the first exception. *)
Fixpoint js_some {A} (p : A → js_result bool) (l : list A) : js_result bool :=
  match l with
  | [] => mret false
  | x :: r => b ← p x; if (b : bool) then mret true else js_some p r
  end.

(** [Array.prototype.filter] with a callback that may throw. *)
Fixpoint js_filter {A} (p : A → js_result bool) (l : list A) : js_result (list A) :=
  match l with
  | [] => mret []
  | x :: r =>
      b ← p x;
      r' ← js_filter p r;
      mret (if (b : bool) then x :: r' else r')
  end.

(** [Array.prototype.findIndex]: the loop of the ECMAScript algorithm, with
    its index [k] and the sentinel [-1]. *)
Fixpoint js_find_index_from {A} (p : A → bool) (k : Z) (l : list A) : Z :=
  match l with
  | [] => (-1)%Z
  | x :: r => if p x then k else js_find_index_from p (k + 1)%Z r
  end.

Definition js_find_index {A} (p : A → bool) (l : list A) : Z :=
  js_find_index_from p 0%Z l.

(** [Array.prototype.find]. *)
Fixpoint js_find {A} (p : A → bool) (l : list A) : option A :=
  match l with
  | [] => None
  | x :: r => if p x then Some x else js_find p r
  end.

(** [Array.prototype.includes] on an array of strings. *)
Definition js_includes (l : list string) (s : string) : bool :=
  bool_decide (s ∈ l).

(** ** ASCII case mapping *)

Definition ascii_to_lower (c : Ascii.ascii) : Ascii.ascii :=
  let n := Ascii.N_of_ascii c in
  if (65 <=? n)%N && (n <=? 90)%N then Ascii.ascii_of_N (n + 32) else c.

Definition ascii_to_upper (c : Ascii.ascii) : Ascii.ascii :=
  let n := Ascii.N_of_ascii c in
  if (97 <=? n)%N && (n <=? 122)%N then Ascii.ascii_of_N (n - 32) else c.

Fixpoint string_map (f : Ascii.ascii → Ascii.ascii) (s : string) : string :=
  match s with
  | EmptyString => EmptyString
  | String c r => String (f c) (string_map f r)
  end.

(** [String.prototype.toLowerCase] / [toUpperCase], on ASCII letters. *)
Definition to_lower_case : string → string := string_map ascii_to_lower.
Definition to_upper_case : string → string := string_map ascii_to_upper.

(** JavaScript truthiness of a string: only [""] is falsy. *)
Definition js_truthy_string (s : string) : bool :=
  match s with EmptyString => false | _ => true end.

(** ** Shared tactics *)

(** Case analysis on an 8-bit character: 256 closed goals. *)
Ltac destruct_ascii c :=
  destruct c as [[] [] [] [] [] [] [] []].

Ltac invc H := inversion H; subst; clear H.

(** ** The array built-ins against stdpp's list library *)

Section ArrayBuiltins.
Context {A : Type}.
Implicit Types (p : A → bool) (l : list A).

Lemma js_find_index_from_list_find p k l :
  js_find_index_from p k l =
  match list_find (λ x, p x = true) l with
  | Some (i, _) => (k + Z.of_nat i)%Z
  | None => (-1)%Z
  end.
Proof.
  revert k. induction l as [|x r IH]; intros k; simpl; [done|].
  case_decide as Hpx.
  - rewrite Hpx. lia.
  - destruct (p x); [done|]. rewrite IH.
    destruct (list_find _ r) as [[i y]|]; simpl; [lia|done].
Qed.

Lemma js_find_list_find p l :
  js_find p l = snd <$> list_find (λ x, p x = true) l.
Proof.
  induction l as [|x r IH]; simpl; [done|].
  case_decide as Hpx.
  - by rewrite Hpx.
  - destruct (p x); [done|]. rewrite IH.
    by destruct (list_find _ r) as [[i y]|].
Qed.

(** [findIndex] returns [-1] exactly when no element satisfies the
    predicate, and otherwise a valid index of a matching element. *)
Lemma js_find_index_neg p l :
  js_find_index p l = (-1)%Z ↔ Forall (λ x, p x ≠ true) l.
Proof.
  unfold js_find_index. rewrite js_find_index_from_list_find.
  transitivity (list_find (λ x, p x = true) l = None); [|apply list_find_None].
  destruct (list_find _ l) as [[i y]|]; split; intros H; try done; lia.
Qed.

Lemma js_find_index_Some p l i x :
  list_find (λ x, p x = true) l = Some (i, x) →
  js_find_index p l = Z.of_nat i.
Proof.
  intros H. unfold js_find_index. rewrite js_find_index_from_list_find, H. lia.
Qed.

Lemma js_find_index_None p l :
  list_find (λ x, p x = true) l = None → js_find_index p l = (-1)%Z.
Proof.
  intros H. unfold js_find_index. by rewrite js_find_index_from_list_find, H.
Qed.

(** With a callback that never throws, [filter] and [some] are the pure
    list functions. *)
Lemma js_filter_pure p l :
  js_filter (λ x, JsOk (p x)) l = JsOk (filter (λ x, p x = true) l).
Proof.
  induction l as [|x r IH]; simpl; [done|]. rewrite IH. simpl.
  rewrite filter_cons. by destruct (p x).
Qed.

Lemma js_some_pure p l :
  js_some (λ x, JsOk (p x)) l = JsOk (existsb p l).
Proof.
  induction l as [|x r IH]; simpl; [done|]. by destruct (p x).
Qed.

Lemma js_filter_ext (q1 q2 : A → js_result bool) l :
  (∀ x, q1 x = q2 x) → js_filter q1 l = js_filter q2 l.
Proof. intros H. induction l as [|x r IH]; simpl; [done|]. by rewrite H, IH. Qed.

(** [some] over an empty array never calls its callback. *)
Lemma js_some_nil (q : A → js_result bool) : js_some q [] = JsOk false.
Proof. done. Qed.

(** Removing one element keeps the elements distinct. *)
Lemma NoDup_delete_list (i : nat) l : NoDup l → NoDup (delete i l).
Proof.
  intros H. eapply sublist_NoDup; [exact H|]. apply sublist_delete.
Qed.
End ArrayBuiltins.

#[export] Hint Resolve NoDup_delete_list Forall_delete Forall_insert : movies.

Lemma pair_eq_iff {A B} (a a' : A) (b b' : B) : (a, b) = (a', b') ↔ a = a' ∧ b = b'.
Proof. split; [intros [= -> ->]|intros [-> ->]]; done. Qed.

(** ** Lists of issues *)

Lemma mjoin_map_nil {A B} (f : A → list B) (l : list A) :
  mjoin (map f l) = [] ↔ Forall (λ x, f x = []) l.
Proof.
  induction l as [|x r IH]; simpl; [split; auto|].
  rewrite app_nil, Forall_cons. naive_solver.
Qed.

Lemma Forall_mjoin_map {A B} (P : B → Prop) (f : A → list B) (l : list A) :
  Forall (λ x, Forall P (f x)) l → Forall P (mjoin (map f l)).
Proof. induction 1; simpl; [constructor|]. by apply Forall_app. Qed.

Lemma filter_all {A} (P : A → Prop) `{∀ x, Decision (P x)} (l : list A) :
  Forall P l → filter P l = l.
Proof. induction 1; [done|]. rewrite filter_cons_True by done. congruence. Qed.

Lemma filter_none {A} (P : A → Prop) `{∀ x, Decision (P x)} (l : list A) :
  Forall (λ x, ¬ P x) l → filter P l = [].
Proof. induction 1; [done|]. by rewrite filter_cons_False. Qed.

Lemma mjoin_map_elem {A B} (f : A → list B) (l : list A) x :
  x ∈ l → f x ≠ [] → mjoin (map f l) ≠ [].
Proof.
  rewrite mjoin_map_nil, Forall_forall. naive_solver.
Qed.


(** ** Case mapping *)

Lemma ascii_to_lower_idem c : ascii_to_lower (ascii_to_lower c) = ascii_to_lower c.
Proof. destruct_ascii c; reflexivity. Qed.

Lemma ascii_to_lower_upper c : ascii_to_lower (ascii_to_upper c) = ascii_to_lower c.
Proof. destruct_ascii c; reflexivity. Qed.

Lemma string_map_length f s : String.length (string_map f s) = String.length s.
Proof. induction s; simpl; congruence. Qed.

Lemma string_map_compose f g s : string_map f (string_map g s) = string_map (λ c, f (g c)) s.
Proof. induction s; simpl; congruence. Qed.

Lemma string_map_ext f g s : (∀ c, f c = g c) → string_map f s = string_map g s.
Proof. intros H. induction s; simpl; congruence. Qed.

Lemma to_lower_case_idem s : to_lower_case (to_lower_case s) = to_lower_case s.
Proof.
  unfold to_lower_case. rewrite string_map_compose.
  apply string_map_ext, ascii_to_lower_idem.
Qed.

Lemma to_lower_case_upper s : to_lower_case (to_upper_case s) = to_lower_case s.
Proof.
  unfold to_lower_case, to_upper_case. rewrite string_map_compose.
  apply string_map_ext, ascii_to_lower_upper.
Qed.

Lemma js_truthy_string_map f s : js_truthy_string (string_map f s) = js_truthy_string s.
Proof. by destruct s. Qed.

#[export] Hint Rewrite to_lower_case_idem to_lower_case_upper : movies_rw.

(** ** Finite ranges of integers *)

(** A boolean property of every integer in [[0, n)], checked by evaluating
    it on each: the lemma behind the exhaustive byte facts. *)
Lemma forallb_below (n : nat) (P : Z → bool) :
  forallb P (Z.of_nat <$> seq 0 n) = true → ∀ b, (0 ≤ b < Z.of_nat n)%Z → P b = true.
Proof.
  intros H b [Hlo Hhi]. rewrite forallb_forall in H. apply H.
  apply list_elem_of_In, list_elem_of_fmap. exists (Z.to_nat b). split; [lia|].
  apply elem_of_seq. lia.
Qed.
