(* ===== verification/JsValue.v ===== *)
(** * JavaScript values of a parsed JSON request body

    [express.json()] hands the handlers the result of [JSON.parse]: a tree of
    null, booleans, numbers, strings, arrays and objects.  This file gives
    that tree as [jval], the lookup of an object's property ([obj_get]; an
    absent property reads as [undefined], here [None]), zod's
    [getParsedType] classification of a value ([parsed_type_of]) with the
    type names zod writes in its issues, and the number predicates zod's
    checks use ([Number.isInteger], [<], [<=]). *)

From S2P Require Import Prelude.
Close Scope Q_scope.

#[warnings="-register-all"]
Inductive jval : Type :=
| JNull
| JBool (b : bool)
| JNum (q : Q)
| JStr (s : string)
| JArr (xs : list jval)
| JObj (kvs : list (string * jval)).

(** Property read [o[k]] on an object produced by [JSON.parse]: when the
    text repeats a key, the last occurrence is the one kept. *)
Fixpoint obj_get (k : string) (kvs : list (string * jval)) : option jval :=
  match kvs with
  | [] => None
  | (k', v) :: r =>
      match obj_get k r with
      | Some w => Some w
      | None => if String.eqb k k' then Some v else None
      end
  end.

(** zod's [ZodParsedType], restricted to the values JSON can produce and to
    [undefined] (an absent property). *)
Inductive parsed_type : Type :=
| PUndefined | PNull | PBoolean | PNumber | PString | PArray | PObject.

#[export] Instance parsed_type_eq_dec : EqDecision parsed_type.
Proof. solve_decision. Defined.

Definition parsed_type_of (v : option jval) : parsed_type :=
  match v with
  | None => PUndefined
  | Some JNull => PNull
  | Some (JBool _) => PBoolean
  | Some (JNum _) => PNumber
  | Some (JStr _) => PString
  | Some (JArr _) => PArray
  | Some (JObj _) => PObject
  end.

(** The names zod writes in the [expected] / [received] fields. *)
Definition parsed_type_name (t : parsed_type) : string :=
  match t with
  | PUndefined => "undefined"
  | PNull => "null"
  | PBoolean => "boolean"
  | PNumber => "number"
  | PString => "string"
  | PArray => "array"
  | PObject => "object"
  end.

(** [Number.isInteger] on a finite number. *)
Definition js_is_integer (q : Q) : bool :=
  (Z.rem (Qnum q) (Zpos (Qden q)) =? 0)%Z.

(** The number comparisons [a < b] and [a <= b]. *)
Definition js_lt (a b : Q) : bool := negb (Qle_bool b a).
Definition js_le (a b : Q) : bool := Qle_bool a b.

Lemma js_lt_spec a b : js_lt a b = true ↔ (a < b)%Q.
Proof.
  unfold js_lt. rewrite negb_true_iff. split.
  - intros H. apply Qnot_le_lt. intros Hle. apply Qle_bool_iff in Hle. congruence.
  - intros H. destruct (Qle_bool b a) eqn:E; [|done].
    apply Qle_bool_iff in E. exfalso. by apply (Qlt_not_le a b).
Qed.

Lemma js_le_spec a b : js_le a b = true ↔ (a <= b)%Q.
Proof. apply Qle_bool_iff. Qed.

(** An integer literal is an integer. *)
Lemma js_is_integer_inject z : js_is_integer (inject_Z z) = true.
Proof. unfold js_is_integer. simpl. by rewrite Z.rem_1_r. Qed.

Lemma js_is_integer_spec q :
  js_is_integer q = true ↔ ∃ z, (q == inject_Z z)%Q.
Proof.
  unfold js_is_integer. destruct q as [n d]. simpl. rewrite Z.eqb_eq. split.
  - intros H. exists (Z.quot n (Zpos d)). unfold Qeq. simpl.
    rewrite Z.mul_1_r. pose proof (Z.quot_rem' n (Zpos d)). lia.
  - intros [z Hz]. unfold Qeq in Hz. simpl in Hz. rewrite Z.mul_1_r in Hz.
    rewrite Hz. apply Z.rem_mul. lia.
Qed.

#[export] Hint Resolve js_is_integer_inject : movies.
