(* ===== verification/Ipv4.v ===== *)
(** * The IPv4 host parser of the WHATWG URL standard

    [new URL(s)], which zod's [.url()] check of the [poster] field calls,
    parses the host of a special URL ([http:], [https:], ...) with the host
    parser: a host that "ends in a number" ([ends_in_number]: its last
    dot-separated label is all digits, or a hexadecimal or octal IPv4
    number) must be an IPv4 address, and [ipv4_parse] decides which.  Each
    label is a number in base 10, 16 ([0x] prefix) or 8 ([0] prefix)
    ([ipv4_number]); at most four labels; every label but the last at most
    255; the last below [256 ^ (5 - n)] for [n] labels, so that the address
    fits in 32 bits.  [ipv4_serialize] is the standard's IPv4 serializer
    (dotted decimal). *)

From Stdlib Require Import DecimalString.
From S2P Require Import Prelude.
Close Scope Q_scope.
#[local] Set Warnings "-clear-no-such-hyp".

Module Ipv4.

Definition dot : Ascii.ascii := "."%char.

(** [input] split on "." ([strictly split]): always at least one label. *)
Fixpoint split_dots (l : list Ascii.ascii) : list (list Ascii.ascii) :=
  match l with
  | [] => [[]]
  | c :: r =>
      if Ascii.eqb c dot then [] :: split_dots r
      else match split_dots r with
           | p :: ps => (c :: p) :: ps
           | [] => [[c]]
           end
  end.

(** The value of a digit in base [r], if it is one. *)
Definition radix_digit (r : Z) (c : Ascii.ascii) : option Z :=
  let n := Z.of_N (Ascii.N_of_ascii c) in
  let v := if (48 <=? n)%Z && (n <=? 57)%Z then Some (n - 48)%Z
           else if (97 <=? n)%Z && (n <=? 102)%Z then Some (n - 87)%Z
           else if (65 <=? n)%Z && (n <=? 70)%Z then Some (n - 55)%Z
           else None in
  match v with Some d => if (d <? r)%Z then Some d else None | None => None end.

Fixpoint radix_value (r acc : Z) (l : list Ascii.ascii) : option Z :=
  match l with
  | [] => Some acc
  | c :: t => d ← radix_digit r c; radix_value r (acc * r + d)%Z t
  end.

(** IPv4 number parser: [0x]/[0X] selects base 16 and a leading [0] base
    8 when at least two code points remain; an empty remainder is 0. *)
Definition ipv4_number (l : list Ascii.ascii) : option Z :=
  match l with
  | [] => None
  | c0 :: t =>
      if Ascii.eqb c0 "0" then
        match t with
        | [] => Some 0%Z
        | cx :: t' =>
            if Ascii.eqb cx "x" || Ascii.eqb cx "X" then radix_value 16 0 t'
            else radix_value 8 0 t
        end
      else radix_value 10 0 l
  end.

Definition all_digits (l : list Ascii.ascii) : bool :=
  forallb (λ c, bool_decide (is_Some (radix_digit 10 c))) l.

(** The labels after dropping one trailing empty label. *)
Definition drop_trailing_empty (ps : list (list Ascii.ascii)) : list (list Ascii.ascii) :=
  match last ps with
  | Some [] => if 1 <? length ps then removelast ps else ps
  | _ => ps
  end.

Definition ends_in_last (ps : list (list Ascii.ascii)) : bool :=
  match last ps with
  | Some lst => (bool_decide (lst ≠ []) && all_digits lst) || bool_decide (is_Some (ipv4_number lst))
  | None => false
  end.

(** "Ends in a number" checker: the last label, after dropping one trailing
    empty label, is all decimal digits or an IPv4 number. *)
Definition ends_in_number (l : list Ascii.ascii) : bool :=
  let ps := split_dots l in
  match last ps with
  | Some [] => if length ps =? 1 then false else ends_in_last (removelast ps)
  | _ => ends_in_last ps
  end.

(** The address the labels denote: [n_i * 256 ^ (3 - i)] for every label
    but the last, plus the last. *)
Fixpoint ipv4_sum (ns : list Z) (counter : Z) : Z :=
  match ns with
  | [] => 0
  | [n] => n
  | n :: r => n * 256 ^ (3 - counter) + ipv4_sum r (counter + 1)
  end%Z.

(** IPv4 parser. *)
Definition ipv4_parse (l : list Ascii.ascii) : option Z :=
  let ps := drop_trailing_empty (split_dots l) in
  if 4 <? length ps then None
  else
    nums ← mapM ipv4_number ps;
    lastn ← last nums;
    if existsb (λ n, 255 <? n)%Z (removelast nums) then None
    else if (256 ^ (5 - Z.of_nat (length nums)) <=? lastn)%Z then None
    else Some (ipv4_sum nums 0).

(** IPv4 serializer: four decimal numbers separated by dots, most
    significant first. *)
Definition decimal (n : Z) : list Ascii.ascii :=
  String.list_ascii_of_string (NilZero.string_of_int (Z.to_int n)).

Definition ipv4_serialize (a : Z) : list Ascii.ascii :=
  (decimal (a / 2 ^ 24 mod 256) ++ dot :: decimal (a / 2 ^ 16 mod 256) ++ dot ::
   decimal (a / 2 ^ 8 mod 256) ++ dot :: decimal (a mod 256))%Z.

(** ** Digits and labels *)

Lemma radix_digit_range r c d : radix_digit r c = Some d → (0 ≤ d < r)%Z.
Proof.
  unfold radix_digit. repeat case_match; intros; simplify_eq;
    rewrite ?andb_true_iff, ?Z.leb_le, ?Z.ltb_lt in *; lia.
Qed.

Lemma radix_value_nonneg r acc l v :
  (0 ≤ acc)%Z → (0 ≤ r)%Z → radix_value r acc l = Some v → (0 ≤ v)%Z.
Proof.
  revert acc. induction l as [|c l IH]; simpl; intros acc Hacc Hr; [by intros [= <-]|].
  destruct (radix_digit r c) as [d|] eqn:Hd; simpl; [|done].
  apply radix_digit_range in Hd. apply IH. nia. done.
Qed.

Lemma ipv4_number_nonneg l v : ipv4_number l = Some v → (0 ≤ v)%Z.
Proof.
  unfold ipv4_number. repeat case_match; intros; simplify_eq; try lia;
    eapply radix_value_nonneg; eauto; lia.
Qed.

Lemma split_dots_app x y :
  Forall (λ c, Ascii.eqb c dot = false) x → split_dots (x ++ dot :: y) = x :: split_dots y.
Proof.
  induction 1 as [|c x Hc _ IH]; simpl; [done|]. by rewrite Hc, IH.
Qed.

Lemma split_dots_nodot x : Forall (λ c, Ascii.eqb c dot = false) x → split_dots x = [x].
Proof. induction 1 as [|c x Hc _ IH]; simpl; [done|]. by rewrite Hc, IH. Qed.

(** The decimal form of a byte, checked on all 256: a non-empty label
    without dots that reads back as the byte. *)
Lemma decimal_byte b :
  (0 ≤ b < 256)%Z →
  ipv4_number (decimal b) = Some b ∧ decimal b ≠ [] ∧
  Forall (λ c, Ascii.eqb c dot = false) (decimal b).
Proof.
  intros Hb.
  pose (P := λ b, bool_decide (ipv4_number (decimal b) = Some b) && bool_decide (decimal b ≠ []) &&
     forallb (λ c, negb (Ascii.eqb c dot)) (decimal b)).
  assert (H : P b = true) by (apply (forallb_below 256 P); [vm_compute; reflexivity|done]).
  unfold P in H. rewrite !andb_true_iff, !bool_decide_eq_true in H.
  destruct H as [[H1 H2] H3]. split_and!; [done|done|].
  apply Forall_forall. intros c Hc. eapply forallb_forall in H3; [|by apply list_elem_of_In].
  by apply negb_true_iff.
Qed.

(** A 32-bit number is the sum of its four bytes. *)
Lemma bytes_of_32 a :
  (0 ≤ a < 2 ^ 32)%Z →
  a = (a / 2 ^ 24 mod 256 * 256 ^ 3 + a / 2 ^ 16 mod 256 * 256 ^ 2 +
       a / 2 ^ 8 mod 256 * 256 + a mod 256)%Z.
Proof.
  intros Ha.
  rewrite (Z.mod_small (a / 2 ^ 24)) by (split; [apply Z.div_pos; lia|apply Z.div_lt_upper_bound; lia]).
  rewrite !Z.mod_eq by lia. rewrite !Z.div_div by lia.
  replace (2 ^ 16 * 256)%Z with (2 ^ 24)%Z by reflexivity.
  replace (2 ^ 8 * 256)%Z with (2 ^ 16)%Z by reflexivity.
  change (a / 256)%Z with (a / 2 ^ 8)%Z. ring.
Qed.

Lemma div_mod_byte a k : (0 ≤ a / 2 ^ k mod 256 < 256)%Z.
Proof. apply Z.mod_pos_bound. lia. Qed.

Lemma mapM_ipv4_nonneg ps nums :
  mapM ipv4_number ps = Some nums → Forall (λ n, 0 ≤ n)%Z nums.
Proof.
  intros Em. apply mapM_Some in Em. induction Em; constructor; [|done].
  by eapply ipv4_number_nonneg.
Qed.

(** ** What the IPv4 parser returns *)

(** C33: an address the IPv4 parser returns fits in 32 bits: the parser
    rejects every label list whose value would reach [2 ^ 32]. *)
Theorem ipv4_parse_bound l a : ipv4_parse l = Some a → (0 ≤ a < 2 ^ 32)%Z.
Proof.
  unfold ipv4_parse. set (ps := drop_trailing_empty (split_dots l)).
  destruct (4 <? length ps) eqn:E4; [done|]. apply Nat.ltb_ge in E4.
  destruct (mapM ipv4_number ps) as [nums|] eqn:Em; [|done]. simpl.
  pose proof (mapM_ipv4_nonneg _ _ Em) as Hnn.
  apply mapM_Some, Forall2_length in Em.
  destruct (last nums) as [lastn|] eqn:El; [|done]. simpl.
  destruct (existsb _ (removelast nums)) eqn:Ex; [done|].
  destruct (Z.leb_spec (256 ^ (5 - Z.of_nat (length nums))) lastn) as [|Hlast]; [done|].
  intros [= <-].
  destruct nums as [|n1 [|n2 [|n3 [|n4 [|n5 r]]]]]; simplify_eq/=;
    try rewrite ?orb_false_iff, ?Z.ltb_ge in Ex; repeat (apply Forall_cons in Hnn as [? Hnn]); lia.
Qed.

(** C34: the IPv4 serializer and parser are inverse on 32-bit addresses:
    the dotted-decimal text of an address parses back to it. *)
Theorem ipv4_parse_serialize a :
  (0 ≤ a < 2 ^ 32)%Z → ipv4_parse (ipv4_serialize a) = Some a.
Proof.
  intros Ha. unfold ipv4_parse, ipv4_serialize.
  destruct (decimal_byte _ (div_mod_byte a 24)) as (H3 & _ & N3).
  destruct (decimal_byte _ (div_mod_byte a 16)) as (H2 & _ & N2).
  destruct (decimal_byte _ (div_mod_byte a 8)) as (H1 & _ & N1).
  assert (Hb0 : (0 ≤ a mod 256 < 256)%Z) by (apply Z.mod_pos_bound; lia).
  destruct (decimal_byte _ Hb0) as (H0 & Hne0 & N0).
  rewrite !split_dots_app, split_dots_nodot by done.
  assert (Hd : drop_trailing_empty [decimal (a / 2 ^ 24 mod 256); decimal (a / 2 ^ 16 mod 256);
    decimal (a / 2 ^ 8 mod 256); decimal (a mod 256)] = [decimal (a / 2 ^ 24 mod 256);
    decimal (a / 2 ^ 16 mod 256); decimal (a / 2 ^ 8 mod 256); decimal (a mod 256)]).
  { unfold drop_trailing_empty. simpl. by destruct (decimal (a mod 256)). }
  rewrite Hd. simpl length. simpl (4 <? 4).
  erewrite (mapM_Some_2 _ _ [_; _; _; _]); [|by repeat constructor]. simpl.
  pose proof (div_mod_byte a 24). pose proof (div_mod_byte a 16). pose proof (div_mod_byte a 8).
  rewrite !(proj2 (Z.ltb_ge _ _)) by lia. rewrite (proj2 (Z.leb_gt _ _)) by (simpl; lia).
  f_equal. symmetry. etransitivity; [exact (bytes_of_32 a Ha)|].
  change (3 - 0)%Z with 3%Z. change (3 - (0 + 1))%Z with 2%Z. change (3 - (0 + 1 + 1))%Z with 1%Z.
  ring.
Qed.

Lemma ipv4_parse_bound_witness :
  ipv4_parse (String.list_ascii_of_string "0x7f.1") = Some 2130706433%Z ∧
  (0 ≤ 2130706433 < 2 ^ 32)%Z.
Proof.
  assert (H : ipv4_parse (String.list_ascii_of_string "0x7f.1") = Some 2130706433%Z) by reflexivity.
  split; [exact H|]. exact (ipv4_parse_bound _ _ H).
Defined.

Lemma ipv4_parse_serialize_witness :
  (0 ≤ 16909060 < 2 ^ 32)%Z ∧ ipv4_parse (ipv4_serialize 16909060) = Some 16909060%Z.
Proof.
  assert (H : (0 ≤ 16909060 < 2 ^ 32)%Z) by lia.
  split; [exact H|]. exact (ipv4_parse_serialize _ H).
Defined.

End Ipv4.
