(* ===== verification/Url.v ===== *)
(** * Acceptance of an absolute URL by [new URL(s)]

    zod 3's [z.string().url()] (the [poster] field of [movieSchema]) accepts a
    string exactly when [new URL(s)] does not throw.  This file models the
    WHATWG URL parser's acceptance without a base URL, for the states that
    decide success: leading and trailing C0-control-or-space are stripped and
    tabs and newlines removed; a scheme (an ASCII letter, then letters,
    digits, [+], [-], [.]) must be followed by [:]; a special scheme other
    than [file] needs a non-empty host (after any slashes and backslashes,
    after the last [@], up to [/], [\], [?], [#] or a port [:]) free of
    forbidden domain code points, an IPv4 address when it ends in a number
    ([Ipv4]), and a port of at most 65535.  A [file] URL after two slashes
    (or backslashes) has a host up to [/], [\], [?] or [#] that is empty,
    a Windows drive letter, or a domain under the same checks, without a
    port.  A non-special scheme ([mailto:], [urn:], [javascript:]) parses
    anything as a path unless [//] follows the colon; then the authority
    (up to [/], [?] or [#]) must have a host after its last [@] when it has
    one, an opaque host free of forbidden host code points, and a port of
    digits at most 65535.  Not modelled: IDNA mapping (ASCII hosts are
    taken as written: the mapping lowercases them and rejects malformed
    [xn--] labels), percent-decoding of special hosts, and the IPv6
    literal syntax (a bracketed host is accepted when it is closed). *)

From S2P Require Import Prelude Ipv4.
Close Scope Q_scope.

Module Url.

Definition code (c : Ascii.ascii) : N := Ascii.N_of_ascii c.

Definition is_c0_or_space (c : Ascii.ascii) : bool := (code c <=? 32)%N.
Definition is_tab_or_newline (c : Ascii.ascii) : bool :=
  bool_decide (code c = 9%N ∨ code c = 10%N ∨ code c = 13%N).
Definition is_alpha (c : Ascii.ascii) : bool :=
  ((65 <=? code c) && (code c <=? 90))%N || ((97 <=? code c) && (code c <=? 122))%N.
Definition is_digit (c : Ascii.ascii) : bool := ((48 <=? code c) && (code c <=? 57))%N.
Definition is_scheme_char (c : Ascii.ascii) : bool :=
  is_alpha c || is_digit c || bool_decide (c = "+"%char ∨ c = "-"%char ∨ c = "."%char).

(** Forbidden domain code points (ASCII part): C0 controls, space, [#], [%],
    [/], [:], [<], [>], [?], [@], [[], [\], []], [^], [|] and DEL. *)
Definition is_forbidden_domain (c : Ascii.ascii) : bool :=
  (code c <=? 32)%N || (code c =? 127)%N ||
  bool_decide (c ∈ ["#"; "%"; "/"; ":"; "<"; ">"; "?"; "@"; "["; "\"; "]"; "^"; "|"]%char).

Definition ends_authority (c : Ascii.ascii) : bool :=
  bool_decide (c = "/"%char ∨ c = "\"%char ∨ c = "?"%char ∨ c = "#"%char).

Fixpoint drop_while (p : Ascii.ascii → bool) (l : list Ascii.ascii) : list Ascii.ascii :=
  match l with
  | [] => []
  | c :: r => if p c then drop_while p r else l
  end.

Fixpoint take_while (p : Ascii.ascii → bool) (l : list Ascii.ascii) : list Ascii.ascii :=
  match l with
  | [] => []
  | c :: r => if p c then c :: take_while p r else []
  end.

(** Input preprocessing of the basic URL parser. *)
Definition preprocess (s : string) : list Ascii.ascii :=
  let l := String.list_ascii_of_string s in
  let l := rev (drop_while is_c0_or_space (rev (drop_while is_c0_or_space l))) in
  filter (λ c, is_tab_or_newline c = false) l.

(** Scheme state: the scheme characters up to the first [:]. *)
Fixpoint scheme_rest (l : list Ascii.ascii) : option (list Ascii.ascii * list Ascii.ascii) :=
  match l with
  | [] => None
  | c :: r =>
      if bool_decide (c = ":"%char) then Some ([], r)
      else if is_scheme_char c then
        '(sch, rest) ← scheme_rest r; Some (c :: sch, rest)
      else None
  end.

(** Scheme start state. *)
Definition parse_scheme (l : list Ascii.ascii) : option (string * list Ascii.ascii) :=
  match l with
  | c :: r =>
      if is_alpha c then
        '(sch, rest) ← scheme_rest r;
        Some (to_lower_case (String.string_of_list_ascii (c :: sch)), rest)
      else None
  | [] => None
  end.

Definition special_non_file : list string := ["ftp"; "http"; "https"; "ws"; "wss"].

(** The text after the last [@] of the authority. *)
Fixpoint after_last_at (l acc : list Ascii.ascii) : list Ascii.ascii :=
  match l with
  | [] => rev acc
  | c :: r => if bool_decide (c = "@"%char) then after_last_at r [] else after_last_at r (c :: acc)
  end.

Fixpoint digits_value (l : list Ascii.ascii) (acc : N) : option N :=
  match l with
  | [] => Some acc
  | c :: r => if is_digit c then digits_value r (acc * 10 + (code c - 48))%N else None
  end.

Definition port_ok (l : list Ascii.ascii) : bool :=
  match digits_value l 0%N with Some n => (n <=? 65535)%N | None => false end.

(** A domain after the host parser's checks: non-empty, no forbidden
    domain code point, an IPv4 address when it ends in a number. *)
Definition domain_ok (host : list Ascii.ascii) : bool :=
  bool_decide (host ≠ []) && forallb (λ c, negb (is_forbidden_domain c)) host
  && (if Ipv4.ends_in_number host then bool_decide (is_Some (Ipv4.ipv4_parse host)) else true).

(** Host state of a special URL: the host ends at the first [:] outside
    brackets; a bracketed host is taken up to [\]].  The host parser then
    refuses forbidden domain code points and, for a host that ends in a
    number, anything but an IPv4 address. *)
Definition host_port_ok (hp : list Ascii.ascii) : bool :=
  if bool_decide (head hp = Some "["%char) then
    let host := take_while (λ c, negb (bool_decide (c = "]"%char))) hp in
    match drop (length host) hp with
    | "]"%char :: [] => true
    | "]"%char :: ":"%char :: port => port_ok port
    | _ => false
    end
  else
    let host := take_while (λ c, negb (bool_decide (c = ":"%char))) hp in
    let port := drop (S (length host)) hp in
    domain_ok host && port_ok port.

(** Forbidden host code points: NUL, tab, newline, carriage return,
    space, [#], [/], [:], [<], [>], [?], [@], [[], [\], []], [^], [|]. *)
Definition is_forbidden_host (c : Ascii.ascii) : bool :=
  bool_decide (code c ∈ [0; 9; 10; 13; 32]%N) ||
  bool_decide (c ∈ ["#"; "/"; ":"; "<"; ">"; "?"; "@"; "["; "\"; "]"; "^"; "|"]%char).

(** Host state of a non-special URL: the host up to the first [:] outside
    brackets; [:] after an empty host fails; a bracketed host must be
    closed; otherwise the opaque-host parser refuses forbidden host code
    points.  The port state takes digits up to the end, at most 65535. *)
Definition opaque_host_port_ok (hp : list Ascii.ascii) : bool :=
  if bool_decide (head hp = Some "["%char) then
    let host := take_while (λ c, negb (bool_decide (c = "]"%char))) hp in
    match drop (length host) hp with
    | "]"%char :: [] => true
    | "]"%char :: ":"%char :: port => port_ok port
    | _ => false
    end
  else
    let host := take_while (λ c, negb (bool_decide (c = ":"%char))) hp in
    match drop (length host) hp with
    | [] => forallb (λ c, negb (is_forbidden_host c)) host
    | _ :: port => bool_decide (host ≠ []) && forallb (λ c, negb (is_forbidden_host c)) host && port_ok port
    end.

(** Authority state of a non-special URL, after [//]: it ends at [/], [?]
    or [#] (a backslash is an ordinary code point here); an [@] with
    nothing after the last one fails. *)
Definition opaque_authority_ok (rest : list Ascii.ascii) : bool :=
  let auth := take_while (λ c, negb (bool_decide (c = "/"%char ∨ c = "?"%char ∨ c = "#"%char))) rest in
  let hp := after_last_at auth [] in
  (if bool_decide ("@"%char ∈ auth) then bool_decide (hp ≠ []) else true) && opaque_host_port_ok hp.

(** A Windows drive letter: an ASCII letter and [:] or [|]. *)
Definition drive_letter (h : list Ascii.ascii) : bool :=
  match h with
  | [c; d] => is_alpha c && bool_decide (d = ":"%char ∨ d = "|"%char)
  | _ => false
  end.

(** File host state: the buffer up to [/], [\], [?] or [#]. *)
Definition file_host_ok (h : list Ascii.ascii) : bool :=
  bool_decide (h = []) || drive_letter h ||
  (if bool_decide (head h = Some "["%char) then bool_decide (last h = Some "]"%char) else domain_ok h).

(** File state, then file slash state: a host follows only two slashes or
    backslashes; otherwise the rest is a path. *)
Definition file_ok (rest : list Ascii.ascii) : bool :=
  let slash c := bool_decide (c = "/"%char ∨ c = "\"%char) in
  match rest with
  | c1 :: c2 :: r => if slash c1 && slash c2 then file_host_ok (take_while (λ c, negb (ends_authority c)) r) else true
  | _ => true
  end.

(** After the scheme of a URL neither special nor [file]: the path or
    authority state when a [/] follows, the authority state after [//],
    an opaque path otherwise. *)
Definition non_special_ok (rest : list Ascii.ascii) : bool :=
  match rest with
  | "/"%char :: "/"%char :: r => opaque_authority_ok r
  | _ => true
  end.

(** Special authority (ignore slashes) state followed by the authority state. *)
Definition special_authority_ok (rest : list Ascii.ascii) : bool :=
  let rest := drop_while (λ c, bool_decide (c = "/"%char ∨ c = "\"%char)) rest in
  host_port_ok (after_last_at (take_while (λ c, negb (ends_authority c)) rest) []).

(** [URL.canParse(s)]: [new URL(s)] does not throw. *)
Definition can_parse (s : string) : bool :=
  match parse_scheme (preprocess s) with
  | None => false
  | Some (sch, rest) =>
      if bool_decide (sch ∈ special_non_file) then special_authority_ok rest
      else if String.eqb sch "file" then file_ok rest
      else non_special_ok rest
  end.

(** ** Lemmas on the preprocessing and the scheme state *)

Lemma list_ascii_app (p s : string) :
  String.list_ascii_of_string (p +:+ s) = String.list_ascii_of_string p ++ String.list_ascii_of_string s.
Proof. induction p as [|c p IH]; simpl; [done|by rewrite IH]. Qed.

Lemma tab_is_c0 c : is_tab_or_newline c = true → is_c0_or_space c = true.
Proof.
  unfold is_tab_or_newline, is_c0_or_space. rewrite bool_decide_eq_true, N.leb_le. lia.
Qed.

Lemma drop_while_app_false q l c r :
  q c = false → ∃ u, drop_while q (l ++ c :: r) = u ++ c :: r.
Proof.
  intros Hc. induction l as [|x l [u Hu]]; simpl.
  - rewrite Hc. by exists [].
  - destruct (q x); [by exists u|]. by exists (x :: l).
Qed.

(** Preprocessing keeps a prefix free of C0 controls and spaces. *)
Lemma preprocess_prefix (p s : string) :
  p ≠ ""%string → Forall (λ c, is_c0_or_space c = false) (String.list_ascii_of_string p) →
  ∃ t, preprocess (p +:+ s) = String.list_ascii_of_string p ++ t.
Proof.
  intros Hne Hp. unfold preprocess. rewrite list_ascii_app.
  assert (Hl : String.list_ascii_of_string p ≠ []) by (destruct p; [done|discriminate]).
  revert Hl Hp. generalize (String.list_ascii_of_string p) as l. intros l Hl Hp.
  set (ls := String.list_ascii_of_string s).
  assert (drop_while is_c0_or_space (l ++ ls) = l ++ ls) as ->.
  { destruct l as [|c l']; [done|]. apply Forall_cons in Hp as [Hc _]. simpl. by rewrite Hc. }
  rewrite rev_app_distr.
  destruct (rev l) as [|c r] eqn:Er; [by apply (f_equal length) in Er; rewrite length_rev in Er; destruct l|].
  assert (Hc : is_c0_or_space c = false).
  { rewrite Forall_forall in Hp. apply Hp, list_elem_of_In, in_rev. rewrite Er. by left. }
  destruct (drop_while_app_false is_c0_or_space (rev ls) c r Hc) as [u ->].
  rewrite <- Er, rev_app_distr, rev_involutive, filter_app.
  exists (filter (λ c, is_tab_or_newline c = false) (rev u)). f_equal.
  apply filter_all. eapply Forall_impl; [exact Hp|]. simpl.
  intros x Hx. destruct (is_tab_or_newline x) eqn:E; [|done].
  apply tab_is_c0 in E. congruence.
Qed.




(** A character of a numeric host: a decimal digit or a dot. *)
Definition host_char (c : Ascii.ascii) : bool :=
  bool_decide (is_Some (Ipv4.radix_digit 10 c)) || Ascii.eqb c Ipv4.dot.

Lemma host_char_facts c :
  host_char c = true →
  is_c0_or_space c = false ∧ ends_authority c = false ∧ bool_decide (c = "@"%char) = false ∧
  bool_decide (c = ":"%char) = false ∧ is_forbidden_domain c = false ∧
  bool_decide (c = "/"%char ∨ c = "\"%char) = false ∧ c ≠ "["%char.
Proof. destruct_ascii c; vm_compute; intros H; try discriminate; repeat split; discriminate. Qed.

Lemma take_while_all p l : Forall (λ c, p c = true) l → take_while p l = l.
Proof. induction 1 as [|c l Hc _ IH]; simpl; [done|]. by rewrite Hc, IH. Qed.

Lemma after_last_at_noat l acc :
  Forall (λ c, bool_decide (c = "@"%char) = false) l → after_last_at l acc = rev acc ++ l.
Proof.
  intros Hl. revert acc. induction Hl as [|c l Hc _ IH]; intros acc; simpl.
  - by rewrite app_nil_r.
  - rewrite Hc, IH. simpl. by rewrite <- app_assoc.
Qed.

(** A string without C0 controls or spaces is its own preprocessing. *)
Lemma preprocess_clean (s : string) :
  Forall (λ c, is_c0_or_space c = false) (String.list_ascii_of_string s) →
  preprocess s = String.list_ascii_of_string s.
Proof.
  unfold preprocess. generalize (String.list_ascii_of_string s) as l. intros l Hl.
  assert (E1 : drop_while is_c0_or_space l = l).
  { destruct Hl as [|c l' Hc _]; simpl; [done|by rewrite Hc]. }
  assert (E2 : drop_while is_c0_or_space (rev l) = rev l).
  { apply Forall_rev in Hl. destruct Hl as [|c r Hc _]; simpl; [done|by rewrite Hc]. }
  rewrite E1, E2, rev_involutive. apply filter_all. eapply Forall_impl; [exact Hl|].
  intros c Hc. destruct (is_tab_or_newline c) eqn:E; [|done].
  apply tab_is_c0 in E. congruence.
Qed.

Lemma host_port_ok_numeric l :
  l ≠ [] → Forall (λ c, host_char c = true) l →
  host_port_ok l = (if Ipv4.ends_in_number l then bool_decide (is_Some (Ipv4.ipv4_parse l)) else true).
Proof.
  intros Hne Hl. pose proof (Forall_impl _ _ _ Hl host_char_facts) as Hf.
  unfold host_port_ok. rewrite bool_decide_false.
  2:{ destruct Hf as [|c l' (_ & _ & _ & _ & _ & _ & Hc) _]; [done|]. simpl. congruence. }
  rewrite take_while_all.
  2:{ eapply Forall_impl; [exact Hf|]. intros c (_ & _ & _ & -> & _). done. }
  rewrite drop_ge by lia. unfold domain_ok. rewrite bool_decide_true by done.
  replace (forallb _ l) with true.
  2:{ symmetry. apply forallb_forall. intros c Hc%list_elem_of_In.
      eapply Forall_forall in Hf as (_ & _ & _ & _ & -> & _); done. }
  simpl. rewrite andb_true_r. by destruct (Ipv4.ends_in_number l).
Qed.

(** ** What [.url()] accepts *)

(** C35: [.url()] on an [http] URL whose host is made of digits and dots
    (such as [http://1.2.3.4]) accepts it exactly when the host does not end
    in a number, or is an IPv4 address the IPv4 parser accepts:
    [http://1.2.3.256] and [http://4294967296] are invalid posters,
    [http://0x7f.1] is valid. *)
Theorem can_parse_numeric_host (h : string) :
  String.list_ascii_of_string h ≠ [] → Forall (λ c, host_char c = true) (String.list_ascii_of_string h) →
  can_parse ("http://" +:+ h) =
    (if Ipv4.ends_in_number (String.list_ascii_of_string h)
     then bool_decide (is_Some (Ipv4.ipv4_parse (String.list_ascii_of_string h))) else true).
Proof.
  intros Hne Hl. pose proof (Forall_impl _ _ _ Hl host_char_facts) as Hf.
  unfold can_parse. rewrite preprocess_clean.
  2:{ rewrite list_ascii_app. apply Forall_app. split; [repeat constructor|].
      eapply Forall_impl; [exact Hf|]. by intros c [? _]. }
  rewrite list_ascii_app. simpl. unfold special_authority_ok.
  revert Hne Hl Hf. generalize (String.list_ascii_of_string h) as l. intros l Hne Hl Hf.
  assert (Hd : drop_while (λ c, bool_decide (c = "/"%char ∨ c = "\"%char)) ("/"%char :: "/"%char :: l) = l).
  { destruct Hf as [|c l' (_ & _ & _ & _ & _ & Hc & _) _]; [done|]. simpl. by rewrite Hc. }
  rewrite Hd, take_while_all, after_last_at_noat; [by apply host_port_ok_numeric| |].
  - eapply Forall_impl; [exact Hf|]. by intros c (_ & _ & -> & _).
  - eapply Forall_impl; [exact Hf|]. by intros c (_ & -> & _).
Qed.



(** [.url()] rejects any string whose first character is neither a
    C0 control, a space nor an ASCII letter: relative references such as
    [/poster.jpg], [./poster.jpg] or [//cdn/p.jpg] are invalid posters. *)
Theorem can_parse_no_scheme c s :
  is_c0_or_space c = false → is_alpha c = false → can_parse (String c s) = false.
Proof.
  intros Hc Ha. unfold can_parse.
  destruct (preprocess_prefix (String c "") s) as [t Ht]; [done|by repeat constructor|].
  change (String c "" +:+ s)%string with (String c s) in Ht. rewrite Ht. simpl. by rewrite Ha.
Qed.


Lemma can_parse_no_scheme_witness :
  is_c0_or_space "/" = false ∧ is_alpha "/" = false ∧ can_parse (String "/" "poster.jpg") = false.
Proof.
  split_and!; [reflexivity|reflexivity|]. apply can_parse_no_scheme; reflexivity.
Defined.
(** What [new URL] rejects after a non-special scheme or [file:], and
    what it accepts there. *)
Example can_parse_authorities :
  can_parse "javascript://a b" = false ∧ can_parse "x://h:99999" = false ∧
  can_parse "file://a b" = false ∧ can_parse "x://a@" = false ∧ can_parse "file://h:80" = false ∧
  can_parse "javascript:alert(1)" = true ∧ can_parse "x://h:8080/p" = true ∧
  can_parse "file:///etc/img.png" = true ∧ can_parse "file://C:/img.png" = true.
Proof. split_and!; vm_compute; reflexivity. Qed.

Lemma can_parse_numeric_host_witness :
  String.list_ascii_of_string "1.2.3.256" ≠ [] ∧
  Forall (λ c, host_char c = true) (String.list_ascii_of_string "1.2.3.256") ∧
  can_parse ("http://" +:+ "1.2.3.256") = false.
Proof.
  assert (H1 : String.list_ascii_of_string "1.2.3.256" ≠ []) by discriminate.
  assert (H2 : Forall (λ c, host_char c = true) (String.list_ascii_of_string "1.2.3.256"))
    by (repeat constructor).
  split_and!; [exact H1|exact H2|].
  rewrite (can_parse_numeric_host "1.2.3.256" H1 H2). vm_compute. reflexivity.
Defined.

Example can_parse_poster_hosts :
  can_parse "http://1.2.3.256/p.jpg" = false ∧ can_parse "http://0x7f.1/p.jpg" = true ∧
  can_parse "https://10.0.0.1:8080/p.jpg" = true ∧ can_parse "https://example.1/p.jpg" = false.
Proof. vm_compute. repeat split. Qed.

End Url.
