(* ===== verification/Schema.v ===== *)
(** * The movie schema of [src/schemas/movies.js]

    [movieSchema] is a zod 3 object schema with seven fields; [validateMovie]
    is its [safeParse] and [validatePartial] the [safeParse] of its
    [.partial()].  This file gives the zod semantics the schema relies on,
    one definition per zod building block ([z_string], [z_number],
    [z_enum], [z_array], [z_default], [z_optional]), each field of the schema
    as that block applied to the source's arguments, and the two validators.

    A zod parser returns its issues and, when it did not abort, a value
    ([zres]); [safeParse] succeeds exactly when no issue was raised.  Within a
    field the type check comes first and aborts; after it every refinement
    ([int], [min], [max], [positive], [url]) runs and reports, so that one
    value may raise several issues.  Across fields, the object parser runs
    every field in the schema's key order and concatenates their issues.

    Issue messages follow zod's default English error map, overridden by the
    [required_error] / [invalid_type_error] parameters of a field for its
    [invalid_type] issues and by a check's own [message]. *)

From Stdlib Require Import DecimalString.
From S2P Require Import Prelude JsValue Url.
Close Scope Q_scope.
#[local] Set Warnings "-clear-no-such-hyp".

(** ** The genre enumeration *)

Inductive Genre : Type :=
| Action | Adventure | Crime | Comedy | Drama | Fantasy | Horror | Thriller | SciFi.

#[export] Instance Genre_eq_dec : EqDecision Genre.
Proof. solve_decision. Defined.

Definition genre_name (g : Genre) : string :=
  match g with
  | Action => "Action" | Adventure => "Adventure" | Crime => "Crime"
  | Comedy => "Comedy" | Drama => "Drama" | Fantasy => "Fantasy"
  | Horror => "Horror" | Thriller => "Thriller" | SciFi => "Sci-Fi"
  end.

(** The enum's values, in the order of the source. *)
Definition genre_values : list string :=
  ["Action"; "Adventure"; "Crime"; "Comedy"; "Drama"; "Fantasy"; "Horror";
   "Thriller"; "Sci-Fi"].

Definition genre_of_string (s : string) : option Genre :=
  if String.eqb s "Action" then Some Action
  else if String.eqb s "Adventure" then Some Adventure
  else if String.eqb s "Crime" then Some Crime
  else if String.eqb s "Comedy" then Some Comedy
  else if String.eqb s "Drama" then Some Drama
  else if String.eqb s "Fantasy" then Some Fantasy
  else if String.eqb s "Horror" then Some Horror
  else if String.eqb s "Thriller" then Some Thriller
  else if String.eqb s "Sci-Fi" then Some SciFi
  else None.

(** ** zod issues *)

Inductive path_seg : Type :=
| PKey (k : string)
| PIdx (i : nat).

Inductive issue_code : Type :=
| invalid_type (expected received : string)
| invalid_enum_value (options : list string) (received : string)
| too_small (minimum : Z) (inclusive : bool)
| too_big (maximum : Z) (inclusive : bool)
| invalid_string (validation : string).

Record issue : Type := mk_issue {
  issue_kind : issue_code;
  issue_path : list path_seg;
  issue_message : string
}.

(** The parameters of [z.string({...})] and [z.array(_, {...})]. *)
Record create_params : Type := {
  required_error : option string;
  invalid_type_error : option string
}.

Definition no_params : create_params :=
  {| required_error := None; invalid_type_error := None |}.

Definition Z_to_string (z : Z) : string :=
  NilZero.string_of_int (Z.to_int z).

(** [util.joinValues]: each string quoted, joined by [" | "]. *)
Definition join_values (vs : list string) : string :=
  String.concat " | " (map (λ v, "'" +:+ v +:+ "'") vs).

(** zod's default English error map. *)
Definition default_message (k : issue_code) : string :=
  match k with
  | invalid_type expected received =>
      if String.eqb received "undefined" then "Required"
      else "Expected " +:+ expected +:+ ", received " +:+ received
  | invalid_enum_value options received =>
      "Invalid enum value. Expected " +:+ join_values options +:+
      ", received '" +:+ received +:+ "'"
  | too_small m incl =>
      "Number must be " +:+
      (if incl then "greater than or equal to " else "greater than ") +:+ Z_to_string m
  | too_big m incl =>
      "Number must be " +:+
      (if incl then "less than or equal to " else "less than ") +:+ Z_to_string m
  | invalid_string v => "Invalid " +:+ v
  end.

(** The error map built by [processCreateParams] from a schema's
    parameters, applied on top of the default message. *)
Definition schema_message (cp : create_params) (k : issue_code) (data : option jval) : string :=
  let dflt := default_message k in
  match k with
  | invalid_type _ _ =>
      match data with
      | None => default dflt (required_error cp)
      | Some _ => default dflt (invalid_type_error cp)
      end
  | _ => dflt
  end.

(** [addIssueToContext]: an explicit message wins over the error maps. *)
Definition make_issue (cp : create_params) (path : list path_seg) (data : option jval)
    (k : issue_code) (msg : option string) : issue :=
  {| issue_kind := k; issue_path := path;
     issue_message := default (schema_message cp k data) msg |}.

(** ** zod building blocks *)

(** What a zod parser returns: the issues it raised, and its value unless it
    aborted ([INVALID]). *)
Abbreviation zres A := (list issue * option A)%type.

(** A parser of the value at a path; [None] is [undefined]. *)
Definition zparser (A : Type) : Type := list path_seg → option jval → zres A.

Definition type_issue (cp : create_params) (path : list path_seg) (v : option jval)
    (expected : string) : issue :=
  make_issue cp path v (invalid_type expected (parsed_type_name (parsed_type_of v))) None.

(** The checks of [ZodNumber] used by the schema: [.int()], [.min(n)],
    [.max(n)] and [.positive()] (a [min] of 0 that is not inclusive). *)
Inductive num_check : Type :=
| CInt
| CMin (value : Z) (inclusive : bool)
| CMax (value : Z) (inclusive : bool).

Definition run_num_check (path : list path_seg) (q : Q) (c : num_check) : list issue :=
  let here k := [make_issue no_params path (Some (JNum q)) k None] in
  match c with
  | CInt => if js_is_integer q then [] else here (invalid_type "integer" "float")
  | CMin m incl =>
      if (if incl then js_lt q (inject_Z m) else js_le q (inject_Z m))
      then here (too_small m incl) else []
  | CMax m incl =>
      if (if incl then js_lt (inject_Z m) q else js_le (inject_Z m) q)
      then here (too_big m incl) else []
  end.

(** [ZodNumber._parse]: the type check aborts; every check then runs. *)
Definition z_number (checks : list num_check) : zparser Q := λ path v,
  match v with
  | Some (JNum q) => (mjoin (map (run_num_check path q) checks), Some q)
  | _ => ([type_issue no_params path v "number"], None)
  end.

(** The one [ZodString] check used by the schema: [.url({message})]. *)
Inductive str_check : Type :=
| CUrl (message : option string).

Definition run_str_check (path : list path_seg) (s : string) (c : str_check) : list issue :=
  match c with
  | CUrl msg =>
      if Url.can_parse s then []
      else [make_issue no_params path (Some (JStr s)) (invalid_string "url") msg]
  end.

(** [ZodString._parse]. *)
Definition z_string (cp : create_params) (checks : list str_check) : zparser string := λ path v,
  match v with
  | Some (JStr s) => (mjoin (map (run_str_check path s) checks), Some s)
  | _ => ([type_issue cp path v "string"], None)
  end.

(** [ZodEnum._parse]: a non-string, or a string outside the values, aborts. *)
Definition z_enum (values : list string) : zparser string := λ path v,
  match v with
  | Some (JStr s) =>
      if bool_decide (s ∈ values) then ([], Some s)
      else ([make_issue no_params path v (invalid_enum_value values s) None], None)
  | _ => ([type_issue no_params path v (join_values values)], None)
  end.

(** [ZodArray._parse]: every element is parsed at its index and all their
    issues are kept; the array aborts when one element does. *)
Definition z_array {A} (cp : create_params) (elem : zparser A) : zparser (list A) := λ path v,
  match v with
  | Some (JArr xs) =>
      let rs := imap (λ i x, elem (path ++ [PIdx i]) (Some x)) xs in
      (mjoin (map fst rs), mapM snd rs)
  | _ => ([type_issue cp path v "array"], None)
  end.

(** [ZodDefault._parse]: [undefined] is replaced by the default value. *)
Definition z_default {A} (d : jval) (inner : zparser A) : zparser A := λ path v,
  inner path (match v with None => Some d | Some _ => v end).

(** [ZodOptional._parse], the wrapper [.partial()] puts on every field. *)
Definition z_optional {A} (inner : zparser A) : zparser (option A) := λ path v,
  match v with
  | None => ([], Some None)
  | Some _ => let '(iss, r) := inner path v in (iss, Some <$> r)
  end.

(** ** The fields of [movieSchema] *)

Definition title_params : create_params :=
  {| required_error := Some "Title is required";
     invalid_type_error := Some "Title must be a string" |}.

Definition genre_params : create_params :=
  {| required_error := Some "Movie genre is required";
     invalid_type_error := Some "Movie genre must be an array of enum Genre" |}.

Definition title_schema : zparser string := z_string title_params [].
Definition genre_schema : zparser (list string) := z_array genre_params (z_enum genre_values).
Definition year_schema : zparser Q := z_number [CInt; CMin 1888 true; CMax 2077 true].
Definition duration_schema : zparser Q := z_number [CInt; CMin 0 false].
Definition director_schema : zparser string := z_string no_params [].
Definition rate_schema : zparser Q :=
  z_default (JNum (inject_Z 5)) (z_number [CMin 0 true; CMax 10 true]).
Definition poster_schema : zparser string :=
  z_string no_params [CUrl (Some "Poster must be a valid URL")].

(** The data [safeParse] returns on success: the seven fields, unknown keys
    stripped. *)
Record movie_data : Type := {
  title : string;
  genre : list string;
  year : Q;
  duration : Q;
  director : string;
  rate : Q;
  poster : string
}.

(** What [.partial()] returns: a field is absent when the body omits it. *)
Record movie_patch : Type := {
  p_title : option string;
  p_genre : option (list string);
  p_year : option Q;
  p_duration : option Q;
  p_director : option string;
  p_rate : option Q;
  p_poster : option string
}.

Definition field (k : string) : list path_seg := [PKey k].

Definition object_issue (v : option jval) : issue := type_issue no_params [] v "object".

(** [ZodObject._parse] of [movieSchema] on an object: every key in the
    schema's order, issues concatenated. *)
Definition movie_object (kvs : list (string * jval)) : zres movie_data :=
  let '(i1, t) := title_schema (field "title") (obj_get "title" kvs) in
  let '(i2, g) := genre_schema (field "genre") (obj_get "genre" kvs) in
  let '(i3, y) := year_schema (field "year") (obj_get "year" kvs) in
  let '(i4, d) := duration_schema (field "duration") (obj_get "duration" kvs) in
  let '(i5, dr) := director_schema (field "director") (obj_get "director" kvs) in
  let '(i6, r) := rate_schema (field "rate") (obj_get "rate" kvs) in
  let '(i7, p) := poster_schema (field "poster") (obj_get "poster" kvs) in
  (i1 ++ i2 ++ i3 ++ i4 ++ i5 ++ i6 ++ i7,
   t ← t; g ← g; y ← y; d ← d; dr ← dr; r ← r; p ← p;
   Some {| title := t; genre := g; year := y; duration := d; director := dr;
           rate := r; poster := p |}).

(** The same object under [.partial()]. *)
Definition patch_object (kvs : list (string * jval)) : zres movie_patch :=
  let '(i1, t) := z_optional title_schema (field "title") (obj_get "title" kvs) in
  let '(i2, g) := z_optional genre_schema (field "genre") (obj_get "genre" kvs) in
  let '(i3, y) := z_optional year_schema (field "year") (obj_get "year" kvs) in
  let '(i4, d) := z_optional duration_schema (field "duration") (obj_get "duration" kvs) in
  let '(i5, dr) := z_optional director_schema (field "director") (obj_get "director" kvs) in
  let '(i6, r) := z_optional rate_schema (field "rate") (obj_get "rate" kvs) in
  let '(i7, p) := z_optional poster_schema (field "poster") (obj_get "poster" kvs) in
  (i1 ++ i2 ++ i3 ++ i4 ++ i5 ++ i6 ++ i7,
   t ← t; g ← g; y ← y; d ← d; dr ← dr; r ← r; p ← p;
   Some {| p_title := t; p_genre := g; p_year := y; p_duration := d;
           p_director := dr; p_rate := r; p_poster := p |}).

(** The result of [safeParse]. *)
Inductive safe_parse_result (A : Type) : Type :=
| ParseSuccess (data : A)
| ParseError (issues : list issue).
Arguments ParseSuccess {A} data.
Arguments ParseError {A} issues.

Definition safe_parse {A} (r : zres A) : safe_parse_result A :=
  match r with
  | ([], Some a) => ParseSuccess a
  | (iss, _) => ParseError iss
  end.

Definition object_parse {A} (obj : list (string * jval) → zres A) (v : jval) : zres A :=
  match v with
  | JObj kvs => obj kvs
  | _ => ([object_issue (Some v)], None)
  end.

(** [validateMovie(object)] = [movieSchema.safeParse(object)]. *)
Definition validateMovie (v : jval) : safe_parse_result movie_data :=
  safe_parse (object_parse movie_object v).

(** [validatePartial(object)] = [movieSchema.partial().safeParse(object)]. *)
Definition validatePartial (v : jval) : safe_parse_result movie_patch :=
  safe_parse (object_parse patch_object v).

(** ** Behaviour of the building blocks *)

(** The condition a number check tests, as a predicate that holds. *)
Definition num_check_holds (q : Q) (c : num_check) : bool :=
  match c with
  | CInt => js_is_integer q
  | CMin m incl => if incl then js_le (inject_Z m) q else js_lt (inject_Z m) q
  | CMax m incl => if incl then js_le q (inject_Z m) else js_lt q (inject_Z m)
  end.

Definition str_check_holds (s : string) (c : str_check) : bool :=
  match c with CUrl _ => Url.can_parse s end.

Lemma run_num_check_nil path q c :
  run_num_check path q c = [] ↔ num_check_holds q c = true.
Proof.
  unfold run_num_check, num_check_holds, js_lt, js_le.
  destruct c as [|m []|m []]; simpl;
    repeat match goal with
    | |- context [Qle_bool ?a ?b] => destruct (Qle_bool a b)
    | |- context [js_is_integer ?x] => destruct (js_is_integer x)
    end; naive_solver.
Qed.

Lemma run_str_check_nil path s c :
  run_str_check path s c = [] ↔ str_check_holds s c = true.
Proof. destruct c; simpl. destruct (Url.can_parse s); naive_solver. Qed.

Lemma checks_pass {C} (run : C → list issue) (holds : C → bool) (cs : list C) :
  (∀ c, run c = [] ↔ holds c = true) →
  mjoin (map run cs) = [] ↔ Forall (λ c, holds c = true) cs.
Proof.
  intros Hrun. rewrite mjoin_map_nil. split; intros H; eapply Forall_impl; eauto; apply Hrun.
Qed.

(** A parser never aborts silently: an aborted parse carries an issue. *)
Definition never_silent {A} (p : zparser A) : Prop :=
  ∀ path v iss, p path v = (iss, None) → iss ≠ [].

Section Blocks.
Implicit Types (path : list path_seg) (v : option jval).

Lemma z_number_success cs path v q :
  z_number cs path v = ([], Some q) ↔
  v = Some (JNum q) ∧ Forall (λ c, num_check_holds q c = true) cs.
Proof.
  destruct v as [[]|]; simpl; try naive_solver.
  split.
  - intros [= H <-]. split; [done|]. by apply (checks_pass _ _ _ (run_num_check_nil path q0)).
  - intros [[= <-] H]. f_equal. by apply (checks_pass _ _ _ (run_num_check_nil path q0)).
Qed.

Lemma z_string_success cp cs path v s :
  z_string cp cs path v = ([], Some s) ↔
  v = Some (JStr s) ∧ Forall (λ c, str_check_holds s c = true) cs.
Proof.
  destruct v as [[]|]; simpl; try naive_solver.
  split.
  - intros [= H <-]. split; [done|]. by apply (checks_pass _ _ _ (run_str_check_nil path s0)).
  - intros [[= <-] H]. f_equal. by apply (checks_pass _ _ _ (run_str_check_nil path s0)).
Qed.

Lemma z_enum_success vs path v s :
  z_enum vs path v = ([], Some s) ↔ v = Some (JStr s) ∧ s ∈ vs.
Proof. destruct v as [[]|]; simpl; try naive_solver. case_decide; naive_solver. Qed.

Lemma z_number_never_silent cs : never_silent (z_number cs).
Proof. intros path [[]|] iss; simpl; naive_solver. Qed.

Lemma z_string_never_silent cp cs : never_silent (z_string cp cs).
Proof. intros path [[]|] iss; simpl; naive_solver. Qed.

Lemma z_enum_never_silent vs : never_silent (z_enum vs).
Proof. intros path [[]|] iss; simpl; try case_decide; naive_solver. Qed.

(** The results of an array's elements combine into a success exactly when
    every element succeeded. *)
Lemma results_success {A} (rs : list (zres A)) (ys : list A) :
  (mjoin (map fst rs) = [] ∧ mapM snd rs = Some ys) ↔
  Forall2 (λ r y, r = ([], Some y)) rs ys.
Proof.
  revert ys. induction rs as [|[i o] rs IH]; intros ys; simpl.
  - split; [intros [_ [= <-]]; constructor|intros H; inversion H; done].
  - rewrite app_nil. destruct o as [y|]; simpl.
    + destruct (mapM snd rs) as [ys'|] eqn:E; simpl.
      * split.
        -- intros [[-> Hr] [= <-]]. constructor; [done|]. apply IH; auto.
        -- intros H. inversion H as [|? y' ? ys'' Hy Hrest]; simplify_eq.
           apply IH in Hrest as [Hr Hm]. simplify_eq. auto.
      * split; [naive_solver|]. intros H. inversion H as [|? y' ? ys'' Hy Hrest]; simplify_eq.
        apply IH in Hrest as [_ Hm]. congruence.
    + split; [naive_solver|]. intros H. inversion H; simplify_eq.
Qed.

Lemma Forall2_imap_path_free {A} (f : nat → jval → zres A) (P : jval → A → Prop) xs ys :
  (∀ i j y, f i j = ([], Some y) ↔ P j y) →
  Forall2 (λ r y, r = ([], Some y)) (imap f xs) ys ↔ Forall2 P xs ys.
Proof.
  revert f ys. induction xs as [|x xs IH]; intros f ys Hf; simpl.
  - split; intros H; inversion H; constructor.
  - split; intros H; inversion H; simplify_eq; constructor.
    + by apply (proj1 (Hf 0 _ _)).
    + apply (IH (f ∘ S)); auto. intros i. apply Hf.
    + by apply (proj2 (Hf 0 _ _)).
    + apply (IH (f ∘ S)); auto. intros i. apply Hf.
Qed.

(** [z.array(elem)] succeeds on an array whose elements all succeed, when
    the element's success does not depend on its position. *)
Lemma z_array_success {A} cp (elem : zparser A) (P : jval → A → Prop) path v ys :
  (∀ path' j y, elem path' (Some j) = ([], Some y) ↔ P j y) →
  z_array cp elem path v = ([], Some ys) ↔ ∃ xs, v = Some (JArr xs) ∧ Forall2 P xs ys.
Proof.
  intros Helem. destruct v as [[]|]; simpl; try naive_solver.
  etransitivity; [apply pair_eq_iff|].
  rewrite results_success, Forall2_imap_path_free; [naive_solver|].
  intros i j y. apply Helem.
Qed.

Lemma z_default_success {A} d (inner : zparser A) path v x :
  z_default d inner path v = ([], Some x) ↔
  inner path (Some (default d v)) = ([], Some x).
Proof. unfold z_default. by destruct v. Qed.

Lemma z_optional_success {A} (inner : zparser A) path v o :
  z_optional inner path v = ([], Some o) ↔
  (v = None ∧ o = None) ∨ (∃ x, v ≠ None ∧ o = Some x ∧ inner path v = ([], Some x)).
Proof.
  unfold z_optional. destruct v as [j|]; [|naive_solver].
  destruct (inner path (Some j)) as [iss [x|]]; simpl; naive_solver.
Qed.

Lemma results_never_silent {A} (rs : list (zres A)) :
  Forall (λ r, r.2 = None → r.1 ≠ []) rs →
  mapM snd rs = None → mjoin (map fst rs) ≠ [].
Proof.
  induction rs as [|[i o] rs IH]; simpl; [done|].
  intros [Hr Hrs]%Forall_cons. rewrite app_nil.
  destruct o as [y|]; simpl in *; [|naive_solver].
  destruct (mapM snd rs); simpl; naive_solver.
Qed.

Lemma Forall_imap_all {A B} (P : B → Prop) (f : nat → A → B) (l : list A) :
  (∀ i x, P (f i x)) → Forall P (imap f l).
Proof.
  revert f. induction l as [|x l IH]; intros f Hf; simpl; constructor; auto.
  apply (IH (λ n, f (S n))). auto.
Qed.

Lemma z_array_never_silent {A} cp (elem : zparser A) :
  never_silent elem → never_silent (z_array cp elem).
Proof.
  intros Helem path [[| | | |xs|]|] iss; simpl; try naive_solver.
  intros [= <- Hm]. apply results_never_silent; [|done].
  apply Forall_imap_all. intros i x.
  destruct (elem _ _) as [i' o'] eqn:E; simpl. intros ->. by eapply Helem.
Qed.

Lemma z_default_never_silent {A} d (inner : zparser A) :
  never_silent inner → never_silent (z_default d inner).
Proof. intros H path v iss. apply H. Qed.

Lemma z_optional_never_silent {A} (inner : zparser A) :
  never_silent inner → never_silent (z_optional inner).
Proof.
  intros H path [j|] iss; simpl; [|done].
  destruct (inner path (Some j)) as [i [x|]] eqn:E; simpl; [done|].
  intros [= <-]. by eapply H.
Qed.
End Blocks.

(** ** The constraints of the schema, as the spec states them *)

Definition genre_ok (gs : list string) : bool := forallb (λ g, bool_decide (g ∈ genre_values)) gs.
Definition year_ok (q : Q) : bool :=
  js_is_integer q && js_le (inject_Z 1888) q && js_le q (inject_Z 2077).
Definition duration_ok (q : Q) : bool := js_is_integer q && js_lt (inject_Z 0) q.
Definition rate_ok (q : Q) : bool := js_le (inject_Z 0) q && js_le q (inject_Z 10).
Definition poster_ok (s : string) : bool := Url.can_parse s.

(** A record satisfies the schema's constraints. *)
Definition movie_data_ok (d : movie_data) : bool :=
  genre_ok (genre d) && year_ok (year d) && duration_ok (duration d) &&
  rate_ok (rate d) && poster_ok (poster d).

(** ** Each field of [movieSchema] *)

Ltac destruct_zres :=
  repeat match goal with
  | |- context [match ?r with pair _ _ => _ end] =>
      let i := fresh "iss" in let o := fresh "o" in destruct r as [i [o|]]
  end.

Lemma Forall2_enc_iff {A B} (enc : A → B) (P : A → Prop) (xs : list B) (ys : list A) :
  Forall2 (λ x y, x = enc y ∧ P y) xs ys ↔ xs = enc <$> ys ∧ Forall P ys.
Proof.
  revert xs. induction ys as [|y ys IH]; intros xs.
  - split; [intros H; inversion H; auto|intros [-> _]; constructor].
  - split.
    + intros H. inversion H as [|x ? xs' ? [-> Hy] Hr]; subst.
      apply IH in Hr as [-> ?]. split; [done|constructor; auto].
    + intros [-> HF]. inversion HF; subst. constructor; [auto|]. apply IH; auto.
Qed.

Lemma genre_ok_Forall gs : genre_ok gs = true ↔ Forall (λ g, g ∈ genre_values) gs.
Proof.
  unfold genre_ok. rewrite forallb_forall, Forall_forall.
  setoid_rewrite bool_decide_eq_true. setoid_rewrite list_elem_of_In. done.
Qed.

Section Fields.
Implicit Types (path : list path_seg) (v : option jval).

Lemma title_success path v t : title_schema path v = ([], Some t) ↔ v = Some (JStr t).
Proof. unfold title_schema. rewrite z_string_success. naive_solver. Qed.

Lemma director_success path v t : director_schema path v = ([], Some t) ↔ v = Some (JStr t).
Proof. unfold director_schema. rewrite z_string_success. naive_solver. Qed.

Lemma poster_success path v p :
  poster_schema path v = ([], Some p) ↔ v = Some (JStr p) ∧ poster_ok p = true.
Proof. unfold poster_schema. rewrite z_string_success, Forall_singleton. done. Qed.

Lemma genre_success path v gs :
  genre_schema path v = ([], Some gs) ↔ v = Some (JArr (JStr <$> gs)) ∧ genre_ok gs = true.
Proof.
  unfold genre_schema.
  rewrite (z_array_success _ _ (λ j g, j = JStr g ∧ g ∈ genre_values)).
  - setoid_rewrite Forall2_enc_iff. rewrite genre_ok_Forall. naive_solver.
  - intros path' j g. rewrite z_enum_success. naive_solver.
Qed.

Lemma year_success path v y :
  year_schema path v = ([], Some y) ↔ v = Some (JNum y) ∧ year_ok y = true.
Proof.
  unfold year_schema, year_ok. rewrite z_number_success, !Forall_cons, Forall_nil.
  simpl. rewrite !andb_true_iff. naive_solver.
Qed.

Lemma duration_success path v d :
  duration_schema path v = ([], Some d) ↔ v = Some (JNum d) ∧ duration_ok d = true.
Proof.
  unfold duration_schema, duration_ok. rewrite z_number_success, !Forall_cons, Forall_nil.
  simpl. rewrite !andb_true_iff. naive_solver.
Qed.

(** An absent [rate] reads as the default 5, then passes the range checks. *)
Lemma rate_success path v r :
  rate_schema path v = ([], Some r) ↔
  default (JNum (inject_Z 5)) v = JNum r ∧ rate_ok r = true.
Proof.
  unfold rate_schema, rate_ok. rewrite z_default_success, z_number_success.
  rewrite !Forall_cons, Forall_nil. simpl. rewrite !andb_true_iff.
  destruct v; simpl; naive_solver.
Qed.
End Fields.

Lemma safe_parse_success {A} (r : zres A) a : safe_parse r = ParseSuccess a ↔ r = ([], Some a).
Proof. destruct r as [[|i iss] [x|]]; simpl; naive_solver. Qed.

Lemma movie_object_success kvs d :
  movie_object kvs = ([], Some d) ↔
  title_schema (field "title") (obj_get "title" kvs) = ([], Some (title d)) ∧
  genre_schema (field "genre") (obj_get "genre" kvs) = ([], Some (genre d)) ∧
  year_schema (field "year") (obj_get "year" kvs) = ([], Some (year d)) ∧
  duration_schema (field "duration") (obj_get "duration" kvs) = ([], Some (duration d)) ∧
  director_schema (field "director") (obj_get "director" kvs) = ([], Some (director d)) ∧
  rate_schema (field "rate") (obj_get "rate" kvs) = ([], Some (rate d)) ∧
  poster_schema (field "poster") (obj_get "poster" kvs) = ([], Some (poster d)).
Proof.
  destruct d. unfold movie_object. destruct_zres; simpl; rewrite ?pair_eq_iff, ?app_nil;
    split; intros; destruct_and?; simplify_eq; repeat split; congruence.
Qed.

(** ** The two validators *)

(** What a body must hold for [validateMovie] to accept it with data [d]:
    each field present with its value (the rate defaulting to 5), and the
    values within the schema's constraints. *)
Definition movie_fields_spec (kvs : list (string * jval)) (d : movie_data) : Prop :=
  obj_get "title" kvs = Some (JStr (title d)) ∧
  obj_get "genre" kvs = Some (JArr (JStr <$> genre d)) ∧
  obj_get "year" kvs = Some (JNum (year d)) ∧
  obj_get "duration" kvs = Some (JNum (duration d)) ∧
  obj_get "director" kvs = Some (JStr (director d)) ∧
  default (JNum (inject_Z 5)) (obj_get "rate" kvs) = JNum (rate d) ∧
  obj_get "poster" kvs = Some (JStr (poster d)) ∧
  movie_data_ok d = true.

(** A field of [.partial()]: absent, or present with a valid value. *)
Definition present_ok {A} (enc : A → jval) (ok : A → bool) (v : option jval) (o : option A) : Prop :=
  match o with
  | None => v = None
  | Some x => v = Some (enc x) ∧ ok x = true
  end.

Definition patch_fields_spec (kvs : list (string * jval)) (p : movie_patch) : Prop :=
  present_ok JStr (λ _, true) (obj_get "title" kvs) (p_title p) ∧
  present_ok (λ gs, JArr (JStr <$> gs)) genre_ok (obj_get "genre" kvs) (p_genre p) ∧
  present_ok JNum year_ok (obj_get "year" kvs) (p_year p) ∧
  present_ok JNum duration_ok (obj_get "duration" kvs) (p_duration p) ∧
  present_ok JStr (λ _, true) (obj_get "director" kvs) (p_director p) ∧
  present_ok JNum rate_ok (obj_get "rate" kvs) (p_rate p) ∧
  present_ok JStr poster_ok (obj_get "poster" kvs) (p_poster p).

Lemma z_optional_present {A} (p : zparser A) enc ok path v o :
  (∀ j x, p path (Some j) = ([], Some x) ↔ j = enc x ∧ ok x = true) →
  z_optional p path v = ([], Some o) ↔ present_ok enc ok v o.
Proof.
  intros Hp. rewrite z_optional_success.
  destruct v as [j|], o as [x|]; simpl; try rewrite Hp; naive_solver.
Qed.

Ltac present_field L := apply z_optional_present; intros ? ?; rewrite L; naive_solver.

Section PresentFields.
Implicit Types (path : list path_seg) (v : option jval).
Lemma title_present path v o :
  z_optional title_schema path v = ([], Some o) ↔ present_ok JStr (λ _, true) v o.
Proof. present_field title_success. Qed.
Lemma genre_present path v o :
  z_optional genre_schema path v = ([], Some o) ↔
  present_ok (λ gs, JArr (JStr <$> gs)) genre_ok v o.
Proof. present_field genre_success. Qed.
Lemma year_present path v o :
  z_optional year_schema path v = ([], Some o) ↔ present_ok JNum year_ok v o.
Proof. present_field year_success. Qed.
Lemma duration_present path v o :
  z_optional duration_schema path v = ([], Some o) ↔ present_ok JNum duration_ok v o.
Proof. present_field duration_success. Qed.
Lemma director_present path v o :
  z_optional director_schema path v = ([], Some o) ↔ present_ok JStr (λ _, true) v o.
Proof. present_field director_success. Qed.
(** Under [.partial()] the default of [rate] is not applied. *)
Lemma rate_present path v o :
  z_optional rate_schema path v = ([], Some o) ↔ present_ok JNum rate_ok v o.
Proof. present_field rate_success. Qed.
Lemma poster_present path v o :
  z_optional poster_schema path v = ([], Some o) ↔ present_ok JStr poster_ok v o.
Proof. present_field poster_success. Qed.
End PresentFields.

Lemma patch_object_success kvs p :
  patch_object kvs = ([], Some p) ↔ patch_fields_spec kvs p.
Proof.
  unfold patch_fields_spec.
  rewrite <- (title_present (field "title")), <- (genre_present (field "genre")),
    <- (year_present (field "year")), <- (duration_present (field "duration")),
    <- (director_present (field "director")), <- (rate_present (field "rate")),
    <- (poster_present (field "poster")).
  destruct p. unfold patch_object. destruct_zres; simpl; rewrite ?pair_eq_iff, ?app_nil;
    split; intros; destruct_and?; simplify_eq; repeat split; congruence.
Qed.

(** ** Theorems on the validators *)

(** [validateMovie] on an object, field by field. *)
Lemma validateMovie_fields kvs d :
  validateMovie (JObj kvs) = ParseSuccess d ↔ movie_fields_spec kvs d.
Proof.
  unfold validateMovie, movie_fields_spec, movie_data_ok. rewrite safe_parse_success. simpl.
  rewrite movie_object_success, title_success, genre_success, year_success,
    duration_success, director_success, rate_success, poster_success.
  rewrite !andb_true_iff. tauto.
Qed.

(** C1: [validateMovie] accepts a JSON object exactly when each of the seven
    fields holds a value of its type (an absent [rate] reading as 5) within
    the schema's constraints, and then returns those values. *)
Theorem validateMovie_success kvs d :
  validateMovie (JObj kvs) = ParseSuccess d ↔ movie_fields_spec kvs d.
Proof. apply validateMovie_fields. Qed.

(** Everything [validateMovie] accepts satisfies the schema's constraints. *)
Lemma validateMovie_ok v d : validateMovie v = ParseSuccess d → movie_data_ok d = true.
Proof.
  destruct v as [| | | | |kvs]; try done. rewrite validateMovie_fields. by intros (_&_&_&_&_&_&_&H).
Qed.

Lemma validatePartial_fields kvs p :
  validatePartial (JObj kvs) = ParseSuccess p ↔ patch_fields_spec kvs p.
Proof. unfold validatePartial. rewrite safe_parse_success. apply patch_object_success. Qed.

(** C3: [validatePartial] accepts an object exactly when every field it
    holds is valid, and returns [Some] for the fields present and [None] for
    the others; [rate] gets no default. *)
Theorem validatePartial_success kvs p :
  validatePartial (JObj kvs) = ParseSuccess p ↔ patch_fields_spec kvs p.
Proof. apply validatePartial_fields. Qed.

(** A body that is not a JSON object is rejected with the one issue
    "Expected object, received ...". *)
Lemma validateMovie_not_object v :
  (∀ kvs, v ≠ JObj kvs) → validateMovie v = ParseError [object_issue (Some v)].
Proof. intros H. destruct v; try done. by destruct (H kvs). Qed.

Lemma validatePartial_not_object v :
  (∀ kvs, v ≠ JObj kvs) → validatePartial v = ParseError [object_issue (Some v)].
Proof. intros H. destruct v; try done. by destruct (H kvs). Qed.

(** ** Rejections report every violation *)

Lemma never_silent_at {A} (p : zparser A) path v :
  never_silent p → match p path v with (iss, o) => o = None → iss ≠ [] end.
Proof. intros H. destruct (p path v) as [i o] eqn:E. intros ->. by eapply H. Qed.

#[export] Hint Resolve z_number_never_silent z_string_never_silent z_enum_never_silent
  z_array_never_silent z_default_never_silent z_optional_never_silent : movies.

Ltac field_never_silent p k kvs :=
  let H := fresh in
  assert (H := never_silent_at p (field k) (obj_get k kvs) ltac:(unfold p; eauto with movies));
  revert H.

Ltac all_fields_never_silent kvs :=
  field_never_silent title_schema "title" kvs; field_never_silent genre_schema "genre" kvs;
  field_never_silent year_schema "year" kvs; field_never_silent duration_schema "duration" kvs;
  field_never_silent director_schema "director" kvs; field_never_silent rate_schema "rate" kvs;
  field_never_silent poster_schema "poster" kvs.

Lemma movie_object_never_silent kvs :
  match movie_object kvs with (iss, o) => o = None → iss ≠ [] end.
Proof.
  all_fields_never_silent kvs. unfold movie_object. destruct_zres; simpl; rewrite ?app_nil;
    naive_solver.
Qed.

Lemma safe_parse_error_nonempty {A} (r : zres A) iss :
  match r with (i, o) => o = None → i ≠ [] end →
  safe_parse r = ParseError iss → iss ≠ [].
Proof. destruct r as [[|i is'] [x|]]; simpl; naive_solver. Qed.

(** A rejected creation body always carries at least one violation. *)
Theorem validateMovie_error_nonempty v iss :
  validateMovie v = ParseError iss → iss ≠ [].
Proof.
  unfold validateMovie. apply safe_parse_error_nonempty.
  destruct v as [| | | | |kvs]; simpl; try done. apply movie_object_never_silent.
Qed.

#[export] Instance path_seg_eq_dec : EqDecision path_seg.
Proof. solve_decision. Defined.

(** Every issue a parser raises at [path] lies under [path]. *)
Definition issues_under {A} (p : zparser A) : Prop :=
  ∀ path v, Forall (λ i, path `prefix_of` issue_path i) (p path v).1.

Ltac forall_refl :=
  repeat first [apply Forall_nil_2 | apply Forall_cons_2; [reflexivity|]].

Section Under.
Lemma z_number_under cs : issues_under (z_number cs).
Proof.
  intros path [[]|]; simpl; try (forall_refl; done).
  apply Forall_mjoin_map, Forall_forall. intros c _.
  destruct c as [|m []|m []]; simpl; repeat case_match; forall_refl.
Qed.

Lemma z_string_under cp cs : issues_under (z_string cp cs).
Proof.
  intros path [[]|]; simpl; try (forall_refl; done).
  apply Forall_mjoin_map, Forall_forall. intros [m] _. simpl.
  case_match; forall_refl.
Qed.

Lemma z_enum_under vs : issues_under (z_enum vs).
Proof. intros path [[]|]; simpl; try case_decide; forall_refl. Qed.

Lemma z_array_under {A} cp (elem : zparser A) : issues_under elem → issues_under (z_array cp elem).
Proof.
  intros Helem path [[]|]; simpl; try (forall_refl; done).
  apply Forall_mjoin_map, Forall_imap_all. intros i x.
  eapply Forall_impl; [apply Helem|]. intros iss Hp. exact (prefix_app_l _ _ _ Hp).
Qed.

Lemma z_default_under {A} d (inner : zparser A) : issues_under inner → issues_under (z_default d inner).
Proof. intros H path v. apply H. Qed.
End Under.

#[export] Hint Resolve z_number_under z_string_under z_enum_under z_array_under
  z_default_under : movies.

(** The issues reported under the top-level key [k]. *)
Definition issues_at (k : string) (iss : list issue) : list issue :=
  filter (λ i, head (issue_path i) = Some (PKey k)) iss.

Lemma issues_at_field {A} (p : zparser A) k k' v :
  issues_under p →
  issues_at k (p (field k') v).1 = if String.eqb k k' then (p (field k') v).1 else [].
Proof.
  intros Hp. pose proof (Hp (field k') v) as Hu. unfold issues_at.
  destruct (String.eqb_spec k k') as [->|Hne].
  - apply filter_all. eapply Forall_impl; [exact Hu|]. intros i [rest ->]. done.
  - apply filter_none. eapply Forall_impl; [exact Hu|]. intros i [rest ->]. simpl. congruence.
Qed.

Lemma issues_at_app k l1 l2 : issues_at k (l1 ++ l2) = issues_at k l1 ++ issues_at k l2.
Proof. apply filter_app. Qed.

Lemma safe_parse_error_issues {A} (r : zres A) iss : safe_parse r = ParseError iss → iss = r.1.
Proof. destruct r as [[|i is'] [x|]]; simpl; congruence. Qed.

Lemma movie_object_issues kvs :
  (movie_object kvs).1 =
    (title_schema (field "title") (obj_get "title" kvs)).1 ++
    (genre_schema (field "genre") (obj_get "genre" kvs)).1 ++
    (year_schema (field "year") (obj_get "year" kvs)).1 ++
    (duration_schema (field "duration") (obj_get "duration" kvs)).1 ++
    (director_schema (field "director") (obj_get "director" kvs)).1 ++
    (rate_schema (field "rate") (obj_get "rate" kvs)).1 ++
    (poster_schema (field "poster") (obj_get "poster" kvs)).1.
Proof.
  unfold movie_object.
  repeat match goal with
  | |- context [match ?r with pair _ _ => _ end] => destruct r
  end. done.
Qed.

Ltac rewrite_issues_at :=
  rewrite !issues_at_app, !issues_at_field by (unfold title_schema, genre_schema, year_schema,
    duration_schema, director_schema, rate_schema, poster_schema; eauto with movies).

Ltac field_issues_at := rewrite_issues_at; simpl; rewrite ?app_nil_r; done.

(** C4: validation is not fail-fast.  When [validateMovie] rejects an
    object, the violations it reports under each field are exactly those
    that field's checker finds in that field's value, whatever the other
    fields hold. *)
Theorem validateMovie_field_issues kvs iss :
  validateMovie (JObj kvs) = ParseError iss →
  issues_at "title" iss = (title_schema (field "title") (obj_get "title" kvs)).1 ∧
  issues_at "genre" iss = (genre_schema (field "genre") (obj_get "genre" kvs)).1 ∧
  issues_at "year" iss = (year_schema (field "year") (obj_get "year" kvs)).1 ∧
  issues_at "duration" iss = (duration_schema (field "duration") (obj_get "duration" kvs)).1 ∧
  issues_at "director" iss = (director_schema (field "director") (obj_get "director" kvs)).1 ∧
  issues_at "rate" iss = (rate_schema (field "rate") (obj_get "rate" kvs)).1 ∧
  issues_at "poster" iss = (poster_schema (field "poster") (obj_get "poster" kvs)).1.
Proof.
  unfold validateMovie. intros ->%safe_parse_error_issues. simpl.
  rewrite movie_object_issues. repeat split; field_issues_at.
Qed.

(** The required fields of [movieSchema], the type each expects and the
    message zod reports when it is missing ([required_error] where the
    schema gives one, zod's "Required" otherwise).  [rate] has a default and
    is not required. *)
Definition required_fields : list (string * string * string) :=
  [("title", "string", "Title is required"); ("genre", "array", "Movie genre is required");
   ("year", "number", "Required"); ("duration", "number", "Required");
   ("director", "string", "Required"); ("poster", "string", "Required")].

Lemma validateMovie_rejects kvs :
  (movie_object kvs).1 ≠ [] → validateMovie (JObj kvs) = ParseError (movie_object kvs).1.
Proof. unfold validateMovie. simpl. by destruct (movie_object kvs) as [[|i is'] [x|]]. Qed.

(** C23: a body without one of the six required fields is rejected, and
    the only issue reported under that field is the [invalid_type] issue
    "expected <type>, received undefined" with the schema's message. *)
Theorem validateMovie_missing_field kvs k expected msg :
  (k, expected, msg) ∈ required_fields → obj_get k kvs = None →
  ∃ iss, validateMovie (JObj kvs) = ParseError iss ∧
    issues_at k iss = [{| issue_kind := invalid_type expected "undefined";
                          issue_path := [PKey k]; issue_message := msg |}].
Proof.
  intros Hk Hnone. exists (movie_object kvs).1.
  assert (Hi : issues_at k (movie_object kvs).1 =
    [{| issue_kind := invalid_type expected "undefined"; issue_path := [PKey k];
        issue_message := msg |}]).
  { rewrite movie_object_issues.
    repeat (apply elem_of_cons in Hk as [Hk|Hk]; [simplify_eq; rewrite_issues_at; simpl;
      rewrite Hnone; reflexivity|]).
    by apply elem_of_nil in Hk. }
  split; [|done]. apply validateMovie_rejects. intros E. by rewrite E in Hi.
Qed.

(** ** The genre enum against its inductive type *)

Definition all_genres : list Genre :=
  [Action; Adventure; Crime; Comedy; Drama; Fantasy; Horror; Thriller; SciFi].

Lemma genre_of_string_iff s g : genre_of_string s = Some g ↔ genre_name g = s.
Proof.
  split.
  - unfold genre_of_string.
    repeat match goal with
    | |- context [String.eqb ?a ?b] => destruct (String.eqb_spec a b)
    end; intros [= <-]; by subst.
  - intros <-. by destruct g.
Qed.



Lemma genre_values_names : genre_values = genre_name <$> all_genres.
Proof. reflexivity. Qed.

Lemma genre_values_of_string s : s ∈ genre_values ↔ is_Some (genre_of_string s).
Proof.
  rewrite genre_values_names, list_elem_of_fmap. split.
  - intros (g & -> & _). exists g. by apply genre_of_string_iff.
  - intros [g Hg]. exists g. split; [by apply genre_of_string_iff in Hg|].
    apply list_elem_of_In. destruct g; simpl; tauto.
Qed.

(** ** Concrete runs *)

Definition dune_kvs : list (string * jval) :=
  [("title", JStr "Dune"); ("genre", JArr [JStr "Sci-Fi"]);
   ("year", JNum (inject_Z 2021)); ("duration", JNum (inject_Z 155));
   ("director", JStr "Denis Villeneuve"); ("poster", JStr "https://example.com/p.jpg")].

Definition dune_body : jval := JObj dune_kvs.

Definition dune_data : movie_data :=
  {| title := "Dune"; genre := ["Sci-Fi"]; year := inject_Z 2021; duration := inject_Z 155;
     director := "Denis Villeneuve"; rate := inject_Z 5; poster := "https://example.com/p.jpg" |}.

(** The spec's creation example: accepted, [rate] defaulted to 5. *)
Example validateMovie_dune : validateMovie dune_body = ParseSuccess dune_data.
Proof. vm_compute. reflexivity. Qed.

Definition untitled_1700_body : jval :=
  JObj [("genre", JArr [JStr "Drama"]); ("year", JNum (inject_Z 1700));
        ("duration", JNum (inject_Z 120)); ("director", JStr "D");
        ("poster", JStr "https://example.com/p.jpg")].

Definition untitled_1700_issues : list issue :=
  [mk_issue (invalid_type "string" "undefined") [PKey "title"] "Title is required";
   mk_issue (too_small 1888 true) [PKey "year"] "Number must be greater than or equal to 1888"].

(** The spec's multi-error example: a body missing [title] with [year] 1700
    is rejected with a "required" violation for [title] and an
    out-of-range violation for [year], both reported. *)
Lemma validateMovie_field_issues_witness :
  validateMovie untitled_1700_body = ParseError untitled_1700_issues ∧
  issues_at "title" untitled_1700_issues = [mk_issue (invalid_type "string" "undefined") [PKey "title"] "Title is required"] ∧
  issues_at "year" untitled_1700_issues = [mk_issue (too_small 1888 true) [PKey "year"] "Number must be greater than or equal to 1888"].
Proof.
  assert (H : validateMovie untitled_1700_body = ParseError untitled_1700_issues)
    by (vm_compute; reflexivity).
  pose proof (validateMovie_field_issues _ _ H) as (Ht & _ & Hy & _).
  split; [exact H|]. split; [rewrite Ht | rewrite Hy]; vm_compute; reflexivity.
Defined.

Lemma validateMovie_error_nonempty_witness :
  validateMovie (JArr []) = ParseError [object_issue (Some (JArr []))] ∧
  [object_issue (Some (JArr []))] ≠ [].
Proof.
  split; [reflexivity|]. apply (validateMovie_error_nonempty (JArr [])). reflexivity.
Defined.

Lemma validateMovie_missing_field_witness :
  ("director", "string", "Required") ∈ required_fields ∧
  obj_get "director" [("title", JStr "Dune")] = None ∧
  ∃ iss, validateMovie (JObj [("title", JStr "Dune")]) = ParseError iss ∧
    issues_at "director" iss = [{| issue_kind := invalid_type "string" "undefined";
                                   issue_path := [PKey "director"]; issue_message := "Required" |}].
Proof.
  assert (H1 : ("director", "string", "Required") ∈ required_fields) by (vm_compute; set_solver).
  assert (H2 : obj_get "director" [("title", JStr "Dune")] = None) by reflexivity.
  split_and!; [exact H1|exact H2|]. exact (validateMovie_missing_field _ _ _ _ H1 H2).
Defined.
