(* ===== verification/Store.v ===== *)
(** * The movie collection and its route handlers ([src/app.js])

    The process-wide array [movies] is the state ([store], a list of
    [movie] records in array order).  Each route handler of [app.js] is one
    definition taking the request's parameters and the store and returning
    the response and the new store: [get_movies] (GET /movies, which may
    throw), [get_movie] (GET /movies/:id), [post_movie] (POST /movies/),
    [patch_movie] (PATCH /movies/:id) and [delete_movie] (DELETE
    /movies/:id).  The handlers reach the schema through the [Validator]
    interface, which states what they rely on: a successful validation
    returns data within the schema's constraints.  [Schema] provides the
    instance.  The store invariant [store_inv] (distinct ids, every record
    within the constraints) is preserved by every handler. *)

From S2P Require Import Prelude JsValue Url Schema.
Close Scope Q_scope.
#[local] Set Warnings "-clear-no-such-hyp".

(** ** What the handlers need from the validator *)

(** Every field present in a patch is within the schema's constraints. *)
Definition patch_ok (p : movie_patch) : bool :=
  default true (genre_ok <$> p_genre p) && default true (year_ok <$> p_year p) &&
  default true (duration_ok <$> p_duration p) && default true (rate_ok <$> p_rate p) &&
  default true (poster_ok <$> p_poster p).

Class Validator : Type := {
  validate_full : jval → safe_parse_result movie_data;
  validate_partial : jval → safe_parse_result movie_patch;
  validate_full_ok v d : validate_full v = ParseSuccess d → movie_data_ok d = true;
  validate_partial_ok v p : validate_partial v = ParseSuccess p → patch_ok p = true
}.

Lemma validatePartial_ok v p : validatePartial v = ParseSuccess p → patch_ok p = true.
Proof.
  destruct v as [| | | | |kvs]; try done. rewrite validatePartial_fields.
  unfold patch_fields_spec, patch_ok, present_ok.
  destruct p as [[] [] [] [] [] [] []]; simpl; intros; destruct_and?;
    rewrite ?andb_true_iff; auto 10.
Qed.

(** [src/schemas/movies.js] implements the interface. *)
#[export] Instance schema_validator : Validator := {|
  validate_full := validateMovie;
  validate_partial := validatePartial;
  validate_full_ok := validateMovie_ok;
  validate_partial_ok := validatePartial_ok
|}.

(** ** Records, store and responses *)

(** A stored movie: the server-generated [id] and the validated fields,
    [{ id: crypto.randomUUID(), ...result.data }]. *)
Record movie : Type := mk_movie {
  movie_id : string;
  data : movie_data
}.

Abbreviation store := (list movie).

Inductive resp_body : Type :=
| BMovies (ms : list movie)
| BMovie (m : movie)
| BMessage (msg : string)
| BError (iss : list issue).

Record response : Type := mk_response {
  status : Z;
  body : resp_body
}.

(** [res.json(x)]: status 200 unless [res.status(n)] set another. *)
Definition ok_json (b : resp_body) : response := mk_response 200 b.
Definition not_found : response := mk_response 404 (BMessage "Movie not found").

(** The value of [req.query.genre] as Express's query parser builds it: a
    string, an array ([?genre=a&genre=b]) or an object ([?genre[k]=v]). *)
Inductive query_val : Type :=
| QStr (s : string)
| QArr (xs : list string)
| QObj (kvs : list (string * string)).

Definition query_truthy (v : query_val) : bool :=
  match v with QStr s => js_truthy_string s | _ => true end.

(** [genre.toLowerCase()]: only strings have the method. *)
Definition query_to_lower (v : query_val) : js_result string :=
  match v with
  | QStr s => mret (to_lower_case s)
  | _ => throw "genre.toLowerCase is not a function"
  end.

Definition same_id (id : string) (m : movie) : bool := String.eqb (movie_id m) id.

(** [{ ...movies[movieIndex], ...result.data }] on the fields: a field of the
    patch overwrites the record's, the others are kept. *)
Definition apply_patch (d : movie_data) (p : movie_patch) : movie_data :=
  {| title := default (title d) (p_title p);
     genre := default (genre d) (p_genre p);
     year := default (year d) (p_year p);
     duration := default (duration d) (p_duration p);
     director := default (director d) (p_director p);
     rate := default (rate d) (p_rate p);
     poster := default (poster d) (p_poster p) |}.

(** ** The handlers *)

Section Handlers.
Context `{V : Validator}.

(** GET / *)
Definition get_root : response := ok_json (BMessage "Tranka palanka").

(** The callback of [movies.filter]:
    [movie.genre.some(g => g.toLowerCase() === genre.toLowerCase())]. *)
Definition genre_matches (q : query_val) (m : movie) : js_result bool :=
  js_some (λ g, lq ← query_to_lower q; mret (String.eqb (to_lower_case g) lq)) (genre (data m)).

(** GET /movies *)
Definition get_movies (q : option query_val) (s : store) : js_result response :=
  match q with
  | Some v =>
      if query_truthy v then
        filtered ← js_filter (genre_matches v) s; mret (ok_json (BMovies filtered))
      else mret (ok_json (BMovies s))
  | None => mret (ok_json (BMovies s))
  end.

(** GET /movies/:id *)
Definition get_movie (id : string) (s : store) : response :=
  match js_find (same_id id) s with
  | Some m => ok_json (BMovie m)
  | None => not_found
  end.

(** POST /movies/: [uuid] is the value [crypto.randomUUID()] returns. *)
Definition post_movie (uuid : string) (b : jval) (s : store) : response * store :=
  match validate_full b with
  | ParseError iss => (mk_response 400 (BError iss), s)
  | ParseSuccess d =>
      let m := mk_movie uuid d in
      (mk_response 201 (BMovie m), s ++ [m])
  end.

(** PATCH /movies/:id: validation first, then the lookup.  The last
    branch (an index other than -1 outside the array) cannot be taken,
    see [find_index_lookup]. *)
Definition patch_movie (id : string) (b : jval) (s : store) : response * store :=
  match validate_partial b with
  | ParseError iss => (mk_response 400 (BError iss), s)
  | ParseSuccess p =>
      let i := js_find_index (same_id id) s in
      if (i =? -1)%Z then (not_found, s)
      else match s !! Z.to_nat i with
           | Some m =>
               let m' := mk_movie (movie_id m) (apply_patch (data m) p) in
               (ok_json (BMovie m'), <[Z.to_nat i := m']> s)
           | None => (not_found, s)
           end
  end.

(** DELETE /movies/:id: [movies.splice(movieIndex, 1)]. *)
Definition delete_movie (id : string) (s : store) : response * store :=
  let i := js_find_index (same_id id) s in
  if (i =? -1)%Z then (not_found, s)
  else (ok_json (BMessage "Movie deleted"), delete (Z.to_nat i) s).
End Handlers.

(** ** The store invariant *)

Definition ids (s : store) : list string := movie_id <$> s.

(** Every record is within the schema's constraints. *)
Definition records_ok (s : store) : Prop := Forall (λ m, movie_data_ok (data m) = true) s.

(** Ids are distinct and every record is within the schema's constraints. *)
Definition store_inv (s : store) : Prop := NoDup (ids s) ∧ records_ok s.

(** ** Lookups by id *)

Lemma same_id_true id m : same_id id m = true ↔ movie_id m = id.
Proof. unfold same_id. apply String.eqb_eq. Qed.

(** With distinct ids, the record with a given id is the first one found. *)
Lemma list_find_same_id (s : store) m i :
  NoDup (ids s) → s !! i = Some m →
  list_find (λ x, same_id (movie_id m) x = true) s = Some (i, m).
Proof.
  intros Hnd Hi. apply list_find_Some. split_and!; [done|by apply same_id_true|].
  intros j y Hj Hji Hy%same_id_true.
  assert (j = i); [|lia].
  eapply NoDup_lookup; [exact Hnd| |]; unfold ids; rewrite list_lookup_fmap.
  - by rewrite Hj.
  - by rewrite Hi, Hy.
Qed.

Lemma list_find_same_id_None (s : store) id :
  id ∉ ids s → list_find (λ x, same_id id x = true) s = None.
Proof.
  intros Hn. apply list_find_None, Forall_forall. intros m Hm Hid%same_id_true.
  apply Hn. unfold ids. apply list_elem_of_fmap. eauto.
Qed.

(** [findIndex] returns a valid index of a record with the id, or -1 when
    no record has it. *)
Lemma find_index_lookup (s : store) id :
  (js_find_index (same_id id) s = (-1)%Z ∧ id ∉ ids s) ∨
  (∃ i m, js_find_index (same_id id) s = Z.of_nat i ∧ s !! i = Some m ∧ movie_id m = id).
Proof.
  destruct (list_find (λ x, same_id id x = true) s) as [[i m]|] eqn:E.
  - right. exists i, m. split; [by eapply js_find_index_Some|].
    apply list_find_Some in E as (Hi & Hid%same_id_true & _). done.
  - left. split; [by apply js_find_index_None|].
    apply list_find_None in E. unfold ids. rewrite list_elem_of_fmap.
    intros (m & -> & Hm). rewrite Forall_forall in E. apply (E m Hm), same_id_true. done.
Qed.

Lemma find_index_present (s : store) i m :
  NoDup (ids s) → s !! i = Some m → js_find_index (same_id (movie_id m)) s = Z.of_nat i.
Proof. intros Hnd Hi. eapply js_find_index_Some, list_find_same_id; eauto. Qed.

Lemma find_index_absent (s : store) id :
  id ∉ ids s → js_find_index (same_id id) s = (-1)%Z.
Proof. intros H. by apply js_find_index_None, list_find_same_id_None. Qed.

Lemma ids_lookup (s : store) i m : s !! i = Some m → movie_id m ∈ ids s.
Proof. intros H. unfold ids. apply list_elem_of_fmap. exists m. split; [done|]. by eapply list_elem_of_lookup_2. Qed.

(** ** The handlers keep the store invariant *)

Lemma apply_patch_ok d p :
  movie_data_ok d = true → patch_ok p = true → movie_data_ok (apply_patch d p) = true.
Proof.
  unfold movie_data_ok, patch_ok, apply_patch.
  destruct d, p as [? [] [] [] ? [] []]; simpl; rewrite !andb_true_iff; naive_solver.
Qed.

(** Overwriting a record by one with the same id keeps the ids. *)
Lemma ids_insert_same (s : store) i m m' :
  s !! i = Some m → movie_id m' = movie_id m → ids (<[i := m']> s) = ids s.
Proof.
  intros Hi Hid. unfold ids. rewrite list_fmap_insert, Hid.
  apply list_insert_id. rewrite list_lookup_fmap, Hi. done.
Qed.

Lemma ids_app (s : store) m : ids (s ++ [m]) = ids s ++ [movie_id m].
Proof. unfold ids. by rewrite fmap_app. Qed.

Section HandlerLemmas.
Context `{V : Validator}.

Lemma post_movie_records_ok uuid b s : records_ok s → records_ok (post_movie uuid b s).2.
Proof.
  intros Hok. unfold post_movie. destruct (validate_full b) as [d|iss] eqn:E; [|done].
  apply Forall_app. split; [done|]. apply Forall_singleton. simpl. by eapply validate_full_ok.
Qed.

Lemma post_movie_ids uuid b s :
  ids (post_movie uuid b s).2 = ids s ∨ ids (post_movie uuid b s).2 = ids s ++ [uuid].
Proof. unfold post_movie. destruct (validate_full b); [right; apply ids_app|by left]. Qed.

Lemma post_movie_store uuid b s :
  (post_movie uuid b s).2 = s ∨ ∃ d, (post_movie uuid b s).2 = s ++ [mk_movie uuid d].
Proof. unfold post_movie. destruct (validate_full b) as [d|]; [right; by exists d|by left]. Qed.

Lemma post_movie_store_inv uuid b s :
  store_inv s → uuid ∉ ids s → store_inv (post_movie uuid b s).2.
Proof.
  intros [Hnd Hok] Hfresh. split; [|by apply post_movie_records_ok].
  destruct (post_movie_ids uuid b s) as [->| ->]; [done|].
  apply NoDup_app. split_and!; [done| |by apply NoDup_singleton].
  intros x Hx ->%list_elem_of_singleton. done.
Qed.

(** C6: the POST handler keeps ids distinct and records valid, when the
    id it is given is not already in use. *)
Theorem post_movie_inv uuid b s :
  store_inv s → uuid ∉ ids s → store_inv (post_movie uuid b s).2.
Proof. apply post_movie_store_inv. Qed.

Lemma patch_movie_found id b s p i m :
  validate_partial b = ParseSuccess p →
  js_find_index (same_id id) s = Z.of_nat i → s !! i = Some m →
  patch_movie id b s =
    (ok_json (BMovie (mk_movie (movie_id m) (apply_patch (data m) p))),
     <[i := mk_movie (movie_id m) (apply_patch (data m) p)]> s).
Proof.
  intros Hv Hi Hm. unfold patch_movie. rewrite Hv, Hi, Nat2Z.id, Hm.
  destruct (Z.eqb_spec (Z.of_nat i) (-1)); [lia|done].
Qed.

Lemma patch_movie_absent id b s p :
  validate_partial b = ParseSuccess p → id ∉ ids s → patch_movie id b s = (not_found, s).
Proof. intros Hv Hn. unfold patch_movie. by rewrite Hv, find_index_absent. Qed.

(** The store after a PATCH: unchanged, or one record replaced in place by
    a record with the same id and the patch applied to its fields. *)
Lemma patch_movie_store id b s :
  (patch_movie id b s).2 = s ∨
  ∃ p i m, validate_partial b = ParseSuccess p ∧ s !! i = Some m ∧
    (patch_movie id b s).2 = <[i := mk_movie (movie_id m) (apply_patch (data m) p)]> s.
Proof.
  destruct (validate_partial b) as [p|iss] eqn:Hv; [|left; unfold patch_movie; by rewrite Hv].
  destruct (find_index_lookup s id) as [[_ Hn]|(i & m & Hi & Hm & <-)].
  - left. by rewrite (patch_movie_absent _ _ _ p).
  - right. exists p, i, m. by rewrite (patch_movie_found _ _ _ p i m).
Qed.

Lemma patch_movie_records_ok id b s : records_ok s → records_ok (patch_movie id b s).2.
Proof.
  intros Hok. destruct (patch_movie_store id b s) as [->|(p & i & m & Hv & Hm & ->)]; [done|].
  apply Forall_insert; [done|]. simpl. apply apply_patch_ok.
  - by eapply (Forall_lookup_1 _ _ _ _ Hok).
  - by eapply validate_partial_ok.
Qed.

Lemma patch_movie_store_inv id b s : store_inv s → store_inv (patch_movie id b s).2.
Proof.
  intros [Hnd Hok]. split; [|by apply patch_movie_records_ok].
  destruct (patch_movie_store id b s) as [->|(p & i & m & Hv & Hm & ->)]; [done|].
  by rewrite (ids_insert_same _ _ m).
Qed.

(** C7: the PATCH handler keeps ids distinct and records valid. *)
Theorem patch_movie_inv id b s : store_inv s → store_inv (patch_movie id b s).2.
Proof. apply patch_movie_store_inv. Qed.

Lemma delete_movie_found id s i m :
  js_find_index (same_id id) s = Z.of_nat i → s !! i = Some m →
  delete_movie id s = (ok_json (BMessage "Movie deleted"), delete i s).
Proof.
  intros Hi Hm. unfold delete_movie. rewrite Hi, Nat2Z.id.
  destruct (Z.eqb_spec (Z.of_nat i) (-1)); [lia|done].
Qed.

Lemma delete_movie_absent id s : id ∉ ids s → delete_movie id s = (not_found, s).
Proof. intros Hn. unfold delete_movie. by rewrite find_index_absent. Qed.

(** The store after a DELETE: unchanged, or one stored record removed. *)
Lemma delete_movie_store id s :
  (delete_movie id s).2 = s ∨ ∃ i m, s !! i = Some m ∧ (delete_movie id s).2 = delete i s.
Proof.
  destruct (find_index_lookup s id) as [[_ Hn]|(i & m & Hi & Hm & <-)].
  - left. by rewrite delete_movie_absent.
  - right. exists i, m. by rewrite (delete_movie_found _ _ i m).
Qed.

Lemma delete_movie_records_ok id s : records_ok s → records_ok (delete_movie id s).2.
Proof.
  intros Hok. destruct (delete_movie_store id s) as [->|(i & m & Hm & ->)]; [done|].
  by apply Forall_delete.
Qed.
Lemma delete_movie_store_inv id s : store_inv s → store_inv (delete_movie id s).2.
Proof.
  intros [Hnd Hok]. split; [|by apply delete_movie_records_ok].
  destruct (delete_movie_store id s) as [->|(i & m & Hm & ->)]; [done|].
  unfold ids. rewrite list_fmap_delete. by apply NoDup_delete_list.
Qed.

Lemma filter_other_absent id s : id ∉ ids s → filter (λ m, movie_id m ≠ id) s = s.
Proof.
  intros Hn. apply filter_all, Forall_forall. intros m Hm <-.
  apply Hn. unfold ids. apply list_elem_of_fmap. eauto.
Qed.

(** With distinct ids, removing the record at [i] is removing every
    record with its id. *)
Lemma delete_unique_filter s i m :
  NoDup (ids s) → s !! i = Some m → delete i s = filter (λ x, movie_id x ≠ movie_id m) s.
Proof.
  revert i. induction s as [|y s IH]; intros [|i] Hnd Hi; try done;
    unfold ids in Hnd; rewrite fmap_cons in Hnd; apply NoDup_cons in Hnd as [Hy Hnd].
  - injection Hi as ->. cbn [delete list_delete]. rewrite filter_cons_False by naive_solver.
    symmetry. by apply filter_other_absent.
  - cbn [delete list_delete]. rewrite filter_cons_True.
    + f_equal. by apply IH.
    + intros E. apply Hy. rewrite E. by eapply ids_lookup.
Qed.

Lemma delete_movie_filter id s :
  NoDup (ids s) →
  (delete_movie id s).2 = filter (λ m, movie_id m ≠ id) s ∧
  (delete_movie id s).1 = (if bool_decide (id ∈ ids s) then ok_json (BMessage "Movie deleted") else not_found).
Proof.
  intros Hnd. destruct (find_index_lookup s id) as [[_ Hn]|(i & m & Hi & Hm & <-)].
  - rewrite delete_movie_absent, filter_other_absent, bool_decide_false by done. done.
  - rewrite (delete_movie_found _ _ i m Hi Hm). cbn [fst snd].
    rewrite bool_decide_true by (by eapply ids_lookup). split; [by apply delete_unique_filter|done].
Qed.

Lemma delete_movie_correct id s :
  store_inv s →
  store_inv (delete_movie id s).2 ∧
  (delete_movie id s).2 = filter (λ m, movie_id m ≠ id) s ∧
  (delete_movie id s).1 = (if bool_decide (id ∈ ids s) then ok_json (BMessage "Movie deleted") else not_found).
Proof.
  intros Hs. split; [by apply delete_movie_store_inv|]. apply delete_movie_filter, Hs.
Qed.

(** C11: on a store with distinct ids, DELETE /movies/:id removes exactly
    the records with that id and no other (the store becomes the filter
    of the records whose id differs), answers "Movie deleted" when the id
    was stored and 404 otherwise, and keeps ids distinct and records
    valid. *)
Theorem delete_movie_spec id s :
  store_inv s →
  store_inv (delete_movie id s).2 ∧
  (delete_movie id s).2 = filter (λ m, movie_id m ≠ id) s ∧
  (delete_movie id s).1 = (if bool_decide (id ∈ ids s) then ok_json (BMessage "Movie deleted") else not_found).
Proof. apply delete_movie_correct. Qed.

End HandlerLemmas.

(** ** Functional behaviour of the handlers *)

Lemma NoDup_delete_lookup_not_elem (l : list string) i x :
  NoDup l → l !! i = Some x → x ∉ delete i l.
Proof.
  intros Hnd Hi (j & Hj)%list_elem_of_lookup.
  destruct (decide (j < i)) as [Hlt|Hge].
  - rewrite list_lookup_delete_lt in Hj by lia.
    pose proof (NoDup_lookup _ _ _ _ Hnd Hj Hi). lia.
  - rewrite list_lookup_delete_ge in Hj by lia.
    pose proof (NoDup_lookup _ _ _ _ Hnd Hj Hi). lia.
Qed.

Section HandlerSpecs.
Context `{V : Validator}.

Lemma get_movie_lookup s i m :
  NoDup (ids s) → s !! i = Some m → get_movie (movie_id m) s = ok_json (BMovie m).
Proof.
  intros Hnd Hi. unfold get_movie. rewrite js_find_list_find.
  by rewrite (list_find_same_id s m i).
Qed.

(** C8: with distinct ids, GET /movies/:id on the id of a stored record
    returns that record. *)
Theorem get_movie_found s i m :
  NoDup (ids s) → s !! i = Some m → get_movie (movie_id m) s = ok_json (BMovie m).
Proof. apply get_movie_lookup. Qed.

Lemma get_movie_absent s id : get_movie id s = not_found ↔ id ∉ ids s.
Proof.
  unfold get_movie. rewrite js_find_list_find. split.
  - destruct (list_find _ s) as [[i m]|] eqn:E; simpl; [done|].
    intros _. apply list_find_None in E. unfold ids. rewrite list_elem_of_fmap.
    intros (m & -> & Hm). rewrite Forall_forall in E. by apply (E m Hm), same_id_true.
  - intros Hn. by rewrite list_find_same_id_None.
Qed.

(** C12: GET /movies/:id answers 404 "Movie not found" exactly for the ids
    no record has. *)
Theorem get_movie_not_found s id : get_movie id s = not_found ↔ id ∉ ids s.
Proof. apply get_movie_absent. Qed.

(** C9: after a DELETE of a stored record succeeds, the store has one
    record fewer, GET on its id answers 404, and a second DELETE answers
    404 too. *)
Theorem delete_then_get s i m :
  store_inv s → s !! i = Some m →
  let s' := (delete_movie (movie_id m) s).2 in
  length s' = length s - 1 ∧ get_movie (movie_id m) s' = not_found ∧
  delete_movie (movie_id m) s' = (not_found, s').
Proof.
  intros [Hnd _] Hi. rewrite (delete_movie_found _ _ i m) by (done || by apply find_index_present).
  simpl. assert (Hn : movie_id m ∉ ids (delete i s)).
  { unfold ids. rewrite list_fmap_delete. apply NoDup_delete_lookup_not_elem; [done|].
    by rewrite list_lookup_fmap, Hi. }
  split_and!.
  - rewrite length_delete; [done|]. by eexists.
  - by apply get_movie_absent.
  - by apply delete_movie_absent.
Qed.

(** POST followed by GET on the new id returns the created record. *)
Lemma post_then_get uuid b s d :
  store_inv s → uuid ∉ ids s → validate_full b = ParseSuccess d →
  get_movie uuid (post_movie uuid b s).2 = ok_json (BMovie (mk_movie uuid d)).
Proof.
  intros Hinv Hfresh Hv. pose proof (post_movie_store_inv uuid b s Hinv Hfresh) as [Hnd _].
  unfold post_movie in *. rewrite Hv in *. simpl in *.
  apply (get_movie_lookup _ (length s) (mk_movie uuid d)); [done|].
  by rewrite lookup_app_r, Nat.sub_diag.
Qed.

(** GET /movies?genre=q with a non-empty string: the records having a
    genre equal to [q] up to case, in store order. *)
Lemma get_movies_string q s :
  js_truthy_string q = true →
  get_movies (Some (QStr q)) s =
    JsOk (ok_json (BMovies (filter (λ m, existsb (λ g, String.eqb (to_lower_case g)
      (to_lower_case q)) (genre (data m)) = true) s))).
Proof.
  intros Hq. unfold get_movies. simpl. rewrite Hq.
  rewrite (js_filter_ext _ (λ m, JsOk (existsb (λ g, String.eqb (to_lower_case g)
    (to_lower_case q)) (genre (data m))))); [by rewrite js_filter_pure|].
  intros m. unfold genre_matches. simpl. apply js_some_pure.
Qed.

(** The reference the genre filter implements: with a non-empty string
    query, the records one of whose genres equals the query up to case, in
    store order; otherwise every record. *)
Definition genre_filter_ref (q : option string) (s : store) : list movie :=
  match q with
  | Some q' =>
      if js_truthy_string q'
      then filter (λ m, Exists (λ g, to_lower_case g = to_lower_case q') (genre (data m))) s
      else s
  | None => s
  end.

Lemma existsb_eqb_Exists q gs :
  existsb (λ g, String.eqb (to_lower_case g) (to_lower_case q)) gs = true ↔
  Exists (λ g, to_lower_case g = to_lower_case q) gs.
Proof.
  rewrite existsb_exists, Exists_exists. setoid_rewrite String.eqb_eq.
  by setoid_rewrite list_elem_of_In.
Qed.

(** C30: GET /movies with a string query (or none) is the reference
    filter: [movies.filter] over [movie.genre.some] with [toLowerCase] on
    both sides returns exactly the records [genre_filter_ref] selects, in
    store order, and never throws. *)
Theorem get_movies_ref q s :
  get_movies (QStr <$> q) s = JsOk (ok_json (BMovies (genre_filter_ref q s))).
Proof.
  destruct q as [[|c q]|]; [done| |done]. simpl fmap.
  rewrite get_movies_string by done. do 3 f_equal.
  apply list_filter_iff. intros m. apply existsb_eqb_Exists.
Qed.

(** C16: a [genre] query given as an array ([?genre=a&genre=b]) makes the
    filter callback throw a TypeError as soon as it meets a record with a
    genre; with no such record the answer is an empty list. *)
Theorem get_movies_array_query xs s :
  get_movies (Some (QArr xs)) s =
    if existsb (λ m, bool_decide (genre (data m) ≠ [])) s
    then throw "genre.toLowerCase is not a function"
    else JsOk (ok_json (BMovies [])).
Proof.
  assert (H : js_filter (genre_matches (QArr xs)) s =
    if existsb (λ m, bool_decide (genre (data m) ≠ [])) s
    then throw "genre.toLowerCase is not a function" else JsOk []).
  { induction s as [|m s IH]; [done|]. cbn [js_filter existsb]. rewrite IH.
    unfold genre_matches. destruct (genre (data m)) as [|g gs]; [|done].
    cbn. by destruct (existsb _ s). }
  unfold get_movies. cbn [query_truthy]. rewrite H. by destruct (existsb _ s).
Qed.
End HandlerSpecs.

(** ** The handlers with the schema of [src/schemas/movies.js] *)

(** C2: POST /movies/ with a body the schema accepts answers 201 with the
    record made of the new id and the body's validated fields (rate 5 when
    absent), and appends exactly that record to the store. *)
Theorem post_movie_valid uuid kvs d s :
  movie_fields_spec kvs d →
  post_movie uuid (JObj kvs) s =
    (mk_response 201 (BMovie (mk_movie uuid d)), s ++ [mk_movie uuid d]).
Proof. intros H. unfold post_movie. simpl. by rewrite (proj2 (validateMovie_fields kvs d) H). Qed.

(** POST /movies/ with a body the schema rejects answers 400 with the
    violations and leaves the store as it was. *)
Lemma post_movie_invalid uuid b iss s :
  validateMovie b = ParseError iss → post_movie uuid b s = (mk_response 400 (BError iss), s).
Proof. intros H. unfold post_movie. simpl. by rewrite H. Qed.

Definition rate_only_patch (r : Q) : movie_patch :=
  {| p_title := None; p_genre := None; p_year := None; p_duration := None;
     p_director := None; p_rate := Some r; p_poster := None |}.

Lemma validatePartial_rate_only r :
  rate_ok r = true → validatePartial (JObj [("rate", JNum r)]) = ParseSuccess (rate_only_patch r).
Proof. intros Hr. apply validatePartial_fields. repeat split; done. Qed.

(** C10: PATCH /movies/:id with the body [{"rate": r}] (r in [0, 10]) on a
    stored record answers 200 with the record whose [rate] is [r] and whose
    id and other fields are unchanged, and stores it in place. *)
Theorem patch_rate_only s i m r :
  NoDup (ids s) → s !! i = Some m → rate_ok r = true →
  let d := data m in
  let m' := mk_movie (movie_id m)
    {| title := title d; genre := genre d; year := year d; duration := duration d;
       director := director d; rate := r; poster := poster d |} in
  patch_movie (movie_id m) (JObj [("rate", JNum r)]) s = (ok_json (BMovie m'), <[i := m']> s).
Proof.
  intros Hnd Hi Hr. simpl.
  rewrite (patch_movie_found _ _ _ (rate_only_patch r) i m); [done| |by apply find_index_present|done].
  by apply validatePartial_rate_only.
Qed.

(** C25: PATCH validates the body before looking the id up: a body
    [validatePartial] rejects answers 400 with its issues whether or not a
    record has the id, and the store is unchanged. *)
Theorem patch_movie_invalid id b iss s :
  validatePartial b = ParseError iss → patch_movie id b s = (mk_response 400 (BError iss), s).
Proof. intros H. unfold patch_movie. simpl. by rewrite H. Qed.

(** ** Concrete runs *)

Definition seed_x : store := [mk_movie "x" dune_data].

Lemma seed_x_inv : store_inv seed_x.
Proof. split; [repeat constructor; set_solver|]. repeat constructor. Qed.

Lemma post_movie_inv_witness :
  store_inv [] ∧ ("id-1" ∉ ids []) ∧ store_inv (post_movie "id-1" dune_body []).2.
Proof.
  assert (H : store_inv []) by (split; constructor).
  split_and!; [exact H|set_solver|]. apply post_movie_inv; [exact H|set_solver].
Defined.

Lemma patch_movie_inv_witness :
  store_inv seed_x ∧ store_inv (patch_movie "x" (JObj [("rate", JNum (19 # 2))]) seed_x).2.
Proof. split; [apply seed_x_inv|]. apply patch_movie_inv, seed_x_inv. Defined.

Lemma delete_movie_spec_witness :
  store_inv seed_x ∧ (delete_movie "x" seed_x).2 = filter (λ m, movie_id m ≠ "x") seed_x.
Proof. split; [apply seed_x_inv|]. apply (delete_movie_spec "x" seed_x seed_x_inv). Defined.

Lemma get_movie_found_witness :
  NoDup (ids seed_x) ∧ seed_x !! 0 = Some (mk_movie "x" dune_data) ∧
  get_movie "x" seed_x = ok_json (BMovie (mk_movie "x" dune_data)).
Proof.
  pose proof seed_x_inv as [Hnd _].
  split_and!; [exact Hnd|reflexivity|].
  apply (get_movie_found seed_x 0 (mk_movie "x" dune_data)); [exact Hnd|reflexivity].
Defined.

Lemma delete_then_get_witness :
  store_inv seed_x ∧ seed_x !! 0 = Some (mk_movie "x" dune_data) ∧
  length (delete_movie "x" seed_x).2 = length seed_x - 1 ∧
  get_movie "x" (delete_movie "x" seed_x).2 = not_found.
Proof.
  pose proof (delete_then_get seed_x 0 (mk_movie "x" dune_data) seed_x_inv eq_refl) as (H1 & H2 & _).
  split_and!; [apply seed_x_inv|reflexivity|exact H1|exact H2].
Defined.

Lemma patch_rate_only_witness :
  NoDup (ids seed_x) ∧ seed_x !! 0 = Some (mk_movie "x" dune_data) ∧ rate_ok (19 # 2) = true ∧
  patch_movie "x" (JObj [("rate", JNum (19 # 2))]) seed_x =
    (ok_json (BMovie (mk_movie "x" {| title := "Dune"; genre := ["Sci-Fi"]; year := inject_Z 2021;
       duration := inject_Z 155; director := "Denis Villeneuve"; rate := 19 # 2;
       poster := "https://example.com/p.jpg" |})),
     [mk_movie "x" {| title := "Dune"; genre := ["Sci-Fi"]; year := inject_Z 2021;
       duration := inject_Z 155; director := "Denis Villeneuve"; rate := 19 # 2;
       poster := "https://example.com/p.jpg" |}]).
Proof.
  pose proof seed_x_inv as [Hnd _].
  assert (Hr : rate_ok (19 # 2) = true) by reflexivity.
  split_and!; [exact Hnd|reflexivity|exact Hr|].
  exact (patch_rate_only seed_x 0 (mk_movie "x" dune_data) (19 # 2) Hnd eq_refl Hr).
Defined.

Lemma post_movie_valid_witness :
  movie_fields_spec dune_kvs dune_data ∧
  post_movie "id-1" (JObj dune_kvs) [] =
    (mk_response 201 (BMovie (mk_movie "id-1" dune_data)), [mk_movie "id-1" dune_data]).
Proof.
  assert (H : movie_fields_spec dune_kvs dune_data) by (vm_compute; repeat split).
  split; [exact H|]. exact (post_movie_valid "id-1" dune_kvs dune_data [] H).
Defined.

Lemma patch_movie_invalid_witness :
  validatePartial (JArr []) = ParseError [object_issue (Some (JArr []))] ∧
  patch_movie "no-such-id" (JArr []) seed_x =
    (mk_response 400 (BError [object_issue (Some (JArr []))]), seed_x).
Proof.
  assert (H : validatePartial (JArr []) = ParseError [object_issue (Some (JArr []))]) by reflexivity.
  split; [exact H|]. exact (patch_movie_invalid "no-such-id" (JArr []) _ seed_x H).
Defined.
