(* ===== verification/Collection.v ===== *)
(** * The collection as a finite map: what the API promises

    A client of the REST API sees the collection as a finite map from ids
    to movie data: GET /movies/:id looks an id up, POST /movies/ adds a
    fresh id, PATCH /movies/:id overwrites the fields of one entry, DELETE
    /movies/:id removes one.  [spec_step] states that contract on a
    [gmap]; [abs] reads a [store] (the array [movies] of [src/app.js]) as
    such a map.  The refinement theorems show that the handlers of [Store],
    which search the array with [findIndex]/[find] and update it with
    [push], in-place assignment and [splice], implement the map operations
    exactly, as long as ids are distinct, and that every run of them is a
    run of the specification. *)

From stdpp Require Import gmap.
From S2P Require Import Prelude JsValue Schema Store.
Close Scope Q_scope.
#[local] Set Warnings "-clear-no-such-hyp".

Abbreviation collection := (gmap string movie_data).

Definition to_pair (m : movie) : string * movie_data := (movie_id m, data m).

(** The map a store represents: an id bound to the fields of the first
    record with that id, the one [find] and [findIndex] return. *)
Definition abs (s : store) : collection := list_to_map (to_pair <$> s).

Notation "⟦ s ⟧" := (abs s) (format "⟦ s ⟧") : movies_scope.

(** The operations of the API that address records by id. *)
Inductive api_op : Type :=
| OpGet (id : string)
| OpPost (uuid : string) (b : jval)
| OpPatch (id : string) (b : jval)
| OpDelete (id : string).

Section Spec.
Context `{V : Validator}.

Definition spec_get (id : string) (M : collection) : response :=
  match M !! id with
  | Some d => ok_json (BMovie (mk_movie id d))
  | None => not_found
  end.

(** The contract: each operation's response and the map it leaves. *)
Definition spec_step (o : api_op) (M : collection) : response * collection :=
  match o with
  | OpGet id => (spec_get id M, M)
  | OpPost uuid b =>
      match validate_full b with
      | ParseError iss => (mk_response 400 (BError iss), M)
      | ParseSuccess d => (mk_response 201 (BMovie (mk_movie uuid d)), <[uuid := d]> M)
      end
  | OpPatch id b =>
      match validate_partial b with
      | ParseError iss => (mk_response 400 (BError iss), M)
      | ParseSuccess p =>
          match M !! id with
          | Some d => (ok_json (BMovie (mk_movie id (apply_patch d p))), <[id := apply_patch d p]> M)
          | None => (not_found, M)
          end
      end
  | OpDelete id =>
      match M !! id with
      | Some _ => (ok_json (BMessage "Movie deleted"), delete id M)
      | None => (not_found, M)
      end
  end.

(** The handlers of [src/app.js] on the same operations. *)
Definition impl_step (o : api_op) (s : store) : response * store :=
  match o with
  | OpGet id => (get_movie id s, s)
  | OpPost uuid b => post_movie uuid b s
  | OpPatch id b => patch_movie id b s
  | OpDelete id => delete_movie id s
  end.

(** A POST's id is not yet bound. *)
Definition op_fresh (o : api_op) (M : collection) : Prop :=
  match o with OpPost uuid _ => M !! uuid = None | _ => True end.

Fixpoint spec_run (os : list api_op) (M : collection) : list response * collection :=
  match os with
  | [] => ([], M)
  | o :: os' => let '(r, M') := spec_step o M in let '(rs, M'') := spec_run os' M' in (r :: rs, M'')
  end.

Fixpoint impl_run (os : list api_op) (s : store) : list response * store :=
  match os with
  | [] => ([], s)
  | o :: os' => let '(r, s') := impl_step o s in let '(rs, s'') := impl_run os' s' in (r :: rs, s'')
  end.

(** Every POST of the run gets an id unbound at that point. *)
Fixpoint run_fresh (os : list api_op) (M : collection) : Prop :=
  match os with
  | [] => True
  | o :: os' => op_fresh o M ∧ run_fresh os' (spec_step o M).2
  end.
End Spec.

(** ** The abstraction on the array operations *)

Lemma abs_cons m s : abs (m :: s) = <[movie_id m := data m]> (abs s).
Proof. done. Qed.

Lemma abs_fst (s : store) : (to_pair <$> s).*1 = ids s.
Proof. unfold ids. rewrite <- list_fmap_compose. done. Qed.

Lemma abs_lookup_None (s : store) id : abs s !! id = None ↔ id ∉ ids s.
Proof. unfold abs. rewrite <- not_elem_of_list_to_map, abs_fst. done. Qed.

Lemma js_find_same_id id (s : store) m : js_find (same_id id) s = Some m → movie_id m = id.
Proof.
  induction s as [|x s IH]; simpl; [done|].
  destruct (same_id id x) eqn:E; [|done]. intros [= <-]. by apply same_id_true.
Qed.

(** The map binds an id to the fields of the record [find] returns. *)
Lemma abs_lookup (s : store) id : abs s !! id = data <$> js_find (same_id id) s.
Proof.
  induction s as [|m s IH]; [done|]. rewrite abs_cons, lookup_insert. simpl.
  unfold same_id at 1. destruct (String.eqb_spec (movie_id m) id); simpl.
  - by rewrite decide_True.
  - by rewrite decide_False.
Qed.

Lemma abs_lookup_elem (s : store) i m :
  NoDup (ids s) → s !! i = Some m → abs s !! movie_id m = Some (data m).
Proof.
  intros Hnd Hi. rewrite abs_lookup, js_find_list_find.
  by erewrite list_find_same_id.
Qed.

(** [movies.push(m)] with a new id. *)
Lemma abs_snoc (s : store) m : movie_id m ∉ ids s → abs (s ++ [m]) = <[movie_id m := data m]> (abs s).
Proof.
  induction s as [|x s IH]; intros Hn; [done|].
  simpl. rewrite abs_cons, IH by set_solver.
  apply insert_insert_ne. set_solver.
Qed.

(** [movies[i] = m'] for a record with the same id. *)
Lemma abs_insert (s : store) i m m' :
  NoDup (ids s) → s !! i = Some m → movie_id m' = movie_id m →
  abs (<[i := m']> s) = <[movie_id m := data m']> (abs s).
Proof.
  revert i. induction s as [|x s IH]; intros [|i] Hnd Hi Hid; simplify_eq/=.
  - rewrite !abs_cons, Hid. by rewrite insert_insert_eq.
  - apply NoDup_cons in Hnd as [Hx Hnd].
    rewrite !abs_cons, (IH i) by done. apply insert_insert_ne.
    intros E. apply Hx. rewrite E. by eapply ids_lookup.
Qed.

(** [movies.splice(i, 1)]. *)
Lemma abs_delete (s : store) i m :
  NoDup (ids s) → s !! i = Some m → abs (delete i s) = delete (movie_id m) (abs s).
Proof.
  revert i. induction s as [|x s IH]; intros [|i] Hnd Hi; simplify_eq/=;
    apply NoDup_cons in Hnd as [Hx Hnd].
  - rewrite abs_cons, delete_insert_eq, delete_id; [done|]. by apply abs_lookup_None.
  - rewrite !abs_cons, (IH i) by done. rewrite delete_insert_ne; [done|].
    intros E. apply Hx. rewrite <- E. by eapply ids_lookup.
Qed.

(** ** Refinement *)

Section Refinement.
Context `{V : Validator}.

Lemma get_refines id s : get_movie id s = spec_get id (abs s).
Proof.
  unfold get_movie, spec_get. rewrite abs_lookup.
  destruct (js_find (same_id id) s) as [m|] eqn:E; [|done].
  apply js_find_same_id in E. by destruct m; simplify_eq/=.
Qed.

Lemma post_refines uuid b s :
  uuid ∉ ids s →
  (post_movie uuid b s).1 = (spec_step (OpPost uuid b) (abs s)).1 ∧
  abs (post_movie uuid b s).2 = (spec_step (OpPost uuid b) (abs s)).2.
Proof.
  intros Hn. unfold post_movie; simpl. destruct (validate_full b) as [d|]; [|done].
  simpl. by rewrite (abs_snoc s (mk_movie uuid d)).
Qed.

Lemma patch_refines id b s :
  NoDup (ids s) →
  (patch_movie id b s).1 = (spec_step (OpPatch id b) (abs s)).1 ∧
  abs (patch_movie id b s).2 = (spec_step (OpPatch id b) (abs s)).2.
Proof.
  intros Hnd. simpl. destruct (validate_partial b) as [p|iss] eqn:Hv;
    [|unfold patch_movie; by rewrite Hv].
  destruct (find_index_lookup s id) as [[_ Hn]|(i & m & Hi & Hm & <-)].
  - rewrite (patch_movie_absent _ _ _ p), (proj2 (abs_lookup_None s id)) by done. done.
  - rewrite (patch_movie_found _ _ _ p i m), (abs_lookup_elem s i m) by done.
    simpl. by rewrite (abs_insert s i m).
Qed.

Lemma delete_refines id s :
  NoDup (ids s) →
  (delete_movie id s).1 = (spec_step (OpDelete id) (abs s)).1 ∧
  abs (delete_movie id s).2 = (spec_step (OpDelete id) (abs s)).2.
Proof.
  intros Hnd. simpl.
  destruct (find_index_lookup s id) as [[_ Hn]|(i & m & Hi & Hm & <-)].
  - rewrite delete_movie_absent, (proj2 (abs_lookup_None s id)) by done. done.
  - rewrite (delete_movie_found _ _ i m), (abs_lookup_elem s i m) by done.
    simpl. by rewrite (abs_delete s i m).
Qed.

(** Each handler answers as the map operation does and leaves the map the
    operation leaves, given distinct ids and, for a POST, a new id. *)
Lemma impl_step_refines o s :
  NoDup (ids s) → op_fresh o (abs s) →
  (impl_step o s).1 = (spec_step o ⟦s⟧).1 ∧ ⟦(impl_step o s).2⟧ = (spec_step o ⟦s⟧).2.
Proof.
  intros Hnd Hf. destruct o; simpl in Hf.
  - split; [apply get_refines|done].
  - apply post_refines. by apply abs_lookup_None.
  - by apply patch_refines.
  - by apply delete_refines.
Qed.

Lemma impl_step_nodup o s :
  NoDup (ids s) → op_fresh o (abs s) → NoDup (ids (impl_step o s).2).
Proof.
  intros Hnd Hf. destruct o; simpl in Hf |- *; [done| | |].
  - apply abs_lookup_None in Hf.
    destruct (post_movie_ids uuid b s) as [->| ->]; [done|].
    apply NoDup_app. split_and!; [done|set_solver|apply NoDup_singleton].
  - destruct (patch_movie_store id b s) as [->|(p & i & m & _ & Hm & ->)]; [done|].
    by rewrite (ids_insert_same _ _ m).
  - destruct (delete_movie_store id s) as [->|(i & m & _ & ->)]; [done|].
    unfold ids. rewrite list_fmap_delete. by apply NoDup_delete_list.
Qed.
End Refinement.

Section Runs.
Context `{V : Validator}.

(** C20: every sequence of GET, POST, PATCH and DELETE requests by id, run
    by the handlers of [src/app.js] on a store with distinct ids, gives the
    responses the finite-map specification gives, and leaves the store
    representing the map the specification leaves, as long as each POST
    draws an id not in use. *)
Theorem impl_run_refines os s :
  NoDup (ids s) → run_fresh os ⟦s⟧ →
  spec_run os ⟦s⟧ = ((impl_run os s).1, ⟦(impl_run os s).2⟧).
Proof.
  revert s. induction os as [|o os IH]; intros s Hnd Hf; [done|].
  destruct Hf as [Ho Hf]. simpl.
  pose proof (impl_step_nodup o s Hnd Ho) as Hnd'.
  destruct (impl_step_refines o s Hnd Ho) as [Hr Hs].
  destruct (impl_step o s) as [r s'], (spec_step o (abs s)) as [r' M']. simplify_eq/=.
  rewrite (IH s') by done. by destruct (impl_run os s').
Qed.
End Runs.

Definition sample_ops : list api_op :=
  [OpPost "a" dune_body; OpGet "a"; OpPatch "a" (JObj [("rate", JNum (inject_Z 9))]);
   OpDelete "a"; OpGet "a"].

Lemma impl_run_refines_witness :
  spec_run sample_ops (abs []) = ((impl_run sample_ops []).1, abs (impl_run sample_ops []).2).
Proof. apply impl_run_refines; [constructor|vm_compute; repeat constructor]. Defined.

Example sample_run_statuses :
  status <$> (impl_run sample_ops []).1 = [201; 200; 200; 200; 404]%Z.
Proof. vm_compute. reflexivity. Qed.
