(* ===== verification/Uuid.v ===== *)
(** * [crypto.randomUUID()]: version-4 UUIDs from 16 random bytes

    The POST handler of [src/app.js] takes the new record's id from Node's
    [crypto.randomUUID()].  Node draws 16 random bytes and serialises them
    ([serializeUUID] in lib/internal/crypto/random.js): byte 6 gets the
    version nibble 4 ([(b & 0x0f) | 0x40]), byte 8 the variant bits 10
    ([(b & 0x3f) | 0x80]), and every byte is written as two lowercase hex
    digits, with dashes after bytes 3, 5, 7 and 9.  Bytes are [Z]s in
    [0, 256), the bit operations [Z.land], [Z.lor] and [Z.shiftr] as in the
    source.  This file proves the RFC 4122 shape of the result and that the
    string determines the 122 random bits: [parse_uuid] reads the bytes back.
    The bytes come from [getBufferedUUID]'s cache of 128 slices of 16
    bytes ([get_buffered_uuid]); a batch of 128 calls reads disjoint
    slices of one refill and every call is [randomUUID] of 16 bytes. *)

From S2P Require Import Prelude.
Close Scope Q_scope.
#[local] Set Warnings "-clear-no-such-hyp".

Module Uuid.

Definition is_byte (b : Z) : Prop := (0 ≤ b < 256)%Z.

(** The lowercase hex digit of a nibble. *)
Definition hex_digit (n : Z) : Ascii.ascii :=
  if (n <? 10)%Z then Ascii.ascii_of_N (Z.to_N (48 + n)) else Ascii.ascii_of_N (Z.to_N (87 + n)).

(** [kHexBytes[b]]: the two hex digits of a byte. *)
Definition hex_byte (b : Z) : list Ascii.ascii :=
  [hex_digit (Z.shiftr b 4); hex_digit (Z.land b 15)].

Definition version_byte (b : Z) : Z := Z.lor (Z.land b 0x0f) 0x40.
Definition variant_byte (b : Z) : Z := Z.lor (Z.land b 0x3f) 0x80.

(** The 16 bytes as serialised: version and variant bits set. *)
Definition uuid_bytes (buf : list Z) : list Z :=
  imap (λ i b, if i =? 6 then version_byte b else if i =? 8 then variant_byte b else b) buf.

Definition dash : list Ascii.ascii := ["-"%char].

(** [serializeUUID(buf)]. *)
Definition serialize_uuid (buf : list Z) : string :=
  let h i := hex_byte (nth i (uuid_bytes buf) 0%Z) in
  String.string_of_list_ascii
    (h 0 ++ h 1 ++ h 2 ++ h 3 ++ dash ++ h 4 ++ h 5 ++ dash ++ h 6 ++ h 7 ++ dash ++
     h 8 ++ h 9 ++ dash ++ h 10 ++ h 11 ++ h 12 ++ h 13 ++ h 14 ++ h 15).

(** [crypto.randomUUID()] on the 16 bytes its entropy source returns. *)
Definition random_uuid (rnd : list Z) : string := serialize_uuid rnd.

(** ** The RFC 4122 version-4 text form *)

Definition is_hex_char (c : Ascii.ascii) : bool :=
  bool_decide (c ∈ String.list_ascii_of_string "0123456789abcdef").

Definition is_variant_char (c : Ascii.ascii) : bool := bool_decide (c ∈ ["8"; "9"; "a"; "b"]%char).

(** The character expected at position [i] of
    [xxxxxxxx-xxxx-4xxx-Nxxx-xxxxxxxxxxxx], [N] one of [8 9 a b]. *)
Definition char_ok (i : nat) (c : Ascii.ascii) : bool :=
  if (i =? 8) || (i =? 13) || (i =? 18) || (i =? 23) then Ascii.eqb c "-"
  else if i =? 14 then Ascii.eqb c "4"
  else if i =? 19 then is_variant_char c
  else is_hex_char c.

Fixpoint format_from (i : nat) (l : list Ascii.ascii) : bool :=
  match l with
  | [] => i =? 36
  | c :: r => char_ok i c && format_from (S i) r
  end.

(** The RFC 4122 text form of a version-4 UUID, 36 characters. *)
Definition uuid_v4_format (s : string) : bool := format_from 0 (String.list_ascii_of_string s).

(** ** Reading a UUID back *)

Definition hex_value (c : Ascii.ascii) : option Z :=
  let n := Z.of_N (Ascii.N_of_ascii c) in
  if ((48 <=? n) && (n <=? 57))%Z then Some (n - 48)%Z
  else if ((97 <=? n) && (n <=? 102))%Z then Some (n - 87)%Z
  else None.

Fixpoint hex_pairs (l : list Ascii.ascii) : option (list Z) :=
  match l with
  | [] => Some []
  | hi :: lo :: r =>
      h ← hex_value hi; l' ← hex_value lo; rest ← hex_pairs r;
      Some ((16 * h + l')%Z :: rest)
  | [_] => None
  end.

(** The bytes of a UUID's text, dashes skipped. *)
Definition parse_uuid (s : string) : option (list Z) :=
  hex_pairs (filter (λ c, c ≠ "-"%char) (String.list_ascii_of_string s)).

(** ** Facts about single bytes, checked on all 256 of them *)

Lemma all_bytes (P : Z → bool) :
  forallb P (Z.of_nat <$> seq 0 256) = true → ∀ b, is_byte b → P b = true.
Proof. intros H b Hb. by apply (forallb_below 256). Qed.

Ltac by_all_bytes := apply all_bytes; vm_compute; reflexivity.

Lemma version_byte_byte b : is_byte b → bool_decide (is_byte (version_byte b)) = true.
Proof. revert b. by_all_bytes. Qed.

Lemma variant_byte_byte b : is_byte b → bool_decide (is_byte (variant_byte b)) = true.
Proof. revert b. by_all_bytes. Qed.

(** Both hex digits of a byte are hex characters, and they read back as the
    byte. *)
Lemma hex_byte_ok b :
  is_byte b →
  (forallb is_hex_char (hex_byte b) &&
   bool_decide (hex_pairs (hex_byte b) = Some [b]) &&
   bool_decide (filter (λ c, c ≠ "-"%char) (hex_byte b) = hex_byte b)) = true.
Proof. revert b. by_all_bytes. Qed.

Lemma hex_hi b : is_byte b → is_hex_char (hex_digit (Z.shiftr b 4)) = true.
Proof. revert b. by_all_bytes. Qed.

Lemma hex_lo b : is_byte b → is_hex_char (hex_digit (Z.land b 15)) = true.
Proof. revert b. by_all_bytes. Qed.

(** The version nibble is 4; the variant nibble is one of 8, 9, a, b. *)
Lemma version_char b : is_byte b → Ascii.eqb (hex_digit (Z.shiftr (version_byte b) 4)) "4" = true.
Proof. revert b. by_all_bytes. Qed.

Lemma variant_char b : is_byte b → is_variant_char (hex_digit (Z.shiftr (variant_byte b) 4)) = true.
Proof. revert b. by_all_bytes. Qed.

Lemma version_lo b : is_byte b → is_hex_char (hex_digit (Z.land (version_byte b) 15)) = true.
Proof. revert b. by_all_bytes. Qed.

Lemma variant_lo b : is_byte b → is_hex_char (hex_digit (Z.land (variant_byte b) 15)) = true.
Proof. revert b. by_all_bytes. Qed.

(** ** Round trip *)

Lemma nth_byte (l : list Z) i : Forall is_byte l → is_byte (nth i l 0%Z).
Proof.
  intros H. destruct (decide (i < length l)) as [Hi|Hi].
  - rewrite Forall_forall in H. apply H, list_elem_of_In, nth_In. done.
  - rewrite nth_overflow by lia. unfold is_byte. lia.
Qed.

Lemma filter_hex_byte b : is_byte b → filter (λ c, c ≠ "-"%char) (hex_byte b) = hex_byte b.
Proof.
  intros Hb. pose proof (hex_byte_ok b Hb) as H.
  rewrite !andb_true_iff in H. destruct H as [_ H]. by apply bool_decide_eq_true in H.
Qed.

Lemma hex_pairs_app b r :
  is_byte b → hex_pairs (hex_byte b ++ r) = (λ rest, b :: rest) <$> hex_pairs r.
Proof.
  intros Hb. pose proof (hex_byte_ok b Hb) as H.
  rewrite !andb_true_iff in H. destruct H as [[_ H%bool_decide_eq_true] _].
  revert H. unfold hex_byte. simpl.
  destruct (hex_value _), (hex_value _); simpl; try done.
  intros [= <-]. by destruct (hex_pairs r).
Qed.

Lemma uuid_bytes_ok rnd : Forall is_byte rnd → Forall is_byte (uuid_bytes rnd).
Proof.
  unfold uuid_bytes. intros H. apply Forall_lookup. intros i x.
  rewrite list_lookup_imap. destruct (rnd !! i) as [b|] eqn:E; [|done]. intros [= <-].
  pose proof (Forall_lookup_1 _ _ _ _ H E) as Hb.
  destruct (i =? 6); [exact (bool_decide_eq_true_1 _ (version_byte_byte b Hb))|].
  destruct (i =? 8); [exact (bool_decide_eq_true_1 _ (variant_byte_byte b Hb))|done].
Qed.

Lemma list16 (l : list Z) :
  length l = 16 →
  l = [nth 0 l 0; nth 1 l 0; nth 2 l 0; nth 3 l 0; nth 4 l 0; nth 5 l 0; nth 6 l 0; nth 7 l 0;
       nth 8 l 0; nth 9 l 0; nth 10 l 0; nth 11 l 0; nth 12 l 0; nth 13 l 0; nth 14 l 0;
       nth 15 l 0]%Z.
Proof.
  intros H. do 16 (destruct l as [|? l]; [simpl in H; lia|]).
  destruct l; [done|simpl in H; lia].
Qed.

(** The serialised text of any 16 bytes reads back as the bytes with the
    version and variant bits set. *)
Lemma parse_serialize_uuid buf :
  length buf = 16 → Forall is_byte buf → parse_uuid (serialize_uuid buf) = Some (uuid_bytes buf).
Proof.
  intros Hlen Hb. pose proof (uuid_bytes_ok buf Hb) as Hub.
  assert (Hl : length (uuid_bytes buf) = 16) by (unfold uuid_bytes; by rewrite length_imap).
  unfold parse_uuid, serialize_uuid.
  rewrite String.list_ascii_of_string_of_list_ascii.
  rewrite !filter_app, !filter_hex_byte by (by apply nth_byte). simpl filter.
  rewrite !app_nil_l, !hex_pairs_app by (by apply nth_byte).
  rewrite <- (app_nil_r (hex_byte (nth 15 _ _))), hex_pairs_app by (by apply nth_byte).
  simpl. f_equal. symmetry. by apply list16.
Qed.

(** Two ids [crypto.randomUUID()] generates are equal exactly when
    their 16 bytes agree once the version and variant bits are set, that is
    when the 122 random bits agree: a collision of ids is a collision of
    those bits. *)
Theorem random_uuid_inj r1 r2 :
  length r1 = 16 → Forall is_byte r1 → length r2 = 16 → Forall is_byte r2 →
  random_uuid r1 = random_uuid r2 ↔ uuid_bytes r1 = uuid_bytes r2.
Proof.
  intros H1 B1 H2 B2. split.
  - intros E. apply (f_equal parse_uuid) in E.
    unfold random_uuid in E. rewrite !parse_serialize_uuid in E by done. congruence.
  - intros E. unfold random_uuid, serialize_uuid. by rewrite E.
Qed.

(** [crypto.randomUUID()] returns the 36-character text form of a
    version-4 UUID: dashes at 8, 13, 18, 23, the version digit 4, a variant
    digit among 8, 9, a, b, lowercase hex elsewhere. *)
Theorem random_uuid_format rnd :
  length rnd = 16 → Forall is_byte rnd → uuid_v4_format (random_uuid rnd) = true.
Proof.
  intros Hlen Hb. rewrite (list16 rnd Hlen) in Hb |- *.
  repeat (apply Forall_cons in Hb as [? Hb]).
  unfold uuid_v4_format, random_uuid, serialize_uuid.
  rewrite String.list_ascii_of_string_of_list_ascii.
  cbn -[hex_digit version_byte variant_byte Ascii.eqb is_hex_char is_variant_char Z.shiftr Z.land].
  rewrite ?version_char, ?variant_char, ?version_lo, ?variant_lo, ?hex_hi, ?hex_lo by done.
  reflexivity.
Qed.

(** The id [crypto.randomUUID()] returns on sample bytes reads back as the
    bytes with the version nibble 4 and the variant bits 10 set. *)
Example parse_random_uuid_sample :
  parse_uuid (random_uuid [0; 1; 2; 3; 4; 5; 255; 7; 255; 9; 10; 11; 12; 13; 14; 255]%Z)
  = Some [0; 1; 2; 3; 4; 5; 0x4f; 7; 0xbf; 9; 10; 11; 12; 13; 14; 255]%Z.
Proof.
  apply (parse_serialize_uuid [0; 1; 2; 3; 4; 5; 255; 7; 255; 9; 10; 11; 12; 13; 14; 255]%Z);
    [reflexivity|repeat constructor; unfold is_byte; lia].
Qed.

Lemma random_uuid_inj_witness :
  random_uuid [0; 1; 2; 3; 4; 5; 0x46; 7; 0x88; 9; 10; 11; 12; 13; 14; 15]%Z =
    random_uuid [0; 1; 2; 3; 4; 5; 0xf6; 7; 0x48; 9; 10; 11; 12; 13; 14; 15]%Z ↔
  uuid_bytes [0; 1; 2; 3; 4; 5; 0x46; 7; 0x88; 9; 10; 11; 12; 13; 14; 15]%Z =
    uuid_bytes [0; 1; 2; 3; 4; 5; 0xf6; 7; 0x48; 9; 10; 11; 12; 13; 14; 15]%Z.
Proof.
  apply random_uuid_inj; try reflexivity; repeat constructor; unfold is_byte; lia.
Defined.

(** ** The entropy cache of [getBufferedUUID]

    [crypto.randomUUID()] without options takes its bytes from a buffer of
    [16 * kBatchSize] bytes ([kBatchSize] is 128), refilled by
    [randomFillSync] when [uuidBatch] is 0; each call first advances
    [uuidBatch] modulo 128, then serialises the 16 bytes at
    [uuidBatch * 16].  The first id after a refill thus reads offset 16,
    and the 128th offset 0, after which the next call refills.  [fill] is
    what [randomFillSync] writes, read only when the call refills. *)

Definition kBatchSize : nat := 128.

Record uuid_cache : Type := mk_uuid_cache {
  uuid_data : list Z;
  uuid_batch : nat
}.

(** Before the first call: no buffer yet, batch 0. *)
Definition initial_cache : uuid_cache := mk_uuid_cache [] 0.

(** The 16 bytes at [offset], as [serializeUUID(buf, offset)] reads them. *)
Definition slice (buf : list Z) (offset : nat) : list Z := take 16 (drop offset buf).

(** [getBufferedUUID()]. *)
Definition get_buffered_uuid (fill : list Z) (c : uuid_cache) : string * uuid_cache :=
  let data := if uuid_batch c =? 0 then fill else uuid_data c in
  let batch := (uuid_batch c + 1) mod kBatchSize in
  (serialize_uuid (slice data (batch * 16)), mk_uuid_cache data batch).

(** [n] calls in a row, each refill writing [fill]. *)
Fixpoint uuid_run (fill : list Z) (c : uuid_cache) (n : nat) : list string * uuid_cache :=
  match n with
  | O => ([], c)
  | S n' =>
      let '(u, c') := get_buffered_uuid fill c in
      let '(us, c'') := uuid_run fill c' n' in
      (u :: us, c'')
  end.

(** What [randomFillSync] writes into the buffer: 2048 bytes. *)
Definition fill_ok (fill : list Z) : Prop := length fill = 16 * kBatchSize ∧ Forall is_byte fill.

(** The cache between calls: the batch below 128, and a full buffer of
    bytes unless the next call refills it. *)
Definition cache_ok (c : uuid_cache) : Prop :=
  uuid_batch c < kBatchSize ∧ (uuid_batch c = 0 ∨ fill_ok (uuid_data c)).

Lemma initial_cache_ok : cache_ok initial_cache.
Proof. split; [unfold kBatchSize; simpl; lia|by left]. Qed.

Lemma slice_ok buf k : fill_ok buf → k < kBatchSize → length (slice buf (k * 16)) = 16 ∧ Forall is_byte (slice buf (k * 16)).
Proof.
  intros [Hl Hb] Hk. unfold slice. split.
  - rewrite length_take, length_drop, Hl. unfold kBatchSize in *. lia.
  - by apply Forall_take, Forall_drop.
Qed.

(** A call keeps the cache well formed, and its id is [randomUUID] of 16
    random bytes: the buffer only decides which bytes.  This is the
    refinement of [App.server_step], which draws 16 bytes per step. *)
Lemma get_buffered_uuid_refines fill c :
  fill_ok fill → cache_ok c →
  cache_ok (get_buffered_uuid fill c).2 ∧
  ∃ rnd, length rnd = 16 ∧ Forall is_byte rnd ∧ (get_buffered_uuid fill c).1 = random_uuid rnd ∧
         rnd = slice (uuid_data (get_buffered_uuid fill c).2) (uuid_batch (get_buffered_uuid fill c).2 * 16).
Proof.
  intros Hf [Hb Hd]. unfold get_buffered_uuid; simpl.
  assert (Hdata : fill_ok (if uuid_batch c =? 0 then fill else uuid_data c)).
  { destruct (Nat.eqb_spec (uuid_batch c) 0); [done|]. by destruct Hd. }
  assert (Hlt : (uuid_batch c + 1) mod kBatchSize < kBatchSize) by (apply Nat.mod_upper_bound; done).
  split; [split; [done|by right]|].
  destruct (slice_ok _ _ Hdata Hlt) as [Hl Hbs].
  eexists. split_and!; [exact Hl|exact Hbs|reflexivity|reflexivity].
Qed.

(** From a call that refills, the 128 calls of a batch read the slices at
    offsets 16, 32, ..., 2032 and then 0. *)
Lemma uuid_run_from fill c b n :
  uuid_data c = fill → uuid_batch c = b → 1 ≤ b < kBatchSize → b + n ≤ kBatchSize →
  uuid_run fill c n =
    ((λ k, serialize_uuid (slice fill (((k + 1) mod kBatchSize) * 16))) <$> seq b n,
     mk_uuid_cache fill ((b + n) mod kBatchSize)).
Proof.
  revert c b. induction n as [|n IH]; intros c b Hd Hb H1 Hn.
  - destruct c as [d b']; cbn [uuid_run uuid_data uuid_batch] in *; subst.
    rewrite Nat.add_0_r, Nat.mod_small by lia. reflexivity.
  - cbn [uuid_run]. unfold get_buffered_uuid at 1.
    rewrite Hb. destruct (Nat.eqb_spec b 0) as [|_]; [lia|]. rewrite Hd.
    cbn [fmap list_fmap seq].
    destruct n as [|n].
    + cbn [uuid_run]. by rewrite Nat.add_1_r.
    + rewrite (Nat.mod_small (b + 1)) by (unfold kBatchSize in *; lia).
      rewrite (IH _ (b + 1)) by (cbn [uuid_batch uuid_data]; first [done | unfold kBatchSize in *; lia]).
      rewrite Nat.add_1_r. cbn [seq fmap list_fmap].
      by replace (S b + S n) with (b + S (S n)) by lia.
Qed.

Lemma uuid_run_S fill c n :
  uuid_run fill c (S n) =
    (let '(u, c') := get_buffered_uuid fill c in
     let '(us, c'') := uuid_run fill c' n in (u :: us, c'')).
Proof. reflexivity. Qed.

(** A call that refills. *)
Lemma get_buffered_uuid_refill fill c :
  uuid_batch c = 0 →
  get_buffered_uuid fill c = (serialize_uuid (slice fill 16), mk_uuid_cache fill 1).
Proof. intros Hb. unfold get_buffered_uuid. by rewrite Hb. Qed.

Lemma uuid_run_batch fill c :
  uuid_batch c = 0 →
  uuid_run fill c kBatchSize =
    ((λ k, serialize_uuid (slice fill (((k + 1) mod kBatchSize) * 16))) <$> seq 0 kBatchSize,
     mk_uuid_cache fill 0).
Proof.
  intros Hb. change (uuid_run fill c kBatchSize) with (uuid_run fill c (S 127)).
  rewrite uuid_run_S, get_buffered_uuid_refill by done.
  rewrite (uuid_run_from fill _ 1 127) by (done || (unfold kBatchSize; lia)).
  reflexivity.
Qed.

(** The offset the [k]-th call after a refill reads, [k] from 0. *)
Definition batch_offset (k : nat) : nat := ((k + 1) mod kBatchSize) * 16.

Lemma batch_offset_lt k : k < kBatchSize → batch_offset k = (if k =? 127 then 0 else k + 1) * 16.
Proof.
  intros Hk. unfold batch_offset. destruct (Nat.eqb_spec k 127) as [->|]; [reflexivity|].
  rewrite Nat.mod_small; unfold kBatchSize in *; lia.
Qed.

Lemma batch_offsets_disjoint i j :
  i < kBatchSize → j < kBatchSize → i ≠ j →
  batch_offset i + 16 ≤ batch_offset j ∨ batch_offset j + 16 ≤ batch_offset i.
Proof.
  intros Hi Hj Hij. rewrite !batch_offset_lt by done.
  destruct (Nat.eqb_spec i 127), (Nat.eqb_spec j 127); lia.
Qed.

Lemma buffered_uuid_batch_run fill c :
  fill_ok fill → uuid_batch c = 0 →
  uuid_run fill c kBatchSize =
    ((λ k, random_uuid (slice fill (batch_offset k))) <$> seq 0 kBatchSize, mk_uuid_cache fill 0) ∧
  (∀ k, k < kBatchSize → length (slice fill (batch_offset k)) = 16 ∧ Forall is_byte (slice fill (batch_offset k))) ∧
  (∀ i j, i < kBatchSize → j < kBatchSize → i ≠ j →
     batch_offset i + 16 ≤ batch_offset j ∨ batch_offset j + 16 ≤ batch_offset i).
Proof.
  intros Hf Hb. split_and!.
  - by rewrite uuid_run_batch.
  - intros k Hk. apply slice_ok; [done|]. apply Nat.mod_upper_bound. done.
  - exact batch_offsets_disjoint.
Qed.

(** C22: [crypto.randomUUID()] draws its ids from a buffer of 128 slices of
    16 bytes: the 128 calls from a refill return [randomUUID] of 16 bytes
    each, read at pairwise disjoint offsets of the filled buffer, so no
    random byte serves two ids, and leave the cache as it started the
    batch (next call refills). *)
Theorem buffered_uuid_batch fill c :
  fill_ok fill → uuid_batch c = 0 →
  uuid_run fill c kBatchSize =
    ((λ k, random_uuid (slice fill (batch_offset k))) <$> seq 0 kBatchSize, mk_uuid_cache fill 0) ∧
  (∀ k, k < kBatchSize → length (slice fill (batch_offset k)) = 16 ∧ Forall is_byte (slice fill (batch_offset k))) ∧
  (∀ i j, i < kBatchSize → j < kBatchSize → i ≠ j →
     batch_offset i + 16 ≤ batch_offset j ∨ batch_offset j + 16 ≤ batch_offset i).
Proof. apply buffered_uuid_batch_run. Qed.

Lemma zero_fill_ok : fill_ok (repeat 0%Z (16 * kBatchSize)).
Proof.
  split; [apply repeat_length|]. apply List.Forall_forall.
  intros x Hx. apply repeat_spec in Hx. subst. unfold is_byte. lia.
Qed.

Lemma buffered_uuid_batch_witness :
  fill_ok (repeat 0%Z (16 * kBatchSize)) ∧ uuid_batch initial_cache = 0 ∧
  (uuid_run (repeat 0%Z (16 * kBatchSize)) initial_cache kBatchSize).2 =
    mk_uuid_cache (repeat 0%Z (16 * kBatchSize)) 0.
Proof.
  split_and!; [exact zero_fill_ok|reflexivity|].
  destruct (buffered_uuid_batch (repeat 0%Z (16 * kBatchSize)) initial_cache zero_fill_ok eq_refl)
    as [-> _]. reflexivity.
Defined.

End Uuid.
