(* ===== verification/Cors.v ===== *)
(** * The CORS origin policy of [src/app.js]

    The [origin] callback given to the [cors] middleware accepts a request
    when its [Origin] header is one of [ACCEPTED_ORIGINS], or when the header
    is falsy: absent ([undefined]) or the empty string.  Any other origin is
    refused with [Error('Not allowed by CORS')], which the [cors] package
    passes to Express's error handler.  On an accepted request the
    package sets its headers ([cors_headers], after [lib/index.js] of
    cors 2.8): the request's origin is reflected in
    [Access-Control-Allow-Origin] only when it is truthy, so a missing or
    empty origin gets no such header. *)

From S2P Require Import Prelude.
Close Scope Q_scope.

Module Cors.

Definition ACCEPTED_ORIGINS : list string :=
  ["http://localhost:3000"; "http://localhost:8080"; "https://localhost:3333"].

Inductive cors_result : Type :=
| Allow
| Refuse (msg : string).

(** The callback, with [origin] the value of [req.headers.origin]. *)
Definition origin_callback (origin : option string) : cors_result :=
  let included := match origin with Some o => js_includes ACCEPTED_ORIGINS o | None => false end in
  let falsy := match origin with Some o => negb (js_truthy_string o) | None => true end in
  if included then Allow
  else if falsy then Allow
  else Refuse "Not allowed by CORS".

Lemma origin_callback_allow_iff origin :
  origin_callback origin = Allow ↔
  origin = None ∨ origin = Some "" ∨ ∃ o, origin = Some o ∧ o ∈ ACCEPTED_ORIGINS.
Proof.
  unfold origin_callback, js_includes.
  destruct origin as [o|]; [|naive_solver].
  case_bool_decide as Hin; [naive_solver|].
  destruct o as [|c o']; simpl; naive_solver.
Qed.

(** C17: a request passes the CORS check exactly when it has no [Origin]
    header, an empty one, or one of the three accepted origins. *)
Theorem origin_callback_allow origin :
  origin_callback origin = Allow ↔
  origin = None ∨ origin = Some "" ∨ ∃ o, origin = Some o ∧ o ∈ ACCEPTED_ORIGINS.
Proof. apply origin_callback_allow_iff. Qed.

(** The refusal carries the callback's message. *)
Lemma origin_callback_refuse origin msg :
  origin_callback origin = Refuse msg → msg = "Not allowed by CORS".
Proof. unfold origin_callback. repeat case_match; congruence. Qed.

(** ** The headers the middleware sets *)

Definition header : Type := string * string.

(** The value of a response header, if set. *)
Fixpoint header_get (k : string) (hs : list header) : option string :=
  match hs with
  | [] => None
  | (k', v) :: r => if String.eqb k k' then Some v else header_get k r
  end.

(** [res.setHeader(k, v)]: a previous value is replaced. *)
Definition set_header (k v : string) (hs : list header) : list header :=
  filter (λ h, negb (String.eqb h.1 k)) hs ++ [(k, v)].

(** [vary(res, field)]: the field is appended to [Vary] (the fields this
    middleware adds are distinct, so the package's deduplication never
    applies). *)
Definition vary (field : string) (hs : list header) : list header :=
  match header_get "Vary" hs with
  | None => set_header "Vary" field hs
  | Some v => set_header "Vary" (v +:+ ", " +:+ field) hs
  end.

(** [applyHeaders]: an entry whose value is falsy ([undefined], [false]
    or the empty string) is skipped; [Vary] goes through [vary]. *)
Fixpoint apply_headers (entries : list (string * option string)) (hs : list header) : list header :=
  match entries with
  | [] => hs
  | (k, Some v) :: r =>
      if js_truthy_string v then
        apply_headers r (if String.eqb k "Vary" then vary v hs else set_header k v hs)
      else apply_headers r hs
  | (_, None) :: r => apply_headers r hs
  end.

(** [configureOrigin] once the callback has answered [true]: the request's
    origin is reflected, and [Vary: Origin] added. *)
Definition configure_origin (origin : option string) : list (string * option string) :=
  [("Access-Control-Allow-Origin", origin); ("Vary", Some "Origin")].

(** The default methods, and the request's
    [Access-Control-Request-Headers] reflected ([configureMethods],
    [configureAllowedHeaders]). *)
Definition configure_preflight (request_headers : option string) : list (string * option string) :=
  [("Access-Control-Allow-Methods", Some "GET,HEAD,PUT,PATCH,POST,DELETE");
   ("Vary", Some "Access-Control-Request-Headers");
   ("Access-Control-Allow-Headers", request_headers)].

(** The headers [cors] sets on a request its callback allowed: on a
    preflight ([OPTIONS]), those of [configure_preflight] and
    [Content-Length: 0] as well. *)
Definition cors_headers (preflight : bool) (origin request_headers : option string) : list header :=
  if preflight then
    set_header "Content-Length" "0"
      (apply_headers (configure_origin origin ++ configure_preflight request_headers) [])
  else apply_headers (configure_origin origin) [].

(** The CORS headers of the answer: none when the callback refuses (the
    error goes to Express's handler before any header is set).  The
    header list starts empty: [app.disable('x-powered-by')] removes the
    one Express would set. *)
Definition response_headers (preflight : bool) (origin request_headers : option string) : list header :=
  match origin_callback origin with
  | Allow => cors_headers preflight origin request_headers
  | Refuse _ => []
  end.

(** Cross-origin reads are granted to the allow-list only: an answer
    carries [Access-Control-Allow-Origin: o] exactly when the request's
    origin is [o] and [o] is one of the accepted origins.  A request with
    an empty [Origin] passes the callback but gets no such header. *)
Lemma response_headers_allow_origin preflight origin request_headers o :
  header_get "Access-Control-Allow-Origin" (response_headers preflight origin request_headers) = Some o ↔
  origin = Some o ∧ o ∈ ACCEPTED_ORIGINS.
Proof.
  unfold response_headers.
  destruct (origin_callback origin) as [|msg] eqn:E.
  - apply origin_callback_allow_iff in E as [-> | [-> | (o' & -> & Hin)]].
    + split; [|by intros [? _]].
      destruct preflight, request_headers as [[|c v]|]; vm_compute; done.
    + split; [|intros [[= <-] Hin]; by apply list_elem_of_In in Hin as [?|[?|[?|[]]]]].
      destruct preflight, request_headers as [[|c v]|]; vm_compute; done.
    + apply list_elem_of_In in Hin as Hin'. simpl in Hin'.
      destruct Hin' as [<-|[<-|[<-|[]]]];
        destruct preflight, request_headers as [[|c v]|];
        (split; [vm_compute; intros [= <-]; split; [done|set_solver]|intros [[= <-] _]; vm_compute; reflexivity]).
  - split; [done|]. intros [-> Hin].
    assert (origin_callback (Some o) = Allow) as E' by (apply origin_callback_allow_iff; eauto).
    congruence.
Qed.

(** A preflight from an accepted origin: the origin reflected, the
    default methods, the requested headers reflected, an empty body. *)
Example preflight_headers :
  response_headers true (Some "http://localhost:3000") (Some "content-type") =
  [("Access-Control-Allow-Origin", "http://localhost:3000");
   ("Access-Control-Allow-Methods", "GET,HEAD,PUT,PATCH,POST,DELETE");
   ("Vary", "Origin, Access-Control-Request-Headers");
   ("Access-Control-Allow-Headers", "content-type"); ("Content-Length", "0")].
Proof. reflexivity. Qed.

End Cors.
