(* ===== verification/JsonText.v ===== *)
(** * JSON text: [JSON.parse] and [JSON.stringify]

    [express.json()] reads the request body as text and calls [JSON.parse]
    on it; [res.json(x)] sends [JSON.stringify(x)].  This file models both
    on 8-bit text ([list Ascii.ascii]) and the value tree [jval]:
    - [json_parse]: the JSON grammar (RFC 8259 / ECMA-404) as [JSON.parse]
      accepts it: whitespace (space, tab, line feed, carriage return)
      around tokens, the literals, numbers with an optional minus sign, an
      integer part without leading zeros, an optional fraction and
      exponent (read as the exact rational they denote, reduced), strings
      with their escapes, arrays and objects (a repeated key is kept; the
      lookup [obj_get] reads the last one).  Parsing runs with fuel: one
      unit per nested value or member, so the text's length is enough
      ([json_parse] gives it [length + 1]).
    - [stringify_gap]: [JSON.stringify] with the indentation unit [gap] its
      [space] argument gives: strings escaped as [QuoteJSONString] does,
      numbers in plain decimal notation with the fewest fraction digits,
      elements separated by commas and, with a gap, each on its own line;
      [json_stringify] has no gap, [json_stringify_space n] a gap of [n]
      spaces.
    The round trip [json_parse (stringify_gap gap [] v) = Some v] holds for
    every whitespace gap and every value whose numbers are reduced
    terminating decimals, which every value [JSON.parse] returns is.  Outside the model: [\u] escapes above
    [U+00FF] (the model's strings are 8-bit; they are rejected), numbers
    beyond the range of doubles ([JSON.parse] rounds them, the model keeps
    them exact), and the exponent notation [JSON.stringify] uses below
    [1e-6] and from [1e21] on. *)

From Stdlib Require Import Qreduction Znumtheory.
From S2P Require Import Prelude JsValue.
Close Scope Q_scope.
#[local] Set Warnings "-clear-no-such-hyp".

(** ** Induction on values *)

Section JvalInd.
Variable P : jval → Prop.
Hypothesis Hnull : P JNull.
Hypothesis Hbool : ∀ b, P (JBool b).
Hypothesis Hnum : ∀ q, P (JNum q).
Hypothesis Hstr : ∀ s, P (JStr s).
Hypothesis Harr : ∀ xs, Forall P xs → P (JArr xs).
Hypothesis Hobj : ∀ kvs, Forall (λ kv, P kv.2) kvs → P (JObj kvs).

(** The induction principle of [jval] with its nested lists. *)
Fixpoint jval_ind' (v : jval) : P v :=
  match v with
  | JNull => Hnull
  | JBool b => Hbool b
  | JNum q => Hnum q
  | JStr s => Hstr s
  | JArr xs => Harr xs ((fix go (l : list jval) : Forall P l :=
                         match l with
                         | [] => Forall_nil_2 _
                         | x :: r => Forall_cons_2 _ _ _ (jval_ind' x) (go r)
                         end) xs)
  | JObj kvs => Hobj kvs ((fix go (l : list (string * jval)) : Forall (λ kv, P kv.2) l :=
                         match l with
                         | [] => Forall_nil_2 _
                         | kv :: r => Forall_cons_2 _ _ _ (jval_ind' kv.2) (go r)
                         end) kvs)
  end.
End JvalInd.

(** ** Characters *)

Definition code (c : Ascii.ascii) : N := Ascii.N_of_ascii c.

Definition is_ws (c : Ascii.ascii) : bool :=
  (code c =? 32)%N || (code c =? 9)%N || (code c =? 10)%N || (code c =? 13)%N.

Fixpoint skip_ws (l : list Ascii.ascii) : list Ascii.ascii :=
  match l with
  | c :: r => if is_ws c then skip_ws r else l
  | [] => []
  end.

Definition digit (c : Ascii.ascii) : option N :=
  if (48 <=? code c)%N && (code c <=? 57)%N then Some (code c - 48)%N else None.

Definition digit_char (d : N) : Ascii.ascii := Ascii.ascii_of_N (48 + d).

(** The longest run of digits at the front, and what follows. *)
Fixpoint span_digits (l : list Ascii.ascii) : list N * list Ascii.ascii :=
  match l with
  | c :: r =>
      match digit c with
      | Some d => let '(ds, t) := span_digits r in (d :: ds, t)
      | None => ([], l)
      end
  | [] => ([], [])
  end.

Definition digits_value (ds : list N) : N := foldl (λ acc d, 10 * acc + d)%N 0%N ds.

(** ** Decimal digits of a natural number *)

(** Most significant digit first; [fuel] bounds the number of digits. *)
Fixpoint digits_fuel (fuel : nat) (n : N) : list N :=
  match fuel with
  | O => []
  | S f => if (n <? 10)%N then [n] else digits_fuel f (n / 10)%N ++ [(n mod 10)%N]
  end.

(** A number has at most as many decimal digits as binary ones. *)
Definition digits_N (n : N) : list N := digits_fuel (S (N.to_nat (N.log2 n))) n.

(** Exactly [k] digits, with leading zeros. *)
Fixpoint fixed_digits (k : nat) (x : N) : list N :=
  match k with
  | O => []
  | S k' => fixed_digits k' (x / 10)%N ++ [(x mod 10)%N]
  end.

(** ** Numbers *)

(** The rational a number token denotes: sign, integer and fraction
    digits, exponent; reduced, so that equal numbers are equal terms. *)
Definition number_value (neg : bool) (ids fds : list N) (eneg : bool) (eds : list N) : Q :=
  let m := Z.of_N (digits_value (ids ++ fds)) in
  let m := if neg then (- m)%Z else m in
  let e := ((if eneg then - Z.of_N (digits_value eds) else Z.of_N (digits_value eds))
            - Z.of_nat (length fds))%Z in
  Qred (Qmake (m * 10 ^ Z.max 0 e) (Z.to_pos (10 ^ Z.max 0 (- e)))).

(** [. digits], if present: at least one digit. *)
Definition lex_fraction (l : list Ascii.ascii) : option (list N * list Ascii.ascii) :=
  match l with
  | c :: r =>
      if Ascii.eqb c "." then
        let '(fds, t) := span_digits r in
        match fds with [] => None | _ => Some (fds, t) end
      else Some ([], l)
  | [] => Some ([], [])
  end.

(** [e] or [E], an optional sign, at least one digit; if present. *)
Definition lex_exponent (l : list Ascii.ascii) : option (bool * list N * list Ascii.ascii) :=
  match l with
  | c :: r =>
      if Ascii.eqb c "e" || Ascii.eqb c "E" then
        let '(eneg, r') :=
          match r with
          | s :: r'' => if Ascii.eqb s "+" then (false, r'') else if Ascii.eqb s "-" then (true, r'')
                        else (false, r)
          | [] => (false, [])
          end in
        let '(eds, t) := span_digits r' in
        match eds with [] => None | _ => Some (eneg, eds, t) end
      else Some (false, [], l)
  | [] => Some (false, [], [])
  end.

(** A number token: [-]? (0 | [1-9][0-9]* ) fraction? exponent?. *)
Definition parse_number (l : list Ascii.ascii) : option (Q * list Ascii.ascii) :=
  let '(neg, l1) := match l with
                    | c :: r => if Ascii.eqb c "-" then (true, r) else (false, l)
                    | [] => (false, [])
                    end in
  let '(ids, l2) := span_digits l1 in
  match ids with
  | [] => None
  | N0 :: _ :: _ => None
  | _ =>
      '(fds, l3) ← lex_fraction l2;
      '(eneg, eds, l4) ← lex_exponent l3;
      Some (number_value neg ids fds eneg eds, l4)
  end.

(** The least [k] such that [d] divides [10 ^ k], searched from [k]. *)
Fixpoint find_scale (fuel k : nat) (d : Z) : option nat :=
  match fuel with
  | O => None
  | S f => if ((10 ^ Z.of_nat k) mod d =? 0)%Z then Some k else find_scale f (S k) d
  end.

(** The number of fraction digits of a terminating decimal: a denominator
    [2 ^ a * 5 ^ b] needs [max a b], at most its binary logarithm. *)
Definition decimal_scale (q : Q) : option nat :=
  find_scale (S (Z.to_nat (Z.log2 (Zpos (Qden q))))) 0 (Zpos (Qden q)).

Definition digit_chars (ds : list N) : list Ascii.ascii := digit_char <$> ds.

(** [Number::toString] on a terminating decimal, in plain notation; a
    value that is not one prints as [null], as [JSON.stringify] prints
    non-finite numbers. *)
Definition print_number (q : Q) : list Ascii.ascii :=
  match decimal_scale q with
  | None => ["n"; "u"; "l"; "l"]%char
  | Some k =>
      let m := (Qnum q * (10 ^ Z.of_nat k / Zpos (Qden q)))%Z in
      let a := Z.to_N (Z.abs m) in
      (if (m <? 0)%Z then ["-"%char] else []) ++ digit_chars (digits_N (a / 10 ^ N.of_nat k)) ++
      match k with
      | O => []
      | S _ => "."%char :: digit_chars (fixed_digits k (a mod 10 ^ N.of_nat k))
      end
  end.

(** What may follow a number token for it to end there: not a digit, a
    point or an exponent mark.  Inside JSON text a number is followed by
    a comma, a closing bracket or brace, or the end of the text. *)
Definition number_end (l : list Ascii.ascii) : bool :=
  match l with
  | [] => true
  | c :: _ => bool_decide (digit c = None) && negb (Ascii.eqb c ".") &&
              negb (Ascii.eqb c "e") && negb (Ascii.eqb c "E")
  end.

(** ** Strings *)

Definition hex_value (c : Ascii.ascii) : option N :=
  let n := code c in
  if (48 <=? n)%N && (n <=? 57)%N then Some (n - 48)%N
  else if (97 <=? n)%N && (n <=? 102)%N then Some (n - 87)%N
  else if (65 <=? n)%N && (n <=? 70)%N then Some (n - 55)%N
  else None.

Definition hex_char (n : N) : Ascii.ascii :=
  if (n <? 10)%N then Ascii.ascii_of_N (48 + n) else Ascii.ascii_of_N (87 + n).

(** The character of a one-letter escape: a backslash followed by a
    quote, a backslash, a slash or one of [b f n r t]. *)
Definition simple_escape (e : Ascii.ascii) : option Ascii.ascii :=
  match code e with
  | 34%N => Some e | 92%N => Some e | 47%N => Some e
  | 98%N => Some (Ascii.ascii_of_N 8) | 102%N => Some (Ascii.ascii_of_N 12)
  | 110%N => Some (Ascii.ascii_of_N 10) | 114%N => Some (Ascii.ascii_of_N 13)
  | 116%N => Some (Ascii.ascii_of_N 9)
  | _ => None
  end.

(** A [\uXXXX] escape, for the code points the 8-bit model can hold. *)
Definition unicode_escape (h1 h2 h3 h4 : Ascii.ascii) : option Ascii.ascii :=
  d1 ← hex_value h1; d2 ← hex_value h2; d3 ← hex_value h3; d4 ← hex_value h4;
  let n := (((d1 * 16 + d2) * 16 + d3) * 16 + d4)%N in
  if (n <? 256)%N then Some (Ascii.ascii_of_N n) else None.

(** The body of a string token after its opening quote, up to and
    including the closing quote: escapes decoded, raw control characters
    refused. *)
Fixpoint parse_string_body (l : list Ascii.ascii) : option (list Ascii.ascii * list Ascii.ascii) :=
  match l with
  | [] => None
  | c :: r =>
      if (code c =? 34)%N then Some ([], r)
      else if (code c =? 92)%N then
        match r with
        | e :: r' =>
            if (code e =? 117)%N then
              match r' with
              | h1 :: h2 :: h3 :: h4 :: r'' =>
                  ch ← unicode_escape h1 h2 h3 h4;
                  '(s, t) ← parse_string_body r''; Some (ch :: s, t)
              | _ => None
              end
            else
              ch ← simple_escape e;
              '(s, t) ← parse_string_body r'; Some (ch :: s, t)
        | [] => None
        end
      else if (code c <? 32)%N then None
      else '(s, t) ← parse_string_body r; Some (c :: s, t)
  end.

Definition backslash : Ascii.ascii := Ascii.ascii_of_N 92.
Definition dquote : Ascii.ascii := Ascii.ascii_of_N 34.

(** [QuoteJSONString] on one character. *)
Definition escape_char (c : Ascii.ascii) : list Ascii.ascii :=
  let n := code c in
  if (n =? 34)%N then [backslash; dquote]
  else if (n =? 92)%N then [backslash; backslash]
  else if (n =? 8)%N then [backslash; "b"%char]
  else if (n =? 12)%N then [backslash; "f"%char]
  else if (n =? 10)%N then [backslash; "n"%char]
  else if (n =? 13)%N then [backslash; "r"%char]
  else if (n =? 9)%N then [backslash; "t"%char]
  else if (n <? 32)%N then [backslash; "u"; "0"; "0"; hex_char (n / 16); hex_char (n mod 16)]%char
  else [c].

Definition print_string (s : string) : list Ascii.ascii :=
  dquote :: (String.list_ascii_of_string s ≫= escape_char) ++ [dquote].

(** ** Values *)

Definition lbrace : Ascii.ascii := Ascii.ascii_of_N 123.
Definition rbrace : Ascii.ascii := Ascii.ascii_of_N 125.
Definition lbrack : Ascii.ascii := Ascii.ascii_of_N 91.
Definition rbrack : Ascii.ascii := Ascii.ascii_of_N 93.
Definition comma : Ascii.ascii := Ascii.ascii_of_N 44.
Definition colon : Ascii.ascii := Ascii.ascii_of_N 58.

Definition is_char (c : Ascii.ascii) (n : N) : bool := (code c =? n)%N.

(** [l] with the token [p] removed from its front, if it starts with it. *)
Fixpoint strip_prefix (p l : list Ascii.ascii) : option (list Ascii.ascii) :=
  match p, l with
  | [], _ => Some l
  | a :: p', b :: l' => if Ascii.eqb a b then strip_prefix p' l' else None
  | _ :: _, [] => None
  end.

(** The literal names [true], [false] and [null]. *)
Definition literal (l : list Ascii.ascii) : option (jval * list Ascii.ascii) :=
  match strip_prefix ["t"; "r"; "u"; "e"]%char l with
  | Some r => Some (JBool true, r)
  | None =>
      match strip_prefix ["f"; "a"; "l"; "s"; "e"]%char l with
      | Some r => Some (JBool false, r)
      | None =>
          match strip_prefix ["n"; "u"; "l"; "l"]%char l with
          | Some r => Some (JNull, r)
          | None => None
          end
      end
  end.

(** [pvalue] parses one value after optional whitespace; [pelems] the
    elements of an array after the first has begun, [pmembers] the
    members of an object; each call spends one unit of fuel. *)
Fixpoint pvalue (fuel : nat) (l : list Ascii.ascii) {struct fuel} : option (jval * list Ascii.ascii) :=
  match fuel with
  | O => None
  | S f =>
      match skip_ws l with
      | [] => None
      | c :: r =>
          if is_char c 123 then
            match skip_ws r with
            | c' :: r' => if is_char c' 125 then Some (JObj [], r') else pmembers f [] r
            | [] => None
            end
          else if is_char c 91 then
            match skip_ws r with
            | c' :: r' => if is_char c' 93 then Some (JArr [], r') else pelems f [] r
            | [] => None
            end
          else if is_char c 34 then
            '(s, r') ← parse_string_body r; Some (JStr (String.string_of_list_ascii s), r')
          else
            match literal (c :: r) with
            | Some res => Some res
            | None => '(q, r') ← parse_number (c :: r); Some (JNum q, r')
            end
      end
  end
with pelems (fuel : nat) (acc : list jval) (l : list Ascii.ascii) {struct fuel}
    : option (jval * list Ascii.ascii) :=
  match fuel with
  | O => None
  | S f =>
      '(v, r) ← pvalue f l;
      match skip_ws r with
      | c :: r' =>
          if is_char c 44 then pelems f (acc ++ [v]) r'
          else if is_char c 93 then Some (JArr (acc ++ [v]), r')
          else None
      | [] => None
      end
  end
with pmembers (fuel : nat) (acc : list (string * jval)) (l : list Ascii.ascii) {struct fuel}
    : option (jval * list Ascii.ascii) :=
  match fuel with
  | O => None
  | S f =>
      match skip_ws l with
      | c :: r =>
          if is_char c 34 then
            '(k, r1) ← parse_string_body r;
            match skip_ws r1 with
            | c1 :: r2 =>
                if is_char c1 58 then
                  '(v, r3) ← pvalue f r2;
                  let acc' := acc ++ [(String.string_of_list_ascii k, v)] in
                  match skip_ws r3 with
                  | c3 :: r4 =>
                      if is_char c3 44 then pmembers f acc' r4
                      else if is_char c3 125 then Some (JObj acc', r4)
                      else None
                  | [] => None
                  end
                else None
            | [] => None
            end
          else None
      | [] => None
      end
  end.

(** [JSON.parse]: one value, then only whitespace. *)
Definition json_parse (t : list Ascii.ascii) : option jval :=
  '(v, r) ← pvalue (S (length t)) t;
  match skip_ws r with [] => Some v | _ => None end.

Definition newline : Ascii.ascii := Ascii.ascii_of_N 10.
Definition space : Ascii.ascii := Ascii.ascii_of_N 32.

(** The elements of an array or the members of an object joined by a
    separator, as [SerializeJSONArray] and [SerializeJSONObject] join them. *)
Fixpoint join_with (sep : list Ascii.ascii) (ts : list (list Ascii.ascii)) : list Ascii.ascii :=
  match ts with
  | [] => []
  | [t] => t
  | t :: r => t ++ sep ++ join_with sep r
  end.

(** With a non-empty [gap], a line feed and the indentation; nothing
    without one. *)
Definition line_break (gap indent : list Ascii.ascii) : list Ascii.ascii :=
  match gap with [] => [] | _ => newline :: indent end.

(** After the colon of a member: a space when there is a [gap]. *)
Definition key_sep (gap : list Ascii.ascii) : list Ascii.ascii :=
  match gap with [] => [] | _ => [space] end.

(** [SerializeJSONProperty] with the indentation unit [gap] and the
    current indentation [indent]: an empty array or object is [[]] or
    [{}]; otherwise, with a gap, each element on its own line one [gap]
    deeper and the closing bracket on a line of the current indentation. *)
Fixpoint stringify_gap (gap indent : list Ascii.ascii) (v : jval) : list Ascii.ascii :=
  match v with
  | JNull => ["n"; "u"; "l"; "l"]%char
  | JBool true => ["t"; "r"; "u"; "e"]%char
  | JBool false => ["f"; "a"; "l"; "s"; "e"]%char
  | JNum q => print_number q
  | JStr s => print_string s
  | JArr [] => [lbrack; rbrack]
  | JArr xs =>
      lbrack :: line_break gap (indent ++ gap) ++
      join_with (comma :: line_break gap (indent ++ gap))
        (List.map (stringify_gap gap (indent ++ gap)) xs) ++
      line_break gap indent ++ [rbrack]
  | JObj [] => [lbrace; rbrace]
  | JObj kvs =>
      lbrace :: line_break gap (indent ++ gap) ++
      join_with (comma :: line_break gap (indent ++ gap))
        (List.map (λ '(k, x), print_string k ++ colon :: key_sep gap ++ stringify_gap gap (indent ++ gap) x)
           kvs) ++
      line_break gap indent ++ [rbrace]
  end.

(** [JSON.stringify(v)]: no gap. *)
Definition json_stringify (v : jval) : list Ascii.ascii := stringify_gap [] [] v.

(** [JSON.stringify(v, null, n)]: a gap of [min 10 n] spaces. *)
Definition json_stringify_space (n : nat) (v : jval) : list Ascii.ascii :=
  stringify_gap (repeat space (Nat.min 10 n)) [] v.

(** ** Digits: printing and reading back *)

Lemma digit_digit_char d : (d < 10)%N → digit (digit_char d) = Some d.
Proof.
  intros Hd. assert (Hc : ∀ d, (d < 10 → d = 0 ∨ d = 1 ∨ d = 2 ∨ d = 3 ∨ d = 4 ∨ d = 5 ∨
    d = 6 ∨ d = 7 ∨ d = 8 ∨ d = 9)%N) by lia.
  specialize (Hc d Hd). repeat (destruct Hc as [->|Hc]; [reflexivity|]). by subst.
Qed.

Lemma span_digits_app ds r :
  Forall (λ d, d < 10)%N ds → (match r with c :: _ => digit c = None | [] => True end) →
  span_digits (digit_chars ds ++ r) = (ds, r).
Proof.
  intros Hds Hr. unfold digit_chars.
  induction Hds as [|d ds Hd _ IH]; rewrite ?fmap_nil, ?fmap_cons; cbn [app span_digits].
  - destruct r as [|c r]; [done|]. cbn [span_digits]. by rewrite Hr.
  - rewrite digit_digit_char by done. by rewrite IH.
Qed.

Lemma digits_value_app ds1 ds2 :
  digits_value (ds1 ++ ds2) = (digits_value ds1 * 10 ^ N.of_nat (length ds2) + digits_value ds2)%N.
Proof.
  unfold digits_value. rewrite foldl_app. generalize (foldl (λ acc d, 10 * acc + d)%N 0%N ds1).
  induction ds2 as [|d ds IH] using rev_ind; intros a; simpl; [lia|].
  rewrite foldl_app, length_app. simpl. rewrite (IH a), foldl_app. simpl.
  rewrite Nat2N.inj_add, N.pow_add_r. simpl. lia.
Qed.

Lemma digits_value_one d : digits_value [d] = d.
Proof. reflexivity. Qed.

Lemma fixed_digits_spec k x :
  length (fixed_digits k x) = k ∧ Forall (λ d, d < 10)%N (fixed_digits k x) ∧
  digits_value (fixed_digits k x) = (x mod 10 ^ N.of_nat k)%N.
Proof.
  revert x. induction k as [|k IH]; intros x; simpl; [split_and!; [done|done|]; by rewrite N.mod_1_r|].
  destruct (IH (x / 10)%N) as (Hl & Hf & Hv). split_and!.
  - rewrite length_app, Hl. simpl. lia.
  - apply Forall_app. split; [done|]. repeat constructor. apply N.mod_lt. lia.
  - rewrite digits_value_app, Hv, Nat2N.inj_succ, N.pow_succ_r'.
    rewrite N.mod_mul_r by (try apply N.pow_nonzero; lia).
    rewrite digits_value_one. change (10 ^ N.of_nat (length [x mod 10]))%N with 10%N. lia.
Qed.

Lemma digits_fuel_S f n :
  digits_fuel (S f) n = if (n <? 10)%N then [n] else digits_fuel f (n / 10)%N ++ [(n mod 10)%N].
Proof. reflexivity. Qed.

Lemma digits_fuel_spec fuel n :
  (n < 10 ^ N.of_nat (S fuel))%N →
  Forall (λ d, d < 10)%N (digits_fuel (S fuel) n) ∧ digits_value (digits_fuel (S fuel) n) = n ∧
  (match digits_fuel (S fuel) n with
   | [] => False | [_] => True | d :: _ => d ≠ 0%N
   end).
Proof.
  revert n. induction fuel as [|f IH]; intros n Hn; rewrite digits_fuel_S;
    (destruct (N.ltb_spec n 10) as [Hlt|Hge]; [split_and!; [by repeat constructor|reflexivity|done]|]).
  - simpl in Hn. lia.
  - rewrite Nat2N.inj_succ, N.pow_succ_r' in Hn.
    assert (Hq : (n / 10 < 10 ^ N.of_nat (S f))%N) by (apply N.div_lt_upper_bound; lia).
    destruct (IH _ Hq) as (Hf & Hv & Hh). split_and!.
    + apply Forall_app. split; [done|]. repeat constructor. apply N.mod_lt. lia.
    + rewrite digits_value_app, Hv, digits_value_one.
      change (10 ^ N.of_nat (length [n mod 10]))%N with 10%N.
      pose proof (N.div_mod n 10). lia.
    + assert (Hpos : (0 < n / 10)%N) by (apply N.div_str_pos; lia).
      destruct (digits_fuel (S f) (n / 10)) as [|d [|d' ds]] eqn:E; [done| |by destruct ds].
      simpl. intros ->. rewrite digits_value_one in Hv. lia.
Qed.

Lemma digits_N_fuel n : (n < 10 ^ N.of_nat (S (N.to_nat (N.log2 n))))%N.
Proof.
  destruct (N.eq_dec n 0) as [->|Hn]; [simpl; lia|].
  rewrite Nat2N.inj_succ, N2Nat.id.
  apply (N.lt_le_trans _ (2 ^ N.succ (N.log2 n))); [apply N.log2_spec; lia|].
  apply N.pow_le_mono_l. lia.
Qed.

Lemma digits_N_spec n :
  Forall (λ d, d < 10)%N (digits_N n) ∧ digits_value (digits_N n) = n ∧
  (match digits_N n with [] => False | [_] => True | d :: _ => d ≠ 0%N end).
Proof. apply digits_fuel_spec, digits_N_fuel. Qed.

Lemma number_end_cons c r :
  number_end (c :: r) →
  digit c = None ∧ Ascii.eqb c "." = false ∧ Ascii.eqb c "e" = false ∧ Ascii.eqb c "E" = false.
Proof.
  simpl. destruct (digit c), (Ascii.eqb c "."), (Ascii.eqb c "e"), (Ascii.eqb c "E"); done.
Qed.

Lemma number_end_digit r :
  number_end r → match r with c :: _ => digit c = None | [] => True end.
Proof. destruct r as [|c r]; [done|]. by intros [? _]%number_end_cons. Qed.

Lemma digit_char_neq d c : (d < 10)%N → digit c = None → Ascii.eqb (digit_char d) c = false.
Proof.
  intros Hd Hc. destruct (Ascii.eqb_spec (digit_char d) c) as [<-|]; [|done].
  by rewrite digit_digit_char in Hc.
Qed.

(** The token [print_number] writes, read back with its sign, digits and
    fraction unchanged. *)
Lemma parse_number_tokens (neg : bool) ip k fp rest :
  number_end rest →
  parse_number ((if neg then ["-"%char] else []) ++ digit_chars (digits_N ip) ++
                 match k with O => [] | S _ => "."%char :: digit_chars (fixed_digits k fp) end
                 ++ rest)
  = Some (number_value neg (digits_N ip) (fixed_digits k fp) false [], rest).
Proof.
  intros Hend. destruct (digits_N_spec ip) as (Hf & _ & Hh).
  destruct (fixed_digits_spec k fp) as (Hfl & Hff & _).
  set (frac := match k with O => [] | S _ => "."%char :: digit_chars (fixed_digits k fp) end).
  assert (Hfr : match frac ++ rest with c :: _ => digit c = None | [] => True end).
  { subst frac. destruct k; [|done]. by apply number_end_digit. }
  unfold parse_number.
  assert (Hsign : match (if neg then ["-"%char] else []) ++ digit_chars (digits_N ip) ++ frac ++ rest with
                  | c :: r => if Ascii.eqb c "-" then (true, r) else (false, (if neg then ["-"%char] else []) ++ digit_chars (digits_N ip) ++ frac ++ rest)
                  | [] => (false, [])
                  end = (neg, digit_chars (digits_N ip) ++ frac ++ rest)).
  { destruct neg; [reflexivity|]. destruct (digits_N ip) as [|d ds]; [done|].
    inversion Hf; subst. simpl. by rewrite digit_char_neq. }
  assert (Hfrac : lex_fraction (frac ++ rest) = Some (fixed_digits k fp, rest)).
  { subst frac. destruct k as [|k].
    - destruct rest as [|c r]; [done|]. apply number_end_cons in Hend as (_ & Hp & _).
      simpl. by rewrite Hp.
    - cbn [app lex_fraction]. rewrite (Ascii.eqb_refl "."), span_digits_app; [|done|by apply number_end_digit].
      by destruct (fixed_digits (S k) fp). }
  assert (Hexp : lex_exponent rest = Some (false, [], rest)).
  { destruct rest as [|c r]; [done|]. apply number_end_cons in Hend as (_ & _ & He & HE).
    simpl. by rewrite He, HE. }
  rewrite Hsign, span_digits_app by done.
  destruct (digits_N ip) as [|d [|d' ds]]; [done| |destruct d; [done|]];
    rewrite Hfrac; cbn [mbind option_bind]; rewrite Hexp; repeat case_match; reflexivity.
Qed.

Lemma find_scale_divides fuel k0 d k :
  find_scale fuel k0 d = Some k → (10 ^ Z.of_nat k mod d = 0)%Z.
Proof.
  revert k0. induction fuel as [|f IH]; intros k0; simpl; [done|].
  case_match eqn:E; [intros [= <-]; by apply Z.eqb_eq|apply IH].
Qed.

Lemma decimal_scale_divides q k :
  decimal_scale q = Some k → (10 ^ Z.of_nat k = Zpos (Qden q) * (10 ^ Z.of_nat k / Zpos (Qden q)))%Z.
Proof.
  intros Hk%find_scale_divides. apply Z_div_exact_full_2; [lia|done].
Qed.

(** The digits [print_number] writes denote the number it prints. *)
Lemma number_value_print q k :
  decimal_scale q = Some k →
  let m := (Qnum q * (10 ^ Z.of_nat k / Zpos (Qden q)))%Z in
  let a := Z.to_N (Z.abs m) in
  number_value (m <? 0)%Z (digits_N (a / 10 ^ N.of_nat k)) (fixed_digits k (a mod 10 ^ N.of_nat k))
    false [] = Qred q.
Proof.
  intros Hk m a. pose proof (decimal_scale_divides q k Hk) as Hdiv.
  destruct (digits_N_spec (a / 10 ^ N.of_nat k)) as (_ & Hv & _).
  destruct (fixed_digits_spec k (a mod 10 ^ N.of_nat k)) as (Hl & _ & Hfv).
  unfold number_value. rewrite digits_value_app, Hv, Hfv, Hl, N.mod_mod by (apply N.pow_nonzero; lia).
  replace (a / 10 ^ N.of_nat k * 10 ^ N.of_nat k + a mod 10 ^ N.of_nat k)%N with a
    by (rewrite N.mul_comm; apply N.div_mod, N.pow_nonzero; lia).
  change (digits_value []) with 0%N.
  replace (Z.max 0 (Z.of_N 0 - Z.of_nat k)) with 0%Z by lia.
  replace (Z.max 0 (- (Z.of_N 0 - Z.of_nat k))) with (Z.of_nat k) by lia.
  apply Qred_complete. unfold Qeq. simpl.
  assert (Hm : (if (m <? 0)%Z then - Z.of_N a else Z.of_N a)%Z = m).
  { subst a. destruct (Z.ltb_spec m 0); lia. }
  rewrite Hm, Z2Pos.id by lia. subst m. rewrite Hdiv at 2. lia.
Qed.

(** Printing a terminating decimal and reading it back gives the number. *)
Lemma parse_print_number q rest :
  is_Some (decimal_scale q) → number_end rest →
  parse_number (print_number q ++ rest) = Some (Qred q, rest).
Proof.
  intros [k Hk] Hend. unfold print_number. rewrite Hk, <- !app_assoc.
  rewrite parse_number_tokens by done. f_equal. f_equal. by apply number_value_print.
Qed.

(** ** Strings: printing and reading back *)

(** Every character's escape decodes to the character; checked over all
    256 characters. *)
Lemma parse_escape_char c l :
  parse_string_body (escape_char c ++ l) = '(s, t) ← parse_string_body l; Some (c :: s, t).
Proof. destruct c as [[] [] [] [] [] [] [] []]; reflexivity. Qed.

Lemma parse_string_print_body cs rest :
  parse_string_body ((cs ≫= escape_char) ++ dquote :: rest) = Some (cs, rest).
Proof.
  induction cs as [|c cs IH]; [reflexivity|].
  change ((c :: cs) ≫= escape_char) with (escape_char c ++ (cs ≫= escape_char)).
  by rewrite <- app_assoc, parse_escape_char, IH.
Qed.

Lemma print_string_cons s rest :
  print_string s ++ rest = dquote :: (String.list_ascii_of_string s ≫= escape_char) ++ dquote :: rest.
Proof. unfold print_string. simpl. by rewrite <- app_assoc. Qed.

(** ** Values: printing and reading back *)

(** The size the parser's fuel must exceed: two units per element or
    member, one for the value and one for the list step. *)
Fixpoint jsize (v : jval) : nat :=
  match v with
  | JArr xs => sum_list_with (λ x, 2 + jsize x) xs
  | JObj kvs => sum_list_with (λ kv, 2 + jsize kv.2) kvs
  | _ => 0
  end.

(** A rational [JSON.parse] can produce: in lowest terms.  *)
Definition q_reduced (q : Q) : bool := (Qnum (Qred q) =? Qnum q)%Z && (Qden (Qred q) =? Qden q)%positive.

(** The values the printer writes as they are: numbers reduced and
    terminating decimals (every double is one). *)
Fixpoint json_printable (v : jval) : bool :=
  match v with
  | JNum q => q_reduced q && bool_decide (is_Some (decimal_scale q))
  | JArr xs => forallb json_printable xs
  | JObj kvs => forallb (λ kv, json_printable kv.2) kvs
  | _ => true
  end.

(** Text made of JSON whitespace only. *)
Definition all_ws (w : list Ascii.ascii) : bool := forallb is_ws w.

(** What may follow a value inside JSON text: whitespace, then a comma,
    a closing bracket or brace, or the end. *)
Definition value_end (l : list Ascii.ascii) : Prop :=
  match skip_ws l with [] => True | c :: _ => c = comma ∨ c = rbrack ∨ c = rbrace end.

Lemma q_reduced_Qred q : q_reduced q → Qred q = q.
Proof.
  unfold q_reduced. destruct (Qred q) as [n d] eqn:E, q as [n' d']. simpl.
  destruct (Z.eqb_spec n n'), (Pos.eqb_spec d d'); [by subst|done..].
Qed.

Lemma json_printable_arr xs : json_printable (JArr xs) ↔ Forall (λ x, Is_true (json_printable x)) xs.
Proof. apply forallb_True. Qed.

Lemma json_printable_obj kvs :
  json_printable (JObj kvs) ↔ Forall (λ kv, Is_true (json_printable kv.2)) kvs.
Proof. apply forallb_True. Qed.

Lemma skip_ws_app w l : all_ws w → skip_ws (w ++ l) = skip_ws l.
Proof. induction w as [|c w IH]; [done|]. intros [Hc%Is_true_true_1 Hw]%andb_True. simpl. by rewrite Hc, IH. Qed.

Lemma is_ws_cases c :
  is_ws c → c = Ascii.ascii_of_N 32 ∨ c = Ascii.ascii_of_N 9 ∨ c = Ascii.ascii_of_N 10 ∨ c = Ascii.ascii_of_N 13.
Proof.
  unfold is_ws, code. intros H. rewrite <- (Ascii.ascii_N_embedding c).
  destruct (N.eqb_spec (Ascii.N_of_ascii c) 32) as [->|]; [by left|].
  destruct (N.eqb_spec (Ascii.N_of_ascii c) 9) as [->|]; [by right; left|].
  destruct (N.eqb_spec (Ascii.N_of_ascii c) 10) as [->|]; [by right; right; left|].
  destruct (N.eqb_spec (Ascii.N_of_ascii c) 13) as [->|]; [by right; right; right|done].
Qed.

Lemma value_end_number_end l : value_end l → number_end l.
Proof.
  unfold value_end. destruct l as [|c l]; [done|]. simpl.
  destruct (is_ws c) eqn:Hw.
  - intros _. apply Is_true_true_2 in Hw. by destruct (is_ws_cases c Hw) as [-> | [-> | [-> | ->]]].
  - by intros [-> | [-> | ->]].
Qed.

Lemma value_end_ws w l : all_ws w → value_end l → value_end (w ++ l).
Proof. unfold value_end. intros Hw. by rewrite skip_ws_app. Qed.

Lemma value_end_start c l : c = comma ∨ c = rbrack ∨ c = rbrace → value_end (c :: l).
Proof. unfold value_end. intros [-> | [-> | ->]]; simpl; auto. Qed.

(** The first characters [print_number] can write. *)
Definition number_start : list Ascii.ascii := ["-"; "0"; "1"; "2"; "3"; "4"; "5"; "6"; "7"; "8"; "9"]%char.

Lemma digit_char_start d : (d < 10)%N → digit_char d ∈ number_start.
Proof.
  intros Hd. assert (Hc : ∀ d, (d < 10 → d = 0 ∨ d = 1 ∨ d = 2 ∨ d = 3 ∨ d = 4 ∨ d = 5 ∨
    d = 6 ∨ d = 7 ∨ d = 8 ∨ d = 9)%N) by lia.
  specialize (Hc d Hd). repeat (destruct Hc as [->|Hc]; [vm_compute; set_solver|]). subst. set_solver.
Qed.

Lemma print_number_head q :
  is_Some (decimal_scale q) → ∃ c t, print_number q = c :: t ∧ c ∈ number_start.
Proof.
  intros [k Hk]. unfold print_number. rewrite Hk.
  destruct (digits_N_spec (Z.to_N (Z.abs (Qnum q * (10 ^ Z.of_nat k / Zpos (Qden q)))) / 10 ^ N.of_nat k))
    as (Hf & _ & Hh).
  destruct (digits_N _) as [|d ds]; [done|]. inversion Hf; subst.
  destruct (_ <? 0)%Z; [eexists _, _; split; [reflexivity|set_solver]|].
  eexists _, _; split; [reflexivity|]. by apply digit_char_start.
Qed.

Lemma number_start_facts c : c ∈ number_start → is_ws c = false ∧ is_char c 93 = false.
Proof. unfold number_start. intros Hc. repeat (apply elem_of_cons in Hc as [-> | Hc]; [done|]). set_solver. Qed.

(** One step of the parser on the character a value starts with. *)
Lemma pvalue_number_start f c r :
  c ∈ number_start → pvalue (S f) (c :: r) = '(q, r') ← parse_number (c :: r); Some (JNum q, r').
Proof.
  unfold number_start. intros Hc.
  repeat (apply elem_of_cons in Hc as [-> | Hc]; [reflexivity|]). set_solver.
Qed.

Lemma pvalue_string f l :
  pvalue (S f) (dquote :: l) = '(s, r) ← parse_string_body l; Some (JStr (String.string_of_list_ascii s), r).
Proof. reflexivity. Qed.

Lemma pvalue_array f l :
  pvalue (S f) (lbrack :: l) =
  match skip_ws l with c :: r => if is_char c 93 then Some (JArr [], r) else pelems f [] l | [] => None end.
Proof. reflexivity. Qed.

Lemma pvalue_object f l :
  pvalue (S f) (lbrace :: l) =
  match skip_ws l with c :: r => if is_char c 125 then Some (JObj [], r) else pmembers f [] l | [] => None end.
Proof. reflexivity. Qed.

Lemma pelems_S f acc l :
  pelems (S f) acc l =
  '(v, r) ← pvalue f l;
  match skip_ws r with
  | c :: r' => if is_char c 44 then pelems f (acc ++ [v]) r'
               else if is_char c 93 then Some (JArr (acc ++ [v]), r') else None
  | [] => None
  end.
Proof. reflexivity. Qed.

Lemma pmembers_member f acc w k l :
  all_ws w →
  pmembers (S f) acc (w ++ print_string k ++ colon :: l) =
  '(v, r) ← pvalue f l;
  match skip_ws r with
  | c :: r' => if is_char c 44 then pmembers f (acc ++ [(k, v)]) r'
               else if is_char c 125 then Some (JObj (acc ++ [(k, v)]), r') else None
  | [] => None
  end.
Proof.
  intros Hw. cbn [pmembers]. rewrite skip_ws_app, print_string_cons by done. cbn [skip_ws].
  change (is_ws dquote) with false. change (is_char dquote 34) with true. cbv iota.
  rewrite parse_string_print_body. cbn. by rewrite String.string_of_list_ascii_of_string.
Qed.

Lemma pvalue_ws f w l : all_ws w → pvalue f (w ++ l) = pvalue f l.
Proof. intros Hw. destruct f; [done|]. cbn [pvalue]. by rewrite skip_ws_app. Qed.

Lemma skip_ws_start c l : is_ws c = false → skip_ws (c :: l) = c :: l.
Proof. simpl. by intros ->. Qed.

Lemma line_break_ws gap ind : all_ws gap → all_ws ind → all_ws (line_break gap ind).
Proof. destruct gap; [done|]. intros _ Hi. by apply andb_True. Qed.

Lemma key_sep_ws gap : all_ws (key_sep gap).
Proof. by destruct gap. Qed.

Lemma all_ws_app w1 w2 : all_ws w1 → all_ws w2 → all_ws (w1 ++ w2).
Proof. unfold all_ws. rewrite forallb_app. intros. by apply andb_True. Qed.

Lemma join_with_cons2 sep t t' ts : join_with sep (t :: t' :: ts) = t ++ sep ++ join_with sep (t' :: ts).
Proof. reflexivity. Qed.

Lemma join_with_length {A} sep (f : A → nat) (h : A → list Ascii.ascii) xs :
  sep ≠ [] → Forall (λ x, f x ≤ length (h x) + 1) xs →
  sum_list_with f xs ≤ length (join_with sep (List.map h xs)) + 1.
Proof.
  intros Hsep. induction 1 as [|x xs Hx Hxs IH]; [simpl; lia|].
  destruct xs as [|x' xs]; [simpl in *; lia|].
  cbn [List.map sum_list_with] in *. rewrite join_with_cons2, !length_app.
  destruct sep; [done|]. cbn [length]. lia.
Qed.

Lemma print_number_nonempty q : print_number q ≠ [].
Proof.
  unfold print_number. destruct (decimal_scale q) as [k|]; [|done].
  destruct (digits_N_spec (Z.to_N (Z.abs (Qnum q * (10 ^ Z.of_nat k / Zpos (Qden q)))) / 10 ^ N.of_nat k))
    as (_ & _ & Hh).
  destruct (digits_N _); [done|]. by destruct (_ <? 0)%Z.
Qed.

(** The printed text is longer than the value's size: the fuel
    [json_parse] gives is enough. *)
Lemma jsize_lt_length gap ind v : jsize v < length (stringify_gap gap ind v).
Proof.
  revert ind. induction v as [| | q | s | xs IH | kvs IH] using jval_ind'; intros ind.
  - simpl; lia.
  - destruct b; simpl; lia.
  - cbn [stringify_gap]. destruct (print_number q) eqn:E; [by apply print_number_nonempty in E|simpl; lia].
  - simpl; lia.
  - destruct xs as [|x xs]; [simpl; lia|]. cbn [stringify_gap jsize].
    rewrite length_cons, !length_app. cbn [length].
    enough (sum_list_with (λ x, 2 + jsize x) (x :: xs) ≤
            length (join_with (comma :: line_break gap (ind ++ gap))
                      (List.map (stringify_gap gap (ind ++ gap)) (x :: xs))) + 1) by lia.
    apply join_with_length; [done|]. eapply Forall_impl; [done|]. intros y Hy. specialize (Hy (ind ++ gap)). lia.
  - destruct kvs as [|kv kvs]; [simpl; lia|]. cbn [stringify_gap jsize].
    rewrite length_cons, !length_app. cbn [length].
    enough (sum_list_with (λ kv, 2 + jsize kv.2) (kv :: kvs) ≤
            length (join_with (comma :: line_break gap (ind ++ gap))
              (List.map (λ '(k, x), print_string k ++ colon :: key_sep gap ++ stringify_gap gap (ind ++ gap) x)
                 (kv :: kvs))) + 1) by lia.
    apply join_with_length; [done|]. eapply Forall_impl; [done|]. intros [k x] Hx.
    specialize (Hx (ind ++ gap)). unfold print_string. simpl in *. rewrite !length_app. simpl. rewrite length_app. lia.
Qed.

(** The first character of a printed value is neither whitespace nor a
    closing bracket. *)
Lemma stringify_head gap ind v :
  json_printable v → ∃ c t, stringify_gap gap ind v = c :: t ∧ is_ws c = false ∧ is_char c 93 = false.
Proof.
  destruct v as [|[]|q|s|[|x xs]|[|kv kvs]]; simpl; intros Hp; try by eexists _, _.
  apply andb_True in Hp as [_ Hs]. apply bool_decide_unpack in Hs.
  destruct (print_number_head q Hs) as (c & t & -> & Hc). exists c, t. split; [done|].
  by apply number_start_facts.
Qed.

(** A value read back from the text [p] prints for it, followed by any
    text that may follow a value, with any fuel above its size. *)
Definition reads_back (p : jval → list Ascii.ascii) (v : jval) : Prop :=
  ∀ f rest, jsize v < f → value_end rest → pvalue f (p v ++ rest) = Some (v, rest).

(** The elements of an array, separated by commas and whitespace, read
    back up to the closing bracket. *)
Lemma pelems_print p ws w0 w1 xs acc f rest :
  all_ws ws → all_ws w0 → all_ws w1 →
  Forall (reads_back p) xs → xs ≠ [] → sum_list_with (λ x, 2 + jsize x) xs ≤ f →
  pelems f acc (w0 ++ join_with (comma :: ws) (List.map p xs) ++ w1 ++ rbrack :: rest) =
    Some (JArr (acc ++ xs), rest).
Proof.
  intros Hws Hw0 Hw1. revert acc f w0 Hw0. induction xs as [|x xs IH]; intros acc f w0 Hw0 HF Hne Hs; [done|].
  apply Forall_cons in HF as [Hx HF]. destruct f as [|f]; [simpl in Hs; lia|].
  rewrite pelems_S, pvalue_ws by done.
  destruct xs as [|x' xs]; cbn [sum_list_with] in Hs.
  - cbn [List.map join_with]. rewrite Hx by (lia || by apply value_end_ws; [done|]; apply value_end_start; right; left).
    cbn [mbind option_bind]. rewrite skip_ws_app by done. reflexivity.
  - cbn [List.map]. rewrite join_with_cons2, <- !app_assoc, <- app_comm_cons.
    rewrite Hx by (lia || by apply value_end_start; left). cbn [mbind option_bind].
    rewrite skip_ws_start by reflexivity. change (is_char comma 44) with true. cbv iota.
    change (p x' :: List.map p xs) with (List.map p (x' :: xs)).
    rewrite (IH (acc ++ [x]) f ws) by (done || (cbn [sum_list_with]; lia)). by rewrite <- app_assoc.
Qed.

(** The members of an object, likewise, up to the closing brace. *)
Lemma pmembers_print p ks ws w0 w1 kvs acc f rest :
  all_ws ks → all_ws ws → all_ws w0 → all_ws w1 →
  Forall (λ kv, reads_back p kv.2) kvs → kvs ≠ [] → sum_list_with (λ kv, 2 + jsize kv.2) kvs ≤ f →
  pmembers f acc (w0 ++ join_with (comma :: ws)
                    (List.map (λ '(k, x), print_string k ++ colon :: ks ++ p x) kvs) ++ w1 ++ rbrace :: rest) =
    Some (JObj (acc ++ kvs), rest).
Proof.
  intros Hks Hws Hw0 Hw1. revert acc f w0 Hw0.
  induction kvs as [|[k x] kvs IH]; intros acc f w0 Hw0 HF Hne Hs; [done|].
  apply Forall_cons in HF as [Hx HF]. destruct f as [|f]; [simpl in Hs; lia|]. simpl in Hx.
  destruct kvs as [|[k' x'] kvs]; cbn [sum_list_with snd] in Hs.
  - cbn [List.map join_with]. rewrite <- !app_assoc, <- app_comm_cons, pmembers_member by done.
    rewrite <- app_assoc, pvalue_ws by done.
    rewrite Hx by (lia || by apply value_end_ws; [done|]; apply value_end_start; right; right).
    cbn [mbind option_bind]. rewrite skip_ws_app by done. reflexivity.
  - cbn [List.map]. rewrite join_with_cons2, <- !app_assoc, <- app_comm_cons, pmembers_member by done.
    rewrite <- app_assoc, <- app_comm_cons, pvalue_ws by done.
    rewrite Hx by (lia || by apply value_end_start; left). cbn [mbind option_bind].
    rewrite skip_ws_start by reflexivity. change (is_char comma 44) with true. cbv iota.
    set (m := λ '(k, x), print_string k ++ colon :: ks ++ p x).
    change ((print_string k' ++ colon :: ks ++ p x') :: List.map m kvs) with (List.map m ((k', x') :: kvs)).
    replace (acc ++ (k, x) :: (k', x') :: kvs) with ((acc ++ [(k, x)]) ++ (k', x') :: kvs) by (by rewrite <- app_assoc).
    apply IH; [done..|cbn [sum_list_with snd]; lia].
Qed.

Lemma Forall_mp {A} (P Q : A → Prop) xs : Forall (λ x, P x → Q x) xs → Forall P xs → Forall Q xs.
Proof. induction 1; inversion 1; by constructor; auto. Qed.

Lemma join_with_head sep t ts : ∃ u, join_with sep (t :: ts) = t ++ u.
Proof. destruct ts; [exists []; by rewrite app_nil_r|by eexists]. Qed.

(** A non-empty array read back: the parser sees the first element's
    first character after the line break, which is not a closing bracket. *)
Lemma pvalue_array_print p lb ws lb' x xs f rest :
  all_ws lb → all_ws ws → all_ws lb' →
  (∃ c t, p x = c :: t ∧ is_ws c = false ∧ is_char c 93 = false) →
  Forall (reads_back p) (x :: xs) → sum_list_with (λ x, 2 + jsize x) (x :: xs) ≤ f →
  pvalue (S f) (lbrack :: lb ++ join_with (comma :: ws) (List.map p (x :: xs)) ++ lb' ++ rbrack :: rest) =
    Some (JArr (x :: xs), rest).
Proof.
  intros Hlb Hws Hlb' (c & t & Ht & Hw & Hc) HF Hs. rewrite pvalue_array, skip_ws_app by done.
  cbn [List.map]. destruct (join_with_head (comma :: ws) (p x) (List.map p xs)) as [u Hu].
  rewrite Hu, Ht, <- !app_comm_cons, skip_ws_start, Hc by done. cbv iota.
  rewrite !app_comm_cons, <- Ht, <- Hu. change (p x :: List.map p xs) with (List.map p (x :: xs)).
  by apply pelems_print.
Qed.

(** A non-empty object read back: its first member starts with a quote. *)
Lemma pvalue_object_print p ks lb ws lb' kvs f rest :
  all_ws ks → all_ws lb → all_ws ws → all_ws lb' →
  Forall (λ kv, reads_back p kv.2) kvs → kvs ≠ [] → sum_list_with (λ kv, 2 + jsize kv.2) kvs ≤ f →
  pvalue (S f) (lbrace :: lb ++ join_with (comma :: ws)
                  (List.map (λ '(k, x), print_string k ++ colon :: ks ++ p x) kvs) ++ lb' ++ rbrace :: rest) =
    Some (JObj kvs, rest).
Proof.
  intros Hks Hlb Hws Hlb' HF Hne Hs. rewrite pvalue_object, skip_ws_app by done.
  set (J := join_with _ _ ++ lb' ++ rbrace :: rest).
  assert (HJ : ∃ t, J = dquote :: t).
  { destruct kvs as [|[k x] kvs]; [done|]. subst J. cbn [List.map].
    destruct (join_with_head (comma :: ws) (print_string k ++ colon :: ks ++ p x)
                (List.map (λ '(k, x), print_string k ++ colon :: ks ++ p x) kvs)) as [u Hu].
    rewrite Hu, <- !app_assoc, print_string_cons. by eexists. }
  destruct HJ as [t Ht]. rewrite Ht. cbn [skip_ws].
  change (is_ws dquote) with false. change (is_char dquote 125) with false. cbv iota.
  rewrite <- Ht. by apply pmembers_print.
Qed.

(** Every printable value reads back from its text, with any whitespace
    gap and indentation. *)
Lemma pvalue_print gap v :
  all_ws gap → ∀ ind, all_ws ind → json_printable v → reads_back (stringify_gap gap ind) v.
Proof.
  intros Hgap. induction v as [| b | q | s | xs IH | kvs IH] using jval_ind';
    intros ind Hind Hp f rest Hs Hend; (destruct f as [|f]; [lia|]).
  - reflexivity.
  - by destruct b.
  - apply andb_True in Hp as [Hr Hd]. apply bool_decide_unpack in Hd.
    destruct (print_number_head q Hd) as (c & t & Ht & Hc). cbn [stringify_gap].
    rewrite Ht, <- app_comm_cons, pvalue_number_start, app_comm_cons, <- Ht by done.
    rewrite parse_print_number by auto using value_end_number_end. simpl.
    by rewrite q_reduced_Qred.
  - cbn [stringify_gap]. rewrite print_string_cons, pvalue_string, parse_string_print_body.
    simpl. by rewrite String.string_of_list_ascii_of_string.
  - assert (Hind' : all_ws (ind ++ gap)) by by apply all_ws_app.
    destruct xs as [|x xs]; [reflexivity|].
    apply json_printable_arr in Hp. pose proof Hp as Hps. apply Forall_cons in Hp as [Hx _].
    cbn [stringify_gap]. rewrite <- app_comm_cons, <- !app_assoc.
    apply pvalue_array_print; auto using line_break_ws, stringify_head; [|cbn [jsize] in Hs; lia].
    apply (Forall_mp (λ v, Is_true (json_printable v))); [|done].
    eapply Forall_impl; [exact IH|]. intros y Hy Hyp. by apply Hy.
  - assert (Hind' : all_ws (ind ++ gap)) by by apply all_ws_app.
    destruct kvs as [|kv kvs]; [reflexivity|]. apply json_printable_obj in Hp.
    cbn [stringify_gap]. rewrite <- app_comm_cons, <- !app_assoc.
    apply pvalue_object_print; auto using line_break_ws, key_sep_ws; [|cbn [jsize] in Hs; lia].
    apply (Forall_mp (λ kv, Is_true (json_printable kv.2))); [|done].
    eapply Forall_impl; [exact IH|]. intros y Hy Hyp. by apply Hy.
Qed.

Lemma json_parse_print_gap gap v :
  all_ws gap → json_printable v → json_parse (stringify_gap gap [] v) = Some v.
Proof.
  intros Hgap Hp. unfold json_parse. rewrite <- (app_nil_r (stringify_gap gap [] v)) at 2.
  rewrite (pvalue_print gap v Hgap [] I Hp); [done| |done]. pose proof (jsize_lt_length gap [] v). lia.
Qed.

Lemma json_parse_print v : json_printable v → json_parse (json_stringify v) = Some v.
Proof. by apply json_parse_print_gap. Qed.



(** ** The kind of value the first character announces *)

Lemma pelems_arr f acc l v r : pelems f acc l = Some (v, r) → ∃ xs, v = JArr xs.
Proof.
  revert acc l. induction f as [|f IH]; intros acc l; [done|]. rewrite pelems_S.
  destruct (pvalue f l) as [[x r1]|]; [simpl|done].
  destruct (skip_ws r1) as [|c r2]; [done|].
  destruct (is_char c 44); [apply IH|]. destruct (is_char c 93); [|done]. intros [= <- _]. by eexists.
Qed.

Lemma pmembers_S f acc l :
  pmembers (S f) acc l =
  match skip_ws l with
  | c :: r =>
      if is_char c 34 then
        '(k, r1) ← parse_string_body r;
        match skip_ws r1 with
        | c1 :: r2 =>
            if is_char c1 58 then
              '(v, r3) ← pvalue f r2;
              let acc' := acc ++ [(String.string_of_list_ascii k, v)] in
              match skip_ws r3 with
              | c3 :: r4 =>
                  if is_char c3 44 then pmembers f acc' r4
                  else if is_char c3 125 then Some (JObj acc', r4) else None
              | [] => None
              end
            else None
        | [] => None
        end
      else None
  | [] => None
  end.
Proof. reflexivity. Qed.

Lemma pmembers_obj f acc l v r : pmembers f acc l = Some (v, r) → ∃ kvs, v = JObj kvs.
Proof.
  revert acc l. induction f as [|f IH]; intros acc l; [done|]. rewrite pmembers_S.
  destruct (skip_ws l) as [|c r0]; [done|]. destruct (is_char c 34); [|done].
  destruct (parse_string_body r0) as [[k r1]|]; [simpl|done].
  destruct (skip_ws r1) as [|c1 r2]; [done|]. destruct (is_char c1 58); [|done].
  destruct (pvalue f r2) as [[x r3]|]; [simpl|done].
  destruct (skip_ws r3) as [|c3 r4]; [done|].
  destruct (is_char c3 44); [apply IH|]. destruct (is_char c3 125); [|done]. intros [= <- _]. by eexists.
Qed.

(** A value parsed from a text is an object exactly when the text starts
    (after whitespace) with a brace, an array exactly when it starts with
    a bracket, and neither otherwise. *)
Lemma pvalue_first_char f l v r :
  pvalue f l = Some (v, r) →
  match skip_ws l with
  | c :: _ =>
      if is_char c 123 then ∃ kvs, v = JObj kvs
      else if is_char c 91 then ∃ xs, v = JArr xs
      else (∀ kvs, v ≠ JObj kvs) ∧ (∀ xs, v ≠ JArr xs)
  | [] => False
  end.
Proof.
  destruct f as [|f]; [done|]. cbn [pvalue].
  destruct (skip_ws l) as [|c r0]; [done|].
  destruct (is_char c 123).
  { destruct (skip_ws r0) as [|c' r']; [done|].
    destruct (is_char c' 125); [intros [= <- _]; by eexists|apply pmembers_obj]. }
  destruct (is_char c 91).
  { destruct (skip_ws r0) as [|c' r']; [done|].
    destruct (is_char c' 93); [intros [= <- _]; by eexists|apply pelems_arr]. }
  destruct (is_char c 34).
  { destruct (parse_string_body r0) as [[s' r1]|]; [|done]. intros [= <- _]. done. }
  unfold literal. repeat case_match; intros; simplify_eq; try done.
  destruct (parse_number _) as [[q r1]|]; simplify_eq/=; done.
Qed.

Lemma json_parse_first_char t v :
  json_parse t = Some v →
  match skip_ws t with
  | c :: _ =>
      if is_char c 123 then ∃ kvs, v = JObj kvs
      else if is_char c 91 then ∃ xs, v = JArr xs
      else (∀ kvs, v ≠ JObj kvs) ∧ (∀ xs, v ≠ JArr xs)
  | [] => False
  end.
Proof.
  unfold json_parse. destruct (pvalue _ t) as [[v' r]|] eqn:E; [simpl|done].
  destruct (skip_ws r); [intros [= <-]|done]. by eapply pvalue_first_char.
Qed.

(** ** Round trip and examples *)

(** C36: [JSON.parse] reads back what [JSON.stringify] writes: for every
    value whose numbers are reduced terminating decimals (every value
    [JSON.parse] produces, and every double), parsing the printed text
    gives the value itself, strings with every escape and nested arrays
    and objects included. *)
Theorem json_parse_stringify v : json_printable v → json_parse (json_stringify v) = Some v.
Proof. apply json_parse_print. Qed.

Definition sample_value : jval :=
  JObj [("title", JStr (String.String (Ascii.ascii_of_N 34) "Q"));
        ("genre", JArr [JStr "Drama"; JStr "Sci-Fi"]);
        ("rate", JNum (-19 # 2)); ("poster", JNull); ("ok", JBool false);
        ("nested", JArr [JObj []; JArr []; JNum (1 # 20)])].

Lemma json_parse_stringify_witness :
  json_printable sample_value ∧ json_parse (json_stringify sample_value) = Some sample_value.
Proof.
  assert (H : json_printable sample_value) by (vm_compute; exact I).
  split; [exact H|exact (json_parse_stringify sample_value H)].
Defined.

(** Text [JSON.parse] rejects: a trailing comma, a missing comma, a
    number with a leading zero, a truncated literal, text after the value,
    a raw control character in a string. *)
Example json_parse_rejects :
  Forall (λ t, json_parse t = None)
    [["["; "1"; ","; "]"]; ["["; "1"; " "; "2"; "]"]; ["0"; "1"]; ["t"; "r"; "u"];
     ["{"; "}"; "x"]; [dquote; Ascii.ascii_of_N 10; dquote]]%char.
Proof. repeat constructor. Qed.


(** ** The numbers [JSON.parse] produces are printable *)

(** A positive divisor of a power of ten divides [10 ^ k] for some [k] no
    larger than its binary logarithm: divide out [gcd d 10] one step at a
    time (Gauss's lemma keeps the rest a divisor of a smaller power). *)
Lemma divides_pow10_log2 b d :
  (0 < d)%Z → (d | 10 ^ Z.of_nat b)%Z →
  ∃ k, k ≤ Z.to_nat (Z.log2 d) ∧ (d | 10 ^ Z.of_nat k)%Z.
Proof.
  revert d. induction b as [|b IH]; intros d Hd Hdiv.
  - exists 0. split; [lia|done].
  - rewrite Nat2Z.inj_succ, Z.pow_succ_r in Hdiv by lia.
    set (g := Z.gcd d 10). assert (Hg : (0 < g)%Z).
    { pose proof (Z.gcd_nonneg d 10). destruct (Z.eq_dec g 0) as [E|]; [|lia].
      apply Z.gcd_eq_0 in E. lia. }
    destruct (Z.eq_dec g 1) as [Hg1|Hg1].
    { apply IH; [done|]. apply (Gauss _ 10); [done|]. apply Zgcd_1_rel_prime. done. }
    destruct (Z.gcd_divide_l d 10) as [d' Hd'], (Z.gcd_divide_r d 10) as [t Ht]. fold g in Hd', Ht.
    assert (Hd'pos : (0 < d')%Z) by nia.
    assert (Hdiv' : (d' | 10 ^ Z.of_nat b)%Z).
    { apply (Gauss _ t).
      - destruct Hdiv as [c Hc]. exists c. apply (Z.mul_reg_l _ _ g); [lia|].
        rewrite Z.mul_assoc, (Z.mul_comm g t), <- Ht, Hc, Hd'. ring.
      - apply Zgcd_1_rel_prime.
        assert (Z.gcd d' t * g = g)%Z as E.
        { rewrite <- Z.gcd_mul_mono_r_nonneg by lia. by rewrite <- Hd', <- Ht. }
        pose proof (Z.gcd_nonneg d' t). nia. }
    destruct (IH d' Hd'pos Hdiv') as (k & Hk & Hkd).
    exists (S k). split.
    + assert (Hg2 : (2 <= g)%Z) by lia.
      assert (Z.log2 d' + 1 <= Z.log2 d)%Z.
      { change (Z.log2 d' + 1)%Z with (Z.succ (Z.log2 d')). rewrite <- Z.log2_double by lia. apply Z.log2_le_mono. nia. }
      pose proof (Z.log2_nonneg d'). lia.
    + rewrite Nat2Z.inj_succ, Z.pow_succ_r, Hd' by lia.
      destruct Hkd as [c Hc]. exists (c * t)%Z. rewrite Hc, Ht. ring.
Qed.

Lemma find_scale_complete fuel k0 d k :
  k0 ≤ k → k < k0 + fuel → (10 ^ Z.of_nat k mod d = 0)%Z → is_Some (find_scale fuel k0 d).
Proof.
  revert k0. induction fuel as [|f IH]; intros k0 H1 H2 Hk; [lia|]. simpl.
  case_match eqn:E; [by eexists|]. destruct (decide (k0 = k)) as [->|]; [by rewrite Hk in E|].
  apply IH; lia.
Qed.

Lemma decimal_scale_complete q b : (Zpos (Qden q) | 10 ^ Z.of_nat b)%Z → is_Some (decimal_scale q).
Proof.
  intros Hdiv. destruct (divides_pow10_log2 b (Zpos (Qden q)) (Pos2Z.is_pos _) Hdiv) as (k & Hk & Hkd).
  unfold decimal_scale. apply (find_scale_complete _ _ _ k); [lia|lia|].
  by apply Z.mod_divide.
Qed.

Lemma Qred_den_divides q : (Zpos (Qden (Qred q)) | Zpos (Qden q))%Z.
Proof.
  destruct q as [a b]. unfold Qred. simpl.
  pose proof (Z.ggcd_correct_divisors a (Zpos b)) as Hc. pose proof (Z.ggcd_gcd a (Zpos b)) as Hg.
  destruct (Z.ggcd a (Zpos b)) as [g [aa bb]]. simpl in *. destruct Hc as [_ Hb].
  assert (0 < g)%Z by (subst g; pose proof (Z.gcd_nonneg a (Zpos b)); destruct (Z.eq_dec (Z.gcd a (Zpos b)) 0) as [E|];
    [apply Z.gcd_eq_0 in E; lia|lia]).
  assert (0 < bb)%Z by nia. rewrite Z2Pos.id by done. exists g. lia.
Qed.

Lemma q_reduced_Qred_of q : q_reduced (Qred q).
Proof. unfold q_reduced. rewrite (Qred_complete _ _ (Qred_correct q)), Z.eqb_refl, Pos.eqb_refl. done. Qed.

(** A number token denotes a reduced rational whose denominator divides a
    power of ten. *)
Lemma number_value_printable neg ids fds eneg eds :
  q_reduced (number_value neg ids fds eneg eds) ∧ is_Some (decimal_scale (number_value neg ids fds eneg eds)).
Proof.
  unfold number_value. split; [apply q_reduced_Qred_of|].
  match goal with
  | |- is_Some (decimal_scale (Qred (Qmake _ (Z.to_pos (10 ^ ?e))))) =>
      apply (decimal_scale_complete _ (Z.to_nat e))
  end.
  eapply Z.divide_trans; [apply Qred_den_divides|]. simpl.
  rewrite Z2Pos.id, Z2Nat.id by (try apply Z.pow_pos_nonneg; lia). reflexivity.
Qed.

Lemma parse_number_printable l q r :
  parse_number l = Some (q, r) → q_reduced q ∧ is_Some (decimal_scale q).
Proof.
  unfold parse_number.
  destruct (match l with c :: r => if Ascii.eqb c "-" then (true, r) else (false, l) | [] => (false, []) end)
    as [neg l1].
  destruct (span_digits l1) as [ids l2].
  assert (H : ∀ ids, (lex_fraction l2 ≫= λ '(fds, l3), lex_exponent l3 ≫= λ '(eneg, eds, l4),
                       Some (number_value neg ids fds eneg eds, l4)) = Some (q, r) →
                     q_reduced q ∧ is_Some (decimal_scale q)).
  { intros ids'. destruct (lex_fraction l2) as [[fds l3]|]; [simpl|done].
    destruct (lex_exponent l3) as [[[eneg eds] l4]|]; [simpl|done].
    intros [= <- _]. apply number_value_printable. }
  destruct ids as [|[|p] [|d' ids]]; try done; apply H.
Qed.

Lemma parse_printable f :
  (∀ l v r, pvalue f l = Some (v, r) → json_printable v) ∧
  (∀ acc l v r, Forall (λ x, Is_true (json_printable x)) acc →
     pelems f acc l = Some (v, r) → json_printable v) ∧
  (∀ acc l v r, Forall (λ kv, Is_true (json_printable kv.2)) acc →
     pmembers f acc l = Some (v, r) → json_printable v).
Proof.
  induction f as [|f (IHv & IHe & IHm)]; [done|]. split_and!.
  - intros l v r. cbn [pvalue]. destruct (skip_ws l) as [|c r0]; [done|].
    destruct (is_char c 123).
    { destruct (skip_ws r0); [done|]. destruct (is_char _ 125); [by intros [= <- _]|].
      apply IHm. constructor. }
    destruct (is_char c 91).
    { destruct (skip_ws r0); [done|]. destruct (is_char _ 93); [by intros [= <- _]|].
      apply IHe. constructor. }
    destruct (is_char c 34).
    { destruct (parse_string_body r0) as [[s r1]|]; [|done]. by intros [= <- _]. }
    unfold literal. repeat case_match; intros; simplify_eq; try done.
    destruct (parse_number _) as [[q r1]|] eqn:E; simplify_eq/=.
    destruct (parse_number_printable _ _ _ E) as [Hr Hd].
    apply andb_True. split; [done|by apply bool_decide_pack].
  - intros acc l v r Hacc. rewrite pelems_S.
    destruct (pvalue f l) as [[x r1]|] eqn:E; [simpl|done]. pose proof (IHv _ _ _ E) as Hx.
    destruct (skip_ws r1) as [|c r2]; [done|].
    destruct (is_char c 44); [apply IHe; by apply Forall_app; split; [|constructor]|].
    destruct (is_char c 93); [|done]. intros [= <- _].
    apply json_printable_arr, Forall_app. split; [done|by constructor].
  - intros acc l v r Hacc. rewrite pmembers_S.
    destruct (skip_ws l) as [|c r0]; [done|]. destruct (is_char c 34); [|done].
    destruct (parse_string_body r0) as [[k r1]|]; [simpl|done].
    destruct (skip_ws r1) as [|c1 r2]; [done|]. destruct (is_char c1 58); [|done].
    destruct (pvalue f r2) as [[x r3]|] eqn:E; [simpl|done]. pose proof (IHv _ _ _ E) as Hx.
    destruct (skip_ws r3) as [|c3 r4]; [done|].
    destruct (is_char c3 44); [apply IHm; apply Forall_app; split; [done|by constructor]|].
    destruct (is_char c3 125); [|done]. intros [= <- _].
    apply json_printable_obj, Forall_app. split; [done|by constructor].
Qed.

(** Every value [JSON.parse] returns has reduced terminating decimals as
    numbers: [JSON.stringify] then [JSON.parse] gives it back. *)
Lemma json_parse_printable t v : json_parse t = Some v → json_printable v.
Proof.
  unfold json_parse. destruct (pvalue _ t) as [[v' r]|] eqn:E; [simpl|done].
  destruct (skip_ws r); [intros [= <-]|done]. exact (proj1 (parse_printable _) _ _ _ E).
Qed.

Lemma json_parse_stringify_parse t v :
  json_parse t = Some v → json_parse (json_stringify v) = Some v.
Proof. intros H. by apply json_parse_print, (json_parse_printable t). Qed.

(** Integers are printable numbers. *)
Lemma json_printable_Z z : json_printable (JNum (inject_Z z)).
Proof.
  simpl. apply andb_True. split; [|done].
  unfold q_reduced, Qred, inject_Z. cbn [Qnum Qden].
  pose proof (Z.ggcd_correct_divisors z 1) as Hc. pose proof (Z.ggcd_gcd z 1) as Hg.
  destruct (Z.ggcd z 1) as [g [aa bb]]. simpl in *. rewrite Z.gcd_1_r in Hg. subst g.
  destruct Hc as [Ha Hb]. assert (aa = z) as -> by lia. assert (bb = 1%Z) as -> by lia.
  by rewrite Z.eqb_refl.
Qed.
