(* ===== verification/UriCode.v ===== *)
(** * [decodeURIComponent] and [encodeURIComponent]

    Express 4 decodes every route parameter with [decode_param]
    (router/layer.js), that is [decodeURIComponent], and answers 400 with
    the [URIError] when it throws.  This file models the ECMAScript
    [Decode] operation with an empty reserved set: a [%] must be followed
    by two hex digits; an octet below [0x80] is that character; an octet
    with [n] leading one bits ([n] of 2, 3 or 4) must be followed by
    [n - 1] escaped continuation octets [10xxxxxx], and the octets must be
    the UTF-8 encoding of a code point (no overlong form, no surrogate,
    nothing above U+10FFFF).  Every other case throws.  The model's strings
    are 8-bit: text that is not ASCII is represented by its UTF-8 octets,
    so a decoded multi-octet character is its octets.  [encode_uri_component]
    is [encodeURIComponent] on such strings (every octet outside the
    unreserved marks escaped with two uppercase hex digits), the way a
    client builds a path from an id. *)

From S2P Require Import Prelude JsonText.
Close Scope Q_scope.

Module UriCode.

Local Open Scope Z_scope.

(** ** Decoding *)

(** The scanning part of [Decode]: literal characters, and the octets of
    the [%XX] escapes. *)
Inductive token : Type :=
| Lit (c : Ascii.ascii)
| Pct (b : Z).

Definition hex_octet (h1 h2 : Ascii.ascii) : option Z :=
  v1 ← hex_value h1; v2 ← hex_value h2; Some (Z.of_N (v1 * 16 + v2)%N).

(** A [%] not followed by two hex digits throws. *)
Fixpoint tokens (l : list Ascii.ascii) : option (list token) :=
  match l with
  | [] => Some []
  | c :: r =>
      if Ascii.eqb c "%" then
        match r with
        | h1 :: h2 :: r' => b ← hex_octet h1 h2; ts ← tokens r'; Some (Pct b :: ts)
        | _ => None
        end
      else ts ← tokens r; Some (Lit c :: ts)
  end.

(** The number [n] of leading one bits of the first octet of a sequence,
    when it is 2, 3 or 4; [None] for [n = 1] or [n > 4], which throw. *)
Definition lead_count (b : Z) : option nat :=
  if Z.land b 0xE0 =? 0xC0 then Some 2%nat
  else if Z.land b 0xF0 =? 0xE0 then Some 3%nat
  else if Z.land b 0xF8 =? 0xF0 then Some 4%nat
  else None.

Definition is_cont (b : Z) : bool := Z.land b 0xC0 =? 0x80.

Definition cont_bits (b : Z) : Z := Z.land b 0x3F.

(** The code point of a 2, 3 or 4 octet sequence, and the ranges that
    make it a valid UTF-8 encoding (RFC 3629). *)
Definition valid2 (b0 b1 : Z) : bool :=
  0x80 <=? Z.lor (Z.shiftl (Z.land b0 0x1F) 6) (cont_bits b1).

Definition valid3 (b0 b1 b2 : Z) : bool :=
  let v := Z.lor (Z.lor (Z.shiftl (Z.land b0 0x0F) 12) (Z.shiftl (cont_bits b1) 6)) (cont_bits b2) in
  (0x800 <=? v) && negb ((0xD800 <=? v) && (v <=? 0xDFFF)).

Definition valid4 (b0 b1 b2 b3 : Z) : bool :=
  let v := Z.lor (Z.lor (Z.lor (Z.shiftl (Z.land b0 0x07) 18) (Z.shiftl (cont_bits b1) 12))
                        (Z.shiftl (cont_bits b2) 6)) (cont_bits b3) in
  (0x10000 <=? v) && (v <=? 0x10FFFF).

Definition octet (b : Z) : Ascii.ascii := Ascii.ascii_of_N (Z.to_N b).

(** The decoding loop of [Decode] on the tokens. *)
Fixpoint utf8_decode (ts : list token) : option (list Ascii.ascii) :=
  match ts with
  | [] => Some []
  | Lit c :: r => rest ← utf8_decode r; Some (c :: rest)
  | Pct b :: r =>
      if b <? 0x80 then rest ← utf8_decode r; Some (octet b :: rest)
      else
        match lead_count b, r with
        | Some 2%nat, Pct b1 :: r' =>
            if is_cont b1 && valid2 b b1 then
              rest ← utf8_decode r'; Some (octet b :: octet b1 :: rest)
            else None
        | Some 3%nat, Pct b1 :: Pct b2 :: r' =>
            if is_cont b1 && is_cont b2 && valid3 b b1 b2 then
              rest ← utf8_decode r'; Some (octet b :: octet b1 :: octet b2 :: rest)
            else None
        | Some 4%nat, Pct b1 :: Pct b2 :: Pct b3 :: r' =>
            if is_cont b1 && is_cont b2 && is_cont b3 && valid4 b b1 b2 b3 then
              rest ← utf8_decode r'; Some (octet b :: octet b1 :: octet b2 :: octet b3 :: rest)
            else None
        | _, _ => None
        end
  end.

(** [decodeURIComponent(s)]; [None] is the [URIError]. *)
Definition decode_uri_component (s : string) : option string :=
  ts ← tokens (String.list_ascii_of_string s);
  l ← utf8_decode ts;
  Some (String.string_of_list_ascii l).

(** ** Encoding *)

(** The characters [encodeURIComponent] leaves as they are: ASCII letters
    and digits and [- _ . ! ~ * ' ( )]. *)
Definition unreserved (c : Ascii.ascii) : bool :=
  let n := Ascii.N_of_ascii c in
  ((65 <=? n) && (n <=? 90))%N || ((97 <=? n) && (n <=? 122))%N || ((48 <=? n) && (n <=? 57))%N ||
  bool_decide (c ∈ ["-"; "_"; "."; "!"; "~"; "*"; "'"; "("; ")"]%char).

Definition upper_hex (n : N) : Ascii.ascii :=
  if (n <? 10)%N then Ascii.ascii_of_N (48 + n) else Ascii.ascii_of_N (55 + n).

Definition escape (c : Ascii.ascii) : list Ascii.ascii :=
  let n := Ascii.N_of_ascii c in
  ["%"%char; upper_hex (N.div n 16); upper_hex (N.modulo n 16)].

Definition encode_uri_component (s : string) : string :=
  String.string_of_list_ascii
    (List.concat (map (λ c, if unreserved c then [c] else escape c) (String.list_ascii_of_string s))).

(** ** Lemmas *)

Definition is_ascii (c : Ascii.ascii) : bool := (Ascii.N_of_ascii c <? 128)%N.

Lemma escape_tokens c r ts :
  tokens r = Some ts → tokens (escape c ++ r) = Some (Pct (Z.of_N (Ascii.N_of_ascii c)) :: ts).
Proof.
  intros Hr. cbn [escape app tokens]. change (Ascii.eqb "%" "%") with true. cbv iota.
  rewrite Hr. unfold hex_octet.
  destruct_ascii c; vm_compute; reflexivity.
Qed.

Lemma unreserved_tokens c r ts :
  unreserved c = true → tokens r = Some ts → tokens (c :: r) = Some (Lit c :: ts).
Proof.
  intros Hu Hr. cbn [tokens]. rewrite Hr.
  destruct (Ascii.eqb c "%") eqn:E; [|done].
  apply Ascii.eqb_eq in E. subst. discriminate.
Qed.

Lemma tokens_encode (l : list Ascii.ascii) :
  tokens (List.concat (map (λ c, if unreserved c then [c] else escape c) l)) =
  Some (map (λ c, if unreserved c then Lit c else Pct (Z.of_N (Ascii.N_of_ascii c))) l).
Proof.
  induction l as [|c l IH]; [done|]. cbn [map List.concat].
  destruct (unreserved c) eqn:Hu.
  - by apply unreserved_tokens.
  - by apply escape_tokens.
Qed.

Lemma ascii_octet c : is_ascii c = true → octet (Z.of_N (Ascii.N_of_ascii c)) = c ∧ (Z.of_N (Ascii.N_of_ascii c) <? 0x80) = true.
Proof. destruct_ascii c; vm_compute; try discriminate; done. Qed.

Lemma utf8_decode_ascii (l : list Ascii.ascii) :
  Forall (λ c, is_ascii c = true) l →
  utf8_decode (map (λ c, if unreserved c then Lit c else Pct (Z.of_N (Ascii.N_of_ascii c))) l) = Some l.
Proof.
  induction 1 as [|c l Hc _ IH]; [done|]. cbn [map utf8_decode].
  destruct (unreserved c); [by rewrite IH|].
  destruct (ascii_octet c Hc) as [-> ->]. by rewrite IH.
Qed.

(** Text without [%] decodes to itself. *)
Lemma tokens_no_pct (l : list Ascii.ascii) :
  Forall (λ c, Ascii.eqb c "%" = false) l → tokens l = Some (Lit <$> l).
Proof. induction 1 as [|c l Hc _ IH]; [done|]. cbn [tokens]. by rewrite Hc, IH. Qed.

Lemma utf8_decode_lits (l : list Ascii.ascii) : utf8_decode (Lit <$> l) = Some l.
Proof. induction l as [|c l IH]; [done|]. cbn. by rewrite IH. Qed.

Lemma decode_no_pct s :
  Forall (λ c, Ascii.eqb c "%" = false) (String.list_ascii_of_string s) →
  decode_uri_component s = Some s.
Proof.
  intros H. unfold decode_uri_component. rewrite tokens_no_pct by done.
  cbn [mbind option_bind]. rewrite utf8_decode_lits. cbn.
  by rewrite String.string_of_list_ascii_of_string.
Qed.

Lemma list_ascii_encode s :
  String.list_ascii_of_string (encode_uri_component s) =
  List.concat (map (λ c, if unreserved c then [c] else escape c) (String.list_ascii_of_string s)).
Proof. apply String.list_ascii_of_string_of_list_ascii. Qed.

(** [decodeURIComponent(encodeURIComponent(s)) = s] on ASCII text. *)
Lemma decode_encode_ascii s :
  Forall (λ c, is_ascii c = true) (String.list_ascii_of_string s) →
  decode_uri_component (encode_uri_component s) = Some s.
Proof.
  intros H. unfold decode_uri_component. rewrite list_ascii_encode, tokens_encode.
  cbn [mbind option_bind]. rewrite utf8_decode_ascii by done. cbn.
  by rewrite String.string_of_list_ascii_of_string.
Qed.

(** Text made of ASCII characters. *)
Definition ascii_text (s : string) : Prop :=
  Forall (λ c, is_ascii c = true) (String.list_ascii_of_string s).

Lemma encode_nonempty s : s ≠ ""%string → encode_uri_component s ≠ ""%string.
Proof.
  intros Hs He. apply (f_equal String.list_ascii_of_string) in He.
  rewrite list_ascii_encode in He. destruct s as [|c s]; [done|]. cbn in He.
  by destruct (unreserved c).
Qed.

(** An escape that is not followed by two hex digits throws. *)
Example decode_truncated : decode_uri_component "%E" = None.
Proof. reflexivity. Qed.

(** A lone continuation octet, an overlong form and an encoded surrogate
    throw; a two-octet character decodes to its octets. *)
Example decode_utf8_cases :
  decode_uri_component "%80" = None ∧ decode_uri_component "%C0%AF" = None ∧
  decode_uri_component "%ED%A0%80" = None ∧ decode_uri_component "%E0" = None ∧
  decode_uri_component "%C3%A9" = Some (String (octet 0xC3) (String (octet 0xA9) EmptyString)) ∧
  decode_uri_component "a%2Fb" = Some "a/b".
Proof. split_and!; reflexivity. Qed.

End UriCode.
