(* ===== verification/App.v ===== *)
(** * The Express application of [src/app.js]: middleware, routing, steps

    A request goes through [express.json()] (its body parsed, [{}] when it
    carries no JSON, a 413 or 415 when it is too large or not in a [utf-*]
    charset), then the [cors] middleware (the origin callback of
    [Cors]; a refusal becomes a 500 from Express's error handler, and an
    allowed [OPTIONS] preflight is answered 204), then the routes in the
    order they are registered, matched on the path as sent, with [:id]
    decoded by [decode_param] (a 400 [URIError] when it cannot be).  [handle] is that whole pipeline on one
    request and the store, with the 16 random bytes [crypto.randomUUID()]
    would draw as an argument.  [server_step] is one request handled to completion;
    requests are handled one after the other (Node's event loop runs a
    handler to its end without interleaving: every handler here is
    synchronous), so the server's runs are the sequences of steps
    ([reachable]).  [fresh_reachable] restricts the generated ids to fresh
    ones, the assumption under which ids stay distinct.  [handle_cached]
    and [cached_reachable] add [randomUUID]'s entropy cache to the state,
    and [cached_step_refines] shows their runs are runs of [server_step]. *)

From S2P Require Import Prelude JsValue JsonText Url Schema Store Uuid Cors UriCode.
Close Scope Q_scope.
#[local] Set Warnings "-clear-no-such-hyp".

Inductive http_method : Type :=
| GET | HEAD | POST | PATCH | DELETE | OPTIONS | PUT
| OtherMethod (name : string).

(** What [express.json()] reads of the body: a JSON text it parsed, no
    JSON body ([req.body] is then [{}], as body-parser 1 of Express 4 sets
    it), text [JSON.parse] rejects, a body over the size limit (413), a
    charset other than [utf-*] (415), or a [utf-*] charset iconv-lite
    cannot decode (415). *)
Inductive body_input : Type :=
| BodyJson (v : jval)
| BodyNone
| BodyMalformed
| BodyTooLarge
| BodyBadCharset (charset : string)
| BodyBadEncoding (charset : string).

(** A request: method, the path segments after the leading [/] as they
    are sent, percent-escapes included ([/] is [[""]], [/movies/] is
    [["movies"; ""]]), the [genre] query
    parameter, the body and the [Origin] header. *)
Record request : Type := mk_request {
  req_method : http_method;
  req_path : list string;
  req_genre : option query_val;
  req_body : body_input;
  req_origin : option string
}.

Inductive http_response : Type :=
| Json (r : response)
| Empty (status : Z)
| ErrorPage (status : Z) (msg : string).

(** ** Route matching (path-to-regexp, non-strict, case-insensitive) *)

Definition movies_seg (x : string) : bool := String.eqb (to_lower_case x) "movies".

(** ['/'] *)
Definition match_root (p : list string) : bool :=
  match p with [""] => true | _ => false end.

(** ['/movies'] and ['/movies/'] both compile to [^\/movies\/?$]. *)
Definition match_movies (p : list string) : bool :=
  match p with
  | [x] => movies_seg x
  | [x; ""] => movies_seg x
  | _ => false
  end.

(** ['/movies/:id']: [^\/movies\/(?:([^\/]+?))\/?$] on the path as sent;
    the capture before decoding. *)
Definition match_id_raw (p : list string) : option string :=
  let m x id := if movies_seg x && js_truthy_string id then Some id else None in
  match p with
  | [x; id] => m x id
  | [x; id; ""] => m x id
  | _ => None
  end.

(** [req.params.id]: the capture after [decode_param]. *)
Definition match_movies_id (p : list string) : option string :=
  raw ← match_id_raw p; UriCode.decode_uri_component raw.

(** The capture [decode_param] fails on: [Layer.match] throws, the router
    keeps the error and, as no later layer matches, passes it to Express's
    error handler, whatever the method. *)
Definition undecodable_param (p : list string) : option string :=
  match match_id_raw p with
  | Some raw => match UriCode.decode_uri_component raw with None => Some raw | Some _ => None end
  | None => None
  end.

(** The error page of [decode_param]'s [URIError], status 400. *)
Definition param_error_page (raw : string) : http_response :=
  ErrorPage 400 ("URIError: Failed to decode param '" +:+ raw +:+ "'").

Definition body_value (b : body_input) : jval :=
  match b with BodyJson v => v | _ => JObj [] end.

(** [express.json()] is strict by default: it accepts only a text whose
    first character is [{] or [[], an object or an array. *)
Definition strict_json (v : jval) : bool :=
  match v with JObj _ | JArr _ => true | _ => false end.

(** The bodies [express.json()] answers with a 400 [SyntaxError] before any
    later middleware runs. *)
Definition body_rejected (b : body_input) : bool :=
  match b with
  | BodyMalformed | BodyTooLarge | BodyBadCharset _ | BodyBadEncoding _ => true
  | BodyJson v => negb (strict_json v)
  | BodyNone => false
  end.

Definition dquote_str : string := String (Ascii.ascii_of_nat 34) EmptyString.

(** Express's error page for a body [express.json()] rejects: the error's
    [status] and its name and message ([createError(413, 'request entity
    too large')] in raw-body, [createError(415, 'unsupported charset
    ...')] in body-parser). *)
Definition body_error_page (b : body_input) : http_response :=
  match b with
  | BodyTooLarge => ErrorPage 413 "PayloadTooLargeError: request entity too large"
  | BodyBadCharset cs =>
      ErrorPage 415 ("UnsupportedMediaTypeError: unsupported charset " +:+ dquote_str +:+
                     to_upper_case cs +:+ dquote_str)
  | BodyBadEncoding _ => ErrorPage 415 "UnsupportedMediaTypeError: specified encoding unsupported"
  | _ => ErrorPage 400 "SyntaxError"
  end.

(** [parse(body)] of body-parser's [json] parser on the text read: an
    empty body is [{}]; in strict mode the first character after
    whitespace must be [{] or [[] ([firstchar]), or the request fails with
    a [SyntaxError]; otherwise the body is what [JSON.parse] returns, and
    a text it rejects is a [SyntaxError] too. *)
Definition parse_body (raw : list Ascii.ascii) : body_input :=
  match raw with
  | [] => BodyNone
  | _ =>
      match skip_ws raw with
      | c :: _ =>
          if is_char c 123 || is_char c 91 then
            match json_parse raw with Some v => BodyJson v | None => BodyMalformed end
          else BodyMalformed
      | [] => BodyMalformed
      end
  end.

(** The default [limit] of [express.json()]: [bytes.parse('100kb')]. *)
Definition json_limit : nat := 100 * 1024.

(** [getCharset(req) || 'utf-8']: the [charset] parameter of the
    [Content-Type], lower-cased, or [utf-8] when absent or empty. *)
Definition body_charset (charset : option string) : string :=
  match charset with
  | Some cs => if String.eqb cs "" then "utf-8" else to_lower_case cs
  | None => "utf-8"
  end.

(** iconv-lite's canonical name of an encoding: lower case, only letters
    and digits kept. *)
Definition iconv_canonical (cs : string) : string :=
  String.string_of_list_ascii
    (filter (λ c, Url.is_alpha c = true ∨ Url.is_digit c = true) (String.list_ascii_of_string (to_lower_case cs))).

(** The Unicode encodings of iconv-lite 0.4.24 (body-parser 1.20's
    dependency) whose names start with [utf]. *)
Definition iconv_known (cs : string) : bool :=
  bool_decide (iconv_canonical cs ∈ ["utf8"; "utf16le"; "utf16be"; "utf16"; "utf7"; "utf7imap"]%string).

(** [jsonParser(req, res, next)], the middleware [express.json()]
    installs: a request without a body ([typeis.hasBody]) or whose
    [Content-Type] is not JSON ([shouldParse]) keeps [req.body = {}];
    then the charset must start with [utf-] (415), raw-body's [read]
    fails with 413 on more than [limit] bytes, then with 415 when iconv
    has no decoder for the charset, and the text read goes to [parse]. *)
Definition json_parser (has_body is_json : bool) (charset : option string)
    (raw : list Ascii.ascii) : body_input :=
  if negb has_body then BodyNone
  else if negb is_json then BodyNone
  else
    let cs := body_charset charset in
    if negb (String.prefix "utf-" cs) then BodyBadCharset cs
    else if json_limit <? length raw then BodyTooLarge
    else if negb (iconv_known cs) then BodyBadEncoding cs
    else parse_body raw.

(** body-parser's strict check looks at the first character only; it
    agrees with parsing first and keeping objects and arrays. *)
Lemma parse_body_by_value raw :
  parse_body raw =
  match raw with
  | [] => BodyNone
  | _ => match json_parse raw with
         | Some v => if strict_json v then BodyJson v else BodyMalformed
         | None => BodyMalformed
         end
  end.
Proof.
  unfold parse_body. destruct raw as [|c0 t]; [done|].
  destruct (json_parse (c0 :: t)) as [v|] eqn:Hp;
    [pose proof (json_parse_first_char _ _ Hp) as Hf|];
    destruct (skip_ws (c0 :: t)) as [|c r]; try done.
  destruct (is_char c 123) eqn:E1; [destruct Hf as [? ->]; done|].
  destruct (is_char c 91) eqn:E2; [destruct Hf as [? ->]; done|].
  destruct Hf as [Ho Ha]. destruct v; try done; [by destruct (Ha _ eq_refl)|by destruct (Ho _ eq_refl)].
  by destruct (_ || _).
Qed.

(** C37: body-parser's strict mode decides on the first character of the
    text, before parsing; this is the same as parsing the text and keeping
    only objects and arrays: an empty body is [{}], a text [JSON.parse]
    rejects or whose value is a string, number, boolean or null is a
    [SyntaxError], and any other text is the object or array it denotes. *)
Theorem parse_body_strict raw :
  parse_body raw =
  match raw with
  | [] => BodyNone
  | _ => match json_parse raw with
         | Some v => if strict_json v then BodyJson v else BodyMalformed
         | None => BodyMalformed
         end
  end.
Proof. apply parse_body_by_value. Qed.

(** Express's answer when a handler throws. *)
Definition thrown (e : js_error) : http_response :=
  match e with TypeError msg => ErrorPage 500 ("TypeError: " +:+ msg) end.

(** The GET routes, in registration order. *)
Definition route_get (req : request) (s : store) : option http_response :=
  if match_root (req_path req) then Some (Json get_root)
  else if match_movies (req_path req) then
    Some (match get_movies (req_genre req) s with JsOk r => Json r | JsThrow e => thrown e end)
  else match match_movies_id (req_path req) with
       | Some id => Some (Json (get_movie id s))
       | None => None
       end.

(** The routes, after the middleware; the POST route's id is
    [crypto.randomUUID()] on the random bytes [rnd]. *)
Definition route (rnd : list Z) (req : request) (s : store) : option (http_response * store) :=
  let b := body_value (req_body req) in
  let uuid := Uuid.random_uuid rnd in
  match req_method req with
  | GET => (λ r, (r, s)) <$> route_get req s
  | HEAD =>
      (λ r, (match r with Json r' => Empty (status r') | _ => r end, s)) <$> route_get req s
  | POST =>
      if match_movies (req_path req)
      then Some (Json (post_movie uuid b s).1, (post_movie uuid b s).2) else None
  | PATCH =>
      (λ id, (Json (patch_movie id b s).1, (patch_movie id b s).2)) <$> match_movies_id (req_path req)
  | DELETE =>
      (λ id, (Json (delete_movie id s).1, (delete_movie id s).2)) <$> match_movies_id (req_path req)
  | _ => None
  end.

(** The whole application on one request. *)
Definition handle (rnd : list Z) (req : request) (s : store) : http_response * store :=
  if body_rejected (req_body req) then (body_error_page (req_body req), s)
  else
    match Cors.origin_callback (req_origin req) with
    | Cors.Refuse msg => (ErrorPage 500 ("Error: " +:+ msg), s)
    | Cors.Allow =>
        match req_method req with
        | OPTIONS => (Empty 204, s)
        | _ =>
            match undecodable_param (req_path req) with
            | Some raw => (param_error_page raw, s)
            | None => default (ErrorPage 404 "Cannot handle", s) (route rnd req s)
            end
        end
    end.

(** The CORS headers of the answer ([Access-Control-Allow-Origin],
    [Vary], and on a preflight the methods and headers), given the
    request's [Access-Control-Request-Headers].  [express.json()] runs
    before [cors]: a body it rejects ends the pipeline before [cors] sets
    anything. *)
Definition answer_cors_headers (req : request) (request_headers : option string) : list Cors.header :=
  if body_rejected (req_body req) then []
  else
    Cors.response_headers (match req_method req with OPTIONS => true | _ => false end)
      (req_origin req) request_headers.

(** ** Runs of the server *)

(** The 16 bytes the entropy source gives [crypto.randomUUID()]. *)
Definition random_bytes (rnd : list Z) : Prop := length rnd = 16 ∧ Forall Uuid.is_byte rnd.

(** One request handled to completion, with the random bytes drawn for it. *)
Inductive server_step : store → request → http_response → store → Prop :=
| step_handle rnd req s :
    random_bytes rnd → server_step s req (handle rnd req s).1 (handle rnd req s).2.

Inductive reachable (seed : store) : store → Prop :=
| reach_seed : reachable seed seed
| reach_step s req r s' : reachable seed s → server_step s req r s' → reachable seed s'.

Lemma reachable_trans a b c : reachable a b → reachable b c → reachable a c.
Proof.
  intros Hab Hbc. induction Hbc as [|s req r s' _ IH Hstep]; [done|].
  by eapply reach_step.
Qed.

(** The runs in which every generated id differs from the ids in the store. *)
Inductive fresh_reachable (seed : store) : store → Prop :=
| freach_seed : fresh_reachable seed seed
| freach_step rnd req s :
    fresh_reachable seed s → random_bytes rnd → Uuid.random_uuid rnd ∉ ids s →
    fresh_reachable seed (handle rnd req s).2.

(** ** What a step does to the store *)

(** Only the POST, PATCH and DELETE routes change the store, each through
    its handler. *)
Lemma handle_store rnd req s :
  let b := body_value (req_body req) in
  (handle rnd req s).2 = s ∨
  (handle rnd req s).2 = (post_movie (Uuid.random_uuid rnd) b s).2 ∨
  (∃ id, (handle rnd req s).2 = (patch_movie id b s).2) ∨
  (∃ id, (handle rnd req s).2 = (delete_movie id s).2).
Proof.
  unfold handle, route.
  destruct (body_rejected _); try (by left); destruct (Cors.origin_callback _); try (by left);
    destruct (req_method req); try (by left).
  all: destruct (undecodable_param _); [by left|].
  all: first
    [ destruct (route_get req s); by left
    | destruct (match_movies _); simpl; [right; left; done|by left]
    | destruct (match_movies_id _); simpl; [right; right; (left + right); by eexists|by left] ].
Qed.

Lemma reachable_records_valid seed s :
  records_ok seed → reachable seed s → records_ok s.
Proof.
  intros Hseed Hr. induction Hr as [|s req r s' Hr IH Hstep]; [done|].
  inversion Hstep; subst.
  destruct (handle_store rnd req s) as [->|[->|[[id ->]|[id ->]]]];
    eauto using post_movie_records_ok, patch_movie_records_ok, delete_movie_records_ok.
Qed.

(** C14: in every run of the server from a seed whose records satisfy the
    schema, every stored record satisfies it. *)
Theorem reachable_records_ok seed s :
  records_ok seed → reachable seed s → records_ok s.
Proof. apply reachable_records_valid. Qed.

(** C13: in every run in which each generated id is fresh, ids stay
    distinct and records valid. *)
Theorem fresh_reachable_inv seed s :
  store_inv seed → fresh_reachable seed s → store_inv s.
Proof.
  intros Hseed Hr. induction Hr as [|rnd req s Hr IH Hrnd Hfresh]; [done|].
  destruct (handle_store rnd req s) as [->|[->|[[id ->]|[id ->]]]];
    eauto using post_movie_store_inv, patch_movie_store_inv, delete_movie_store_inv.
Qed.

(** Every id a step leaves in the store was there before or is the one
    generated for the step. *)
Lemma handle_ids rnd req s :
  Forall (λ x, x ∈ ids s ∨ x = Uuid.random_uuid rnd) (ids (handle rnd req s).2).
Proof.
  apply Forall_forall. intros x.
  destruct (handle_store rnd req s) as [->|[->|[[id ->]|[id ->]]]]; [by left| | |].
  - destruct (post_movie_store (Uuid.random_uuid rnd) (body_value (req_body req)) s)
      as [->|[d ->]]; [by left|].
    rewrite ids_app. set_solver.
  - destruct (patch_movie_store id (body_value (req_body req)) s)
      as [->|(p & i & m & _ & Hi & ->)]; [by left|].
    rewrite (ids_insert_same _ i m) by done. by left.
  - destruct (delete_movie_store id s) as [->|(i & m & _ & ->)]; [by left|].
    unfold ids. rewrite list_fmap_delete. intros Hx. left.
    eapply elem_of_sublist; [exact Hx|apply sublist_delete].
Qed.

(** The ids of the store are all version-4 UUID texts. *)
Definition ids_uuid (s : store) : Prop := Forall (λ x, Uuid.uuid_v4_format x = true) (ids s).

(** C19: in every run from a seed whose ids are version-4 UUIDs, every stored
    id is one: the ids [POST /movies] generates have the form
    [xxxxxxxx-xxxx-4xxx-Vxxx-xxxxxxxxxxxx], and PATCH and DELETE never
    change an id. *)
Theorem reachable_ids_uuid seed s :
  ids_uuid seed → reachable seed s → ids_uuid s.
Proof.
  intros Hseed Hr. induction Hr as [|s req r s' Hr IH Hstep]; [done|].
  inversion Hstep as [rnd ? ? Hrnd]; subst. destruct Hrnd as [Hlen Hb].
  eapply Forall_impl; [apply handle_ids|]. intros x [Hx | ->].
  - by eapply Forall_forall in IH.
  - by apply Uuid.random_uuid_format.
Qed.

(** ** The server with Node's entropy cache

    The server's state is the store and [randomUUID]'s cache.  The cache
    advances exactly when the handler calls [crypto.randomUUID()]: on a
    request that passes [express.json()] and [cors], reaches the POST
    route and whose body [validateMovie] accepts ([draws_uuid]).  [fill]
    is what [randomFillSync] writes if this call refills. *)
Definition draws_uuid (req : request) : bool :=
  negb (body_rejected (req_body req)) &&
  match Cors.origin_callback (req_origin req) with Cors.Allow => true | _ => false end &&
  match req_method req with POST => match_movies (req_path req) | _ => false end &&
  match validate_full (body_value (req_body req)) with ParseSuccess _ => true | _ => false end.

(** One request with the cache: the id is the one [getBufferedUUID]
    returns, the 16 bytes it serialises. *)
Definition handle_cached (fill : list Z) (req : request) (st : store * Uuid.uuid_cache)
    : http_response * (store * Uuid.uuid_cache) :=
  let '(s, c) := st in
  let c1 := (Uuid.get_buffered_uuid fill c).2 in
  let rnd := Uuid.slice (Uuid.uuid_data c1) (Uuid.uuid_batch c1 * 16) in
  ((handle rnd req s).1, ((handle rnd req s).2, if draws_uuid req then c1 else c)).

Inductive cached_reachable (seed : store) : store * Uuid.uuid_cache → Prop :=
| creach_seed : cached_reachable seed (seed, Uuid.initial_cache)
| creach_step fill req st :
    Uuid.fill_ok fill → cached_reachable seed st →
    cached_reachable seed (handle_cached fill req st).2.

Lemma handle_cached_sim fill req s c :
  Uuid.fill_ok fill → Uuid.cache_ok c →
  Uuid.cache_ok (handle_cached fill req (s, c)).2.2 ∧
  ∃ rnd, random_bytes rnd ∧ Uuid.random_uuid rnd = (Uuid.get_buffered_uuid fill c).1 ∧
    handle_cached fill req (s, c) =
      ((handle rnd req s).1,
       ((handle rnd req s).2, if draws_uuid req then (Uuid.get_buffered_uuid fill c).2 else c)).
Proof.
  intros Hf Hc.
  destruct (Uuid.get_buffered_uuid_refines fill c Hf Hc) as [Hc1 (rnd & Hl & Hb & Hu & Hr)].
  split.
  - unfold handle_cached. cbn [snd]. by destruct (draws_uuid req).
  - exists rnd. split_and!; [by split|done|]. unfold handle_cached. by rewrite <- Hr.
Qed.

(** ** Where the handler uses the id

    [draws_uuid] is the condition under which [app.post] reaches
    [crypto.randomUUID()]: on the other requests the answer and the store
    do not depend on the random bytes, and on these the new record's id
    is [randomUUID] of them. *)
Section uuid_use.
Variable req : request.

Lemma match_movies_param p : match_movies p = true → undecodable_param p = None.
Proof.
  unfold match_movies, undecodable_param, match_id_raw. intros H.
  destruct p as [|x [|y [|z p]]]; try done; destruct y; try congruence.
  by rewrite andb_false_r.
Qed.

Lemma handle_no_draw rnd rnd' s :
  draws_uuid req = false → handle rnd req s = handle rnd' req s.
Proof.
  unfold draws_uuid, handle, route. intros Hd.
  destruct (body_rejected _); [done|]. destruct (Cors.origin_callback _); [|done].
  destruct (req_method req); try done; destruct (undecodable_param _); try done.
  destruct (match_movies _); [|done]. unfold post_movie.
  destruct (validate_full _); [discriminate|done].
Qed.

Lemma handle_draw rnd s :
  draws_uuid req = true →
  ∃ d, handle rnd req s =
    (Json (mk_response 201 (BMovie (mk_movie (Uuid.random_uuid rnd) d))),
     s ++ [mk_movie (Uuid.random_uuid rnd) d]).
Proof.
  unfold draws_uuid, handle, route.
  destruct (body_rejected _); [done|]. destruct (Cors.origin_callback _); [|done].
  destruct (req_method req); try done.
  destruct (match_movies _) eqn:Em; [|done]. rewrite match_movies_param by done.
  unfold post_movie. destruct (validate_full _) as [d|]; [|done]. intros _. by exists d.
Qed.

End uuid_use.

Lemma handle_cached_refines fill req s c :
  Uuid.fill_ok fill → Uuid.cache_ok c →
  let st := handle_cached fill req (s, c) in
  Uuid.cache_ok st.2.2 ∧ server_step s req st.1 st.2.1 ∧
  (draws_uuid req = true →
     st.2.2 = (Uuid.get_buffered_uuid fill c).2 ∧
     ∃ d, st.1 = Json (mk_response 201 (BMovie (mk_movie (Uuid.get_buffered_uuid fill c).1 d))) ∧
          st.2.1 = s ++ [mk_movie (Uuid.get_buffered_uuid fill c).1 d]) ∧
  (draws_uuid req = false → st.2.2 = c ∧ ∀ rnd, st.1 = (handle rnd req s).1 ∧ st.2.1 = (handle rnd req s).2).
Proof.
  intros Hf Hc st. destruct (handle_cached_sim fill req s c Hf Hc) as [Hc' (rnd & Hrnd & Hu & E)].
  subst st. rewrite E. cbn [fst snd]. split_and!.
  - by rewrite E in Hc'.
  - by constructor.
  - intros Hd. rewrite Hd. split; [done|].
    destruct (handle_draw req rnd s Hd) as [d ->]. exists d. by rewrite Hu.
  - intros Hd. rewrite Hd. split; [done|]. intros rnd'. by rewrite (handle_no_draw req rnd rnd' s Hd).
Qed.

(** C5: with Node's entropy cache, each request is one step of the
    server ([server_step]) and the cache stays well formed.  When the
    handler calls [crypto.randomUUID()] ([draws_uuid]: a POST /movies that
    passed [express.json()] and [cors] with a body [validateMovie]
    accepts), the cache advances as [getBufferedUUID] does and the answer
    is 201 with a new record whose id is the one [getBufferedUUID]
    returns; on every other request the cache is unchanged and the answer
    and store do not depend on the random bytes. *)
Theorem cached_step_refines fill req s c :
  Uuid.fill_ok fill → Uuid.cache_ok c →
  let st := handle_cached fill req (s, c) in
  Uuid.cache_ok st.2.2 ∧ server_step s req st.1 st.2.1 ∧
  (draws_uuid req = true →
     st.2.2 = (Uuid.get_buffered_uuid fill c).2 ∧
     ∃ d, st.1 = Json (mk_response 201 (BMovie (mk_movie (Uuid.get_buffered_uuid fill c).1 d))) ∧
          st.2.1 = s ++ [mk_movie (Uuid.get_buffered_uuid fill c).1 d]) ∧
  (draws_uuid req = false → st.2.2 = c ∧ ∀ rnd, st.1 = (handle rnd req s).1 ∧ st.2.1 = (handle rnd req s).2).
Proof. apply handle_cached_refines. Qed.

(** Every run with the cache is a run of [server_step]: the theorems on
    [reachable] hold for the server as Node runs it. *)
Lemma cached_reachable_sound seed s c :
  cached_reachable seed (s, c) → reachable seed s ∧ Uuid.cache_ok c.
Proof.
  remember (s, c) as st eqn:Est. intros Hr. revert s c Est.
  induction Hr as [|fill req [s0 c0] Hf Hr IH]; intros s c Est.
  - injection Est as <- <-. split; [constructor|apply Uuid.initial_cache_ok].
  - destruct (IH s0 c0 eq_refl) as [Hs0 Hc0].
    destruct (handle_cached_sim fill req s0 c0 Hf Hc0) as [Hc1 (rnd & Hrnd & _ & E)].
    rewrite Est in Hc1. cbn [snd] in Hc1. split; [|done].
    rewrite E in Est. injection Est as <- _.
    eapply reach_step; [exact Hs0|]. by constructor.
Qed.

(** C24: a request whose body [express.json()] accepts and whose origin
    the CORS callback refuses reaches no route, whatever its method
    (preflight included): Express's error handler answers 500 with the
    callback's error and the store is unchanged. *)
Theorem handle_cors_refused rnd req s msg :
  body_rejected (req_body req) = false → Cors.origin_callback (req_origin req) = Cors.Refuse msg →
  handle rnd req s = (ErrorPage 500 ("Error: " +:+ msg), s).
Proof. intros Hb Hc. unfold handle. by rewrite Hb, Hc. Qed.

Lemma route_get_error req s st msg :
  route_get req s = Some (ErrorPage st msg) →
  ∃ e, get_movies (req_genre req) s = JsThrow e ∧ st = 500%Z.
Proof.
  unfold route_get. destruct (match_root _); [by intros [=]|].
  destruct (match_movies _); [|destruct (match_movies_id _); by intros [=]].
  destruct (get_movies _ _) as [r|[m]]; intros [=]; subst. by eexists.
Qed.

Lemma route_error rnd req s st msg s' :
  route rnd req s = Some (ErrorPage st msg, s') →
  ∃ e, get_movies (req_genre req) s = JsThrow e ∧ st = 500%Z.
Proof.
  unfold route. destruct (req_method req); try done.
  - destruct (route_get req s) as [r|] eqn:E; simpl; intros [= -> _]. by eapply route_get_error.
  - destruct (route_get req s) as [[r| |st' m']|] eqn:E; simpl; intros [=]; subst.
    by eapply route_get_error.
  - by destruct (match_movies _).
  - by destruct (match_movies_id _).
  - by destruct (match_movies_id _).
Qed.

Lemma body_error_page_status b st msg :
  body_error_page b = ErrorPage st msg → (st = 400 ∨ st = 413 ∨ st = 415)%Z.
Proof. destruct b; intros [= <- _]; auto. Qed.

(** C26: the responses that are not JSON errors of a handler.  An error
    page (Express's HTML answer, not a JSON body) comes from exactly five
    places: a body [express.json()] rejects, malformed or a JSON value
    that is not an object or array (400), over the size limit (413) or in
    a charset other than [utf-*] (415), an origin the CORS callback
    refuses (500), an [:id] that [decodeURIComponent] rejects (400), a
    request no route matches (404) and a [genre] query on which
    [toLowerCase] throws (500). *)
Theorem handle_error_pages rnd req s st msg :
  (handle rnd req s).1 = ErrorPage st msg →
  (body_rejected (req_body req) = true ∧ (st = 400 ∨ st = 413 ∨ st = 415)%Z) ∨
  (Cors.origin_callback (req_origin req) = Cors.Refuse "Not allowed by CORS" ∧ st = 500%Z) ∨
  (∃ raw, undecodable_param (req_path req) = Some raw ∧ st = 400%Z ∧
          msg = ("URIError: Failed to decode param '" +:+ raw +:+ "'")%string) ∨
  (route rnd req s = None ∧ st = 404%Z) ∨
  (∃ e, get_movies (req_genre req) s = JsThrow e ∧ st = 500%Z).
Proof.
  unfold handle. destruct (body_rejected _) eqn:Eb;
    [intros E; left; split; [done|]; by apply body_error_page_status in E|].
  destruct (Cors.origin_callback _) as [|m] eqn:Ec;
    [|intros [= <- _]; right; left; split; [|done];
      by rewrite (Cors.origin_callback_refuse _ _ Ec)].
  destruct (req_method req); try done.
  all: destruct (undecodable_param _) as [raw|] eqn:Ep;
    [intros [= <- <-]; do 2 right; left; by eexists|].
  all: destruct (route rnd req s) as [[r s']|] eqn:Er; simpl;
    [intros ->; do 4 right; by eapply route_error|intros [= <- _]; do 3 right; by left].
Qed.

(** ** Ids in the path, percent-encoded by the client *)

(** The path [/movies/<encodeURIComponent(id)>] of a non-empty ASCII id:
    it matches ['/movies/:id'] only, and [req.params.id] is [id]. *)
Lemma encoded_id_path id :
  id ≠ ""%string → UriCode.ascii_text id →
  let p := ["movies"; UriCode.encode_uri_component id] in
  match_root p = false ∧ match_movies p = false ∧
  undecodable_param p = None ∧ match_movies_id p = Some id.
Proof.
  intros Hne Ha p. pose proof (UriCode.encode_nonempty id Hne) as He.
  assert (Hm : match_id_raw p = Some (UriCode.encode_uri_component id)).
  { unfold match_id_raw, p. change (movies_seg "movies") with true. cbn.
    by destruct (UriCode.encode_uri_component id). }
  unfold undecodable_param, match_movies_id. rewrite Hm. cbn [mbind option_bind].
  rewrite UriCode.decode_encode_ascii by done.
  split_and!; [done| |done|done]. unfold match_movies, p. by destruct (UriCode.encode_uri_component id).
Qed.

(** The request a client sends for [method /movies/<encoded id>], without
    body or origin. *)
Definition id_req (m : http_method) (id : string) : request :=
  mk_request m ["movies"; UriCode.encode_uri_component id] None BodyNone None.

Lemma handle_id_req m id rnd s :
  id ≠ ""%string → UriCode.ascii_text id → m ≠ OPTIONS →
  handle rnd (id_req m id) s = default (ErrorPage 404 "Cannot handle", s) (route rnd (id_req m id) s).
Proof.
  intros Hne Ha Hm. destruct (encoded_id_path id Hne Ha) as (_ & _ & Hu & _).
  unfold handle. cbn [req_body req_origin req_method req_path id_req body_rejected].
  change (Cors.origin_callback None) with Cors.Allow. cbv iota.
  destruct m; try done; by rewrite Hu.
Qed.

Lemma answer_allow_origin req rh o :
  Cors.header_get "Access-Control-Allow-Origin" (answer_cors_headers req rh) = Some o ↔
  body_rejected (req_body req) = false ∧ req_origin req = Some o ∧ o ∈ Cors.ACCEPTED_ORIGINS.
Proof.
  unfold answer_cors_headers. destruct (body_rejected _).
  - split; [done|]. by intros [? _].
  - rewrite Cors.response_headers_allow_origin. naive_solver.
Qed.

(** C40: cross-origin reads are granted to the allow-list only, and only
    on answers [cors] saw.  An answer carries
    [Access-Control-Allow-Origin: o] exactly when [express.json()]
    accepted the body, the request's [Origin] is [o] and [o] is one of
    the three accepted origins, preflight or not: a missing or empty
    [Origin] passes the callback but sets no such header, and a body
    rejected before [cors] runs gets none even from an accepted origin. *)
Theorem allow_origin_header req rh o :
  Cors.header_get "Access-Control-Allow-Origin" (answer_cors_headers req rh) = Some o ↔
  body_rejected (req_body req) = false ∧ req_origin req = Some o ∧ o ∈ Cors.ACCEPTED_ORIGINS.
Proof. apply answer_allow_origin. Qed.

Lemma handle_get_encoded rnd id s :
  id ≠ ""%string → UriCode.ascii_text id →
  handle rnd (id_req GET id) s = (Json (get_movie id s), s).
Proof.
  intros Hne Ha. rewrite handle_id_req by done.
  destruct (encoded_id_path id Hne Ha) as (Hr & Hm & _ & Hid).
  unfold route, route_get. cbn [req_method id_req req_path]. by rewrite Hr, Hm, Hid.
Qed.

(** C15: a client reaches every record whose id is non-empty ASCII text
    by percent-encoding it: [GET /movies/<encodeURIComponent(id)>] is
    answered as GET /movies/:id on [id] itself ([decode_param] undoes the
    encoding), also for ids with [/], [%], [?] or [#]; the store is
    unchanged. *)
Theorem get_encoded_id rnd id s :
  id ≠ ""%string → UriCode.ascii_text id →
  handle rnd (id_req GET id) s = (Json (get_movie id s), s).
Proof. apply handle_get_encoded. Qed.

Lemma handle_undecodable rnd req s raw :
  body_rejected (req_body req) = false → Cors.origin_callback (req_origin req) = Cors.Allow →
  req_method req ≠ OPTIONS → undecodable_param (req_path req) = Some raw →
  handle rnd req s = (param_error_page raw, s).
Proof.
  intros Hb Hc Hm Hp. unfold handle. rewrite Hb, Hc.
  destruct (req_method req); try done; by rewrite Hp.
Qed.

(** C29: an [:id] that [decodeURIComponent] rejects (a [%] without two
    hex digits, or escapes that are not UTF-8) is answered 400 with the
    [URIError] [Failed to decode param], whatever the method but a
    preflight, once the body and the origin are accepted: [Layer.match]
    throws while the router looks for a route, before any method check,
    and the store is unchanged. *)
Theorem undecodable_param_400 rnd req s raw :
  body_rejected (req_body req) = false → Cors.origin_callback (req_origin req) = Cors.Allow →
  req_method req ≠ OPTIONS → undecodable_param (req_path req) = Some raw →
  handle rnd req s = (param_error_page raw, s).
Proof. apply handle_undecodable. Qed.

(** A step changes the number of stored records by at most one. *)
Theorem handle_length rnd req s :
  length (handle rnd req s).2 ≤ length s + 1 ∧ length s ≤ length (handle rnd req s).2 + 1.
Proof.
  destruct (handle_store rnd req s) as [->|[->|[[id ->]|[id ->]]]]; [lia| | |].
  - destruct (post_movie_store (Uuid.random_uuid rnd) (body_value (req_body req)) s) as [->|[d ->]];
      rewrite ?length_app; simpl; lia.
  - destruct (patch_movie_store id (body_value (req_body req)) s) as [->|(p & i & m & _ & _ & ->)];
      rewrite ?length_insert; lia.
  - destruct (delete_movie_store id s) as [->|(i & m & Hm & ->)]; [lia|].
    rewrite length_delete by (by eexists). lia.
Qed.

(** ** Concrete runs *)

Definition post_req (b : jval) : request :=
  mk_request POST ["movies"] None (BodyJson b) None.

Definition rnd1 : list Z := [0; 1; 2; 3; 4; 5; 6; 7; 8; 9; 10; 11; 12; 13; 14; 15]%Z.

Lemma rnd1_bytes : random_bytes rnd1.
Proof. split; [done|]. repeat constructor; unfold Uuid.is_byte; lia. Qed.

Definition seed_rnd1 : store := [mk_movie (Uuid.random_uuid rnd1) dune_data].

Lemma handle_post_collision rnd kvs d s :
  validate_full (JObj kvs) = ParseSuccess d → Uuid.random_uuid rnd ∈ ids s →
  (handle rnd (post_req (JObj kvs)) s).1 =
    Json (mk_response 201 (BMovie (mk_movie (Uuid.random_uuid rnd) d))) ∧
  ¬ NoDup (ids (handle rnd (post_req (JObj kvs)) s).2).
Proof.
  intros Hv Hin. unfold handle, route, post_req.
  cbn [req_body req_origin req_method req_path body_rejected strict_json negb].
  change (Cors.origin_callback None) with Cors.Allow. cbv iota.
  change (undecodable_param ["movies"]) with (@None string).
  change (match_movies ["movies"]) with true. cbn -[post_movie Uuid.random_uuid].
  unfold post_movie. rewrite Hv. cbn [fst snd]. split; [done|].
  rewrite ids_app. intros Hnd. apply NoDup_app in Hnd as (_ & Hdisj & _).
  apply (Hdisj _ Hin). cbn. by left.
Qed.

(** C18: the POST handler does not check that the generated id is new:
    whenever [crypto.randomUUID()] returns an id already stored, a body
    the schema accepts is still answered 201 and the store ends up with
    two records sharing that id.  Ids stay distinct only under the
    freshness of random UUIDs ([fresh_reachable_inv]). *)
Theorem uuid_collision_duplicates rnd kvs d s :
  validate_full (JObj kvs) = ParseSuccess d → Uuid.random_uuid rnd ∈ ids s →
  (handle rnd (post_req (JObj kvs)) s).1 =
    Json (mk_response 201 (BMovie (mk_movie (Uuid.random_uuid rnd) d))) ∧
  ¬ NoDup (ids (handle rnd (post_req (JObj kvs)) s).2).
Proof. apply handle_post_collision. Qed.

Lemma uuid_collision_duplicates_witness :
  validate_full dune_body = ParseSuccess dune_data ∧ Uuid.random_uuid rnd1 ∈ ids seed_rnd1 ∧
  ¬ NoDup (ids (handle rnd1 (post_req dune_body) seed_rnd1).2).
Proof.
  assert (Hv : validate_full (JObj dune_kvs) = ParseSuccess dune_data) by (vm_compute; reflexivity).
  assert (Hin : Uuid.random_uuid rnd1 ∈ ids seed_rnd1) by (unfold seed_rnd1, ids; cbn; left).
  split_and!; [exact Hv|exact Hin|].
  exact (proj2 (uuid_collision_duplicates rnd1 dune_kvs dune_data seed_rnd1 Hv Hin)).
Defined.

Lemma reachable_records_ok_witness :
  records_ok [] ∧ reachable [] (handle rnd1 (post_req dune_body) []).2 ∧
  records_ok (handle rnd1 (post_req dune_body) []).2.
Proof.
  assert (H : reachable [] (handle rnd1 (post_req dune_body) []).2).
  { eapply reach_step; [constructor|]. apply step_handle, rnd1_bytes. }
  split_and!; [constructor|exact H|]. apply (reachable_records_ok []); [constructor|exact H].
Defined.

Lemma fresh_reachable_inv_witness :
  store_inv [] ∧ fresh_reachable [] (handle rnd1 (post_req dune_body) []).2 ∧
  store_inv (handle rnd1 (post_req dune_body) []).2.
Proof.
  assert (H0 : store_inv []) by (split; constructor).
  assert (H : fresh_reachable [] (handle rnd1 (post_req dune_body) []).2).
  { apply freach_step; [constructor|exact rnd1_bytes|set_solver]. }
  split_and!; [exact H0|exact H|]. apply (fresh_reachable_inv []); [exact H0|exact H].
Defined.

Lemma reachable_ids_uuid_witness :
  ids_uuid seed_rnd1 ∧ reachable seed_rnd1 (handle rnd1 (post_req dune_body) seed_rnd1).2 ∧
  ids_uuid (handle rnd1 (post_req dune_body) seed_rnd1).2.
Proof.
  assert (H0 : ids_uuid seed_rnd1) by (vm_compute; repeat constructor).
  assert (H : reachable seed_rnd1 (handle rnd1 (post_req dune_body) seed_rnd1).2).
  { eapply reach_step; [constructor|]. apply step_handle, rnd1_bytes. }
  split_and!; [exact H0|exact H|]. apply (reachable_ids_uuid seed_rnd1); [exact H0|exact H].
Defined.

Lemma handle_cors_refused_witness :
  let req := mk_request DELETE ["movies"; Uuid.random_uuid rnd1] None BodyNone (Some "http://evil.example") in
  body_rejected (req_body req) = false ∧
  Cors.origin_callback (req_origin req) = Cors.Refuse "Not allowed by CORS" ∧
  handle rnd1 req seed_rnd1 = (ErrorPage 500 ("Error: " +:+ "Not allowed by CORS"), seed_rnd1).
Proof.
  intros req. assert (H1 : body_rejected (req_body req) = false) by reflexivity.
  assert (H2 : Cors.origin_callback (req_origin req) = Cors.Refuse "Not allowed by CORS") by reflexivity.
  split_and!; [exact H1|exact H2|]. exact (handle_cors_refused rnd1 req seed_rnd1 _ H1 H2).
Defined.

Lemma handle_error_pages_witness :
  let req := mk_request GET ["movies"] (Some (QArr ["drama"])) BodyNone None in
  (handle rnd1 req seed_rnd1).1 = ErrorPage 500 ("TypeError: " +:+ "genre.toLowerCase is not a function") ∧
  ((body_rejected (req_body req) = true ∧ (500 = 400 ∨ 500 = 413 ∨ 500 = 415)%Z) ∨
   (Cors.origin_callback (req_origin req) = Cors.Refuse "Not allowed by CORS" ∧ (500 = 500)%Z) ∨
   (∃ raw, undecodable_param (req_path req) = Some raw ∧ (500 = 400)%Z ∧
           "TypeError: genre.toLowerCase is not a function"%string =
             ("URIError: Failed to decode param '" +:+ raw +:+ "'")%string) ∨
   (route rnd1 req seed_rnd1 = None ∧ (500 = 404)%Z) ∨
   (∃ e, get_movies (req_genre req) seed_rnd1 = JsThrow e ∧ (500 = 500)%Z)).
Proof.
  intros req.
  assert (H : (handle rnd1 req seed_rnd1).1 =
    ErrorPage 500 ("TypeError: " +:+ "genre.toLowerCase is not a function")) by reflexivity.
  split; [exact H|]. exact (handle_error_pages rnd1 req seed_rnd1 _ _ H).
Defined.

Lemma cached_step_refines_witness :
  Uuid.fill_ok (repeat 0%Z (16 * Uuid.kBatchSize)) ∧ Uuid.cache_ok Uuid.initial_cache ∧
  Uuid.cache_ok (handle_cached (repeat 0%Z (16 * Uuid.kBatchSize)) (post_req (JObj [])) ([], Uuid.initial_cache)).2.2.
Proof.
  split_and!; [exact Uuid.zero_fill_ok|exact Uuid.initial_cache_ok|].
  exact (proj1 (cached_step_refines _ (post_req (JObj [])) [] _ Uuid.zero_fill_ok Uuid.initial_cache_ok)).
Defined.

Lemma get_encoded_id_witness :
  "a/b"%string ≠ ""%string ∧ UriCode.ascii_text "a/b" ∧
  handle rnd1 (id_req GET "a/b") [mk_movie "a/b" dune_data] =
    (Json (get_movie "a/b" [mk_movie "a/b" dune_data]), [mk_movie "a/b" dune_data]).
Proof.
  assert (H1 : "a/b"%string ≠ ""%string) by discriminate.
  assert (H2 : UriCode.ascii_text "a/b") by (repeat constructor).
  split_and!; [exact H1|exact H2|]. exact (get_encoded_id rnd1 "a/b" _ H1 H2).
Defined.

Lemma undecodable_param_400_witness :
  let req := mk_request PUT ["movies"; "%E0"] None BodyNone None in
  body_rejected (req_body req) = false ∧ Cors.origin_callback (req_origin req) = Cors.Allow ∧
  req_method req ≠ OPTIONS ∧ undecodable_param (req_path req) = Some "%E0"%string ∧
  handle rnd1 req [] = (param_error_page "%E0", []).
Proof.
  intros req.
  assert (H1 : body_rejected (req_body req) = false) by reflexivity.
  assert (H2 : Cors.origin_callback (req_origin req) = Cors.Allow) by reflexivity.
  assert (H3 : req_method req ≠ OPTIONS) by discriminate.
  assert (H4 : undecodable_param (req_path req) = Some "%E0"%string) by reflexivity.
  split_and!; [exact H1|exact H2|exact H3|exact H4|].
  exact (undecodable_param_400 rnd1 req [] _ H1 H2 H3 H4).
Defined.
