(* ===== verification/Render.v ===== *)
(** * The JSON a client receives for a stored movie

    [res.json(x)] sends [JSON.stringify(x)].  A stored movie is the object
    [{ id: crypto.randomUUID(), ...result.data }] built by the POST handler
    of [src/app.js]: the key [id] first, then the keys of zod's output in
    the order of [movieSchema]'s shape (zod builds its output by iterating
    the shape).  PATCH builds [{ ...movies[i], ...result.data }], which keeps
    the keys in place, so every stored record renders the same way.
    [movie_json] is that object as a [jval], the value a client's
    [JSON.parse] gives back (numbers are exact rationals, as everywhere in
    this development).  The theorems show that a rendered record is a valid
    body for POST and PATCH: the API's output is a well-typed input; that
    its text, posted back, creates a copy; and that the 400 body
    [{ error: JSON.parse(result.error.message) }] is exactly the list of
    zod's issue objects ([issue_json], keys in zod 3's order). *)

From S2P Require Import Prelude JsValue JsonText Schema Store Uuid Cors App.
Close Scope Q_scope.
#[local] Set Warnings "-clear-no-such-hyp".

(** [result.data] of a successful [validateMovie]: the shape's keys in
    order. *)
Definition movie_data_json (d : movie_data) : list (string * jval) :=
  [("title", JStr (title d)); ("genre", JArr (JStr <$> genre d));
   ("year", JNum (year d)); ("duration", JNum (duration d));
   ("director", JStr (director d)); ("rate", JNum (rate d));
   ("poster", JStr (poster d))].

(** [{ id, ...result.data }]. *)
Definition movie_json (m : movie) : jval :=
  JObj (("id", JStr (movie_id m)) :: movie_data_json (data m)).

(** The rendered fields are the record's fields, under [obj_get]. *)
Lemma movie_json_fields m :
  movie_data_ok (data m) = true →
  movie_fields_spec (("id", JStr (movie_id m)) :: movie_data_json (data m)) (data m).
Proof. intros Hok. repeat split; done. Qed.

(** Every field of a rendered record is present in a PATCH with that body. *)
Definition full_patch (d : movie_data) : movie_patch :=
  {| p_title := Some (title d); p_genre := Some (genre d); p_year := Some (year d);
     p_duration := Some (duration d); p_director := Some (director d);
     p_rate := Some (rate d); p_poster := Some (poster d) |}.

Lemma movie_json_patch m :
  movie_data_ok (data m) = true →
  patch_fields_spec (("id", JStr (movie_id m)) :: movie_data_json (data m)) (full_patch (data m)).
Proof.
  unfold movie_data_ok. rewrite !andb_true_iff. intros ((((? & ?) & ?) & ?) & ?).
  repeat split; done.
Qed.

Lemma apply_full_patch d d' : apply_patch d (full_patch d') = d'.
Proof. by destruct d'. Qed.

(** C27: the JSON of a stored record that satisfies the schema is a body
    [validateMovie] accepts, and it gives back the record's fields: the
    extra key [id] is stripped and [rate] is kept. *)
Theorem validateMovie_movie_json m :
  movie_data_ok (data m) = true → validateMovie (movie_json m) = ParseSuccess (data m).
Proof. intros Hok. by apply validateMovie_fields, movie_json_fields. Qed.

(** C28: PATCH is idempotent on what GET returns: sending back the JSON of
    a stored record as a PATCH body on its id answers 200 with the record
    and leaves the store unchanged. *)
Theorem patch_movie_json_unchanged s i m :
  store_inv s → s !! i = Some m →
  patch_movie (movie_id m) (movie_json m) s = (ok_json (BMovie m), s).
Proof.
  intros [Hnd Hok] Hi.
  assert (Hm : movie_data_ok (data m) = true) by (eapply (Forall_lookup_1 _ _ _ _ Hok); done).
  rewrite (patch_movie_found _ _ _ (full_patch (data m)) i m).
  - rewrite apply_full_patch.
    replace (mk_movie (movie_id m) (data m)) with m by (by destruct m).
    by rewrite list_insert_id.
  - by apply validatePartial_fields, movie_json_patch.
  - by apply find_index_present.
  - done.
Qed.

(** ** Every body [res.json] sends *)

Definition path_json (p : path_seg) : jval :=
  match p with PKey k => JStr k | PIdx i => JNum (inject_Z (Z.of_nat i)) end.

(** A zod 3 issue as [makeIssue] builds it: the keys the check passed to
    [addIssueToContext], in their order, then [path] and [message]; a
    [message] key the check passed keeps its place.  Three calls raise
    [invalid_type] with different orders, told apart by [expected]: the
    [.int()] check ([integer], with its [message]), [ZodEnum] on a value
    that is not a string (the quoted values, [expected] first), and the
    type checks of the other schemas. *)
Definition issue_json (i : issue) : jval :=
  let path := ("path", JArr (path_json <$> issue_path i)) in
  let msg := ("message", JStr (issue_message i)) in
  JObj match issue_kind i with
  | invalid_type expected received =>
      let e := ("expected", JStr expected) in
      let r := ("received", JStr received) in
      let c := ("code", JStr "invalid_type") in
      if String.eqb expected "integer" then [c; e; r; msg; path]
      else if String.prefix "'" expected then [e; r; c; path; msg]
      else [c; e; r; path; msg]
  | invalid_enum_value options received =>
      [("received", JStr received); ("code", JStr "invalid_enum_value");
       ("options", JArr (JStr <$> options)); path; msg]
  | too_small m incl =>
      [("code", JStr "too_small"); ("minimum", JNum (inject_Z m)); ("type", JStr "number");
       ("inclusive", JBool incl); ("exact", JBool false); msg; path]
  | too_big m incl =>
      [("code", JStr "too_big"); ("maximum", JNum (inject_Z m)); ("type", JStr "number");
       ("inclusive", JBool incl); ("exact", JBool false); msg; path]
  | invalid_string v => [("validation", JStr v); ("code", JStr "invalid_string"); msg; path]
  end.

Definition issues_json (iss : list issue) : jval := JArr (issue_json <$> iss).

(** [ZodError.message]: [JSON.stringify(this.issues, jsonStringifyReplacer, 2)];
    the replacer only rewrites bigints, which this schema never holds. *)
Definition zod_error_message (iss : list issue) : list Ascii.ascii :=
  json_stringify_space 2 (issues_json iss).

(** [{ error: JSON.parse(result.error.message) }], the body of the 400
    answers of POST and PATCH; [None] if [JSON.parse] threw. *)
Definition error_json (iss : list issue) : option jval :=
  (λ v, JObj [("error", v)]) <$> json_parse (zod_error_message iss).

(** The value [res.json] serializes for each body. *)
Definition body_json (b : resp_body) : option jval :=
  match b with
  | BMovies ms => Some (JArr (movie_json <$> ms))
  | BMovie m => Some (movie_json m)
  | BMessage msg => Some (JObj [("message", JStr msg)])
  | BError iss => error_json iss
  end.

Lemma path_json_printable p : Forall (λ x, Is_true (json_printable x)) (path_json <$> p).
Proof. apply Forall_fmap, Forall_forall. intros [k|i] _; [done|apply json_printable_Z]. Qed.

Lemma strings_printable l : Forall (λ x, Is_true (json_printable x)) (JStr <$> l).
Proof. apply Forall_fmap, Forall_forall. by intros. Qed.

Lemma issue_json_printable i : json_printable (issue_json i).
Proof.
  pose proof (path_json_printable (issue_path i)) as Hp.
  unfold issue_json. destruct (issue_kind i); apply json_printable_obj;
    repeat case_match; repeat constructor; cbn [snd];
    try apply json_printable_Z; try apply json_printable_arr; try done.
  by apply strings_printable.
Qed.

(** The issues survive their trip through [ZodError.message]:
    [JSON.parse] gives back every issue object, messages with quotes and
    all. *)
Lemma error_json_issues iss : error_json iss = Some (JObj [("error", issues_json iss)]).
Proof.
  unfold error_json, zod_error_message, json_stringify_space.
  rewrite json_parse_print_gap; [done|done|].
  apply json_printable_arr, Forall_fmap, Forall_forall. intros i _. apply issue_json_printable.
Qed.

(** C39: the 400 body of POST and PATCH, built as
    [{ error: JSON.parse(result.error.message) }], is exactly the list of
    zod's issue objects: [JSON.parse] reads back what [ZodError.message]
    prints with a two-space indentation, quotes and control characters
    in messages included, so no violation is lost or altered on the way. *)
Theorem error_body_issues iss : error_json iss = Some (JObj [("error", issues_json iss)]).
Proof. apply error_json_issues. Qed.

(** The spec's multi-error example: the 400 body lists the missing
    [title] (code [invalid_type], zod's message for a required value) and
    the out-of-range [year] (code [too_small]). *)
Example untitled_1700_error_body :
  error_json untitled_1700_issues =
  Some (JObj [("error", JArr
    [JObj [("code", JStr "invalid_type"); ("expected", JStr "string"); ("received", JStr "undefined");
           ("path", JArr [JStr "title"]); ("message", JStr "Title is required")];
     JObj [("code", JStr "too_small"); ("minimum", JNum (inject_Z 1888)); ("type", JStr "number");
           ("inclusive", JBool true); ("exact", JBool false);
           ("message", JStr "Number must be greater than or equal to 1888");
           ("path", JArr [JStr "year"])]])]).
Proof. vm_compute. reflexivity. Qed.

(** ** Through the wire: the text [res.json] sends, posted back *)

(** The text of a stored record starts with a brace: body-parser's strict
    check lets it through, when it is within the size limit. *)
Lemma parse_body_movie_json m :
  json_printable (movie_json m) → length (json_stringify (movie_json m)) ≤ json_limit →
  json_parser true true (Some "utf-8") (json_stringify (movie_json m)) = BodyJson (movie_json m).
Proof.
  intros Hp Hl. unfold json_parser. cbn [negb body_charset]. change (String.prefix _ _) with true.
  cbn [negb]. rewrite (proj2 (Nat.ltb_ge _ _) Hl).
  rewrite parse_body_by_value, (json_parse_print _ Hp). reflexivity.
Qed.

(** POST /movies with the JSON text [t] in UTF-8 and no origin, from the
    client's side: the request after [express.json()] has read it. *)
Definition post_text (t : list Ascii.ascii) : request :=
  mk_request POST ["movies"] None (json_parser true true (Some "utf-8") t) None.

(** C38: a client that sends back, as the body of POST /movies, the text
    [res.json] sent it for a stored record (GET /movies/:id) gets 201 and
    a copy of the record under the new id, as long as the text is within
    [express.json()]'s 100kb limit: [JSON.parse] reads the text back to
    the same object, strict mode accepts it, the schema strips the [id]
    and keeps every field. *)
Theorem post_rendered_movie rnd m s :
  movie_data_ok (data m) = true → json_printable (movie_json m) →
  length (json_stringify (movie_json m)) ≤ json_limit →
  handle rnd (post_text (json_stringify (movie_json m))) s =
    (Json (mk_response 201 (BMovie (mk_movie (Uuid.random_uuid rnd) (data m)))),
     s ++ [mk_movie (Uuid.random_uuid rnd) (data m)]).
Proof.
  intros Hok Hp Hl. unfold handle, post_text. cbn [req_body req_origin req_method].
  rewrite parse_body_movie_json by done.
  change (Cors.origin_callback None) with Cors.Allow. cbn -[post_movie match_movies Uuid.random_uuid].
  change (match_movies ["movies"]) with true. cbn -[post_movie Uuid.random_uuid]. unfold post_movie.
  change (validate_full (movie_json m)) with (validateMovie (movie_json m)). unfold movie_json.
  by rewrite (proj2 (validateMovie_fields _ (data m)) (movie_json_fields m Hok)).
Qed.

(** ** Witnesses on the sample record of the spec *)

Lemma validateMovie_movie_json_witness :
  movie_data_ok (data (mk_movie "x" dune_data)) = true ∧
  validateMovie (movie_json (mk_movie "x" dune_data)) = ParseSuccess dune_data.
Proof.
  assert (H : movie_data_ok (data (mk_movie "x" dune_data)) = true) by (vm_compute; reflexivity).
  split; [exact H|]. exact (validateMovie_movie_json (mk_movie "x" dune_data) H).
Defined.

Lemma patch_movie_json_unchanged_witness :
  store_inv seed_x ∧ seed_x !! 0 = Some (mk_movie "x" dune_data) ∧
  patch_movie "x" (movie_json (mk_movie "x" dune_data)) seed_x =
    (ok_json (BMovie (mk_movie "x" dune_data)), seed_x).
Proof.
  split_and!; [exact seed_x_inv|reflexivity|].
  exact (patch_movie_json_unchanged seed_x 0 (mk_movie "x" dune_data) seed_x_inv eq_refl).
Defined.

Lemma post_rendered_movie_witness :
  movie_data_ok (data (mk_movie "x" dune_data)) = true ∧
  json_printable (movie_json (mk_movie "x" dune_data)) ∧
  length (json_stringify (movie_json (mk_movie "x" dune_data))) ≤ json_limit ∧
  handle rnd1 (post_text (json_stringify (movie_json (mk_movie "x" dune_data)))) [] =
    (Json (mk_response 201 (BMovie (mk_movie (Uuid.random_uuid rnd1) dune_data))),
     [mk_movie (Uuid.random_uuid rnd1) dune_data]).
Proof.
  assert (H1 : movie_data_ok (data (mk_movie "x" dune_data)) = true) by (vm_compute; reflexivity).
  assert (H2 : json_printable (movie_json (mk_movie "x" dune_data))) by (vm_compute; exact I).
  assert (H3 : length (json_stringify (movie_json (mk_movie "x" dune_data))) ≤ json_limit)
    by (apply Nat.leb_le; vm_compute; reflexivity).
  split_and!; [exact H1|exact H2|exact H3|].
  exact (post_rendered_movie rnd1 (mk_movie "x" dune_data) [] H1 H2 H3).
Defined.
