(* ===== verification/Progress.v ===== *)
(** * Termination and progress of the server's runs

    Two properties of the runs of [App] that are not invariants.  The
    first is termination: a run in which every request deletes a record
    (answers 200 "Movie deleted") is finite, since each such step removes
    one record from the array [movies] with [splice]; the store's length
    bounds the run.  The second is progress: from every state of every run
    the empty collection remains reachable, by one DELETE per record on
    the path [/movies/<encodeURIComponent(id)>], as long as the seed's ids
    are non-empty ASCII text (a route parameter cannot be empty, so a
    record with the id [""] could never be deleted; generated ids are 36
    ASCII characters). *)

From stdpp Require Import well_founded.
From S2P Require Import Prelude JsValue Schema Store Uuid Cors UriCode App.
Close Scope Q_scope.
#[local] Set Warnings "-clear-no-such-hyp".

Definition deleted_response : http_response := Json (ok_json (BMessage "Movie deleted")).

(** ** Which routes answer "Movie deleted" *)

Lemma get_movies_ok q s r : get_movies q s = JsOk r → ∃ l, r = ok_json (BMovies l).
Proof.
  unfold get_movies. destruct q as [v|]; [|intros [= <-]; by eexists].
  destruct (query_truthy v); [|intros [= <-]; by eexists].
  destruct (js_filter _ _); simpl; intros [= <-]. by eexists.
Qed.

Lemma route_get_not_deleted req s r : route_get req s = Some r → r ≠ deleted_response.
Proof.
  unfold route_get, get_root, get_movie, deleted_response. intros Hr.
  repeat case_match; simplify_eq; try done.
  - by apply get_movies_ok in H1 as [l ->].
  - by destruct e.
Qed.

Lemma post_movie_not_deleted `{Validator} uuid b s :
  (post_movie uuid b s).1 ≠ ok_json (BMessage "Movie deleted").
Proof. unfold post_movie. by case_match. Qed.

Lemma patch_movie_not_deleted `{Validator} id b s :
  (patch_movie id b s).1 ≠ ok_json (BMessage "Movie deleted").
Proof. unfold patch_movie. by repeat case_match. Qed.

(** A step that answers "Movie deleted" is a DELETE that found its id. *)
Lemma handle_deleted rnd req s :
  (handle rnd req s).1 = deleted_response →
  ∃ id, (delete_movie id s).1 = ok_json (BMessage "Movie deleted") ∧
        (handle rnd req s).2 = (delete_movie id s).2.
Proof.
  unfold handle, route. destruct (body_rejected _); [by destruct (req_body req)|].
  destruct (Cors.origin_callback _); [|done]. destruct (req_method req); try done.
  all: destruct (undecodable_param _); [done|]; try done.
  - destruct (route_get req s) as [r|] eqn:E; simpl; [|done].
    intros ->. by apply route_get_not_deleted in E.
  - by destruct (route_get req s) as [[r| |]|].
  - destruct (match_movies _); simpl; [|done]. intros [= H]. by apply post_movie_not_deleted in H.
  - destruct (match_movies_id _); simpl; [|done]. intros [= H]. by apply patch_movie_not_deleted in H.
  - destruct (match_movies_id _) as [id|]; simpl; [|done]. intros [= ?]. by exists id.
Qed.

Lemma delete_ok_length id s :
  (delete_movie id s).1 = ok_json (BMessage "Movie deleted") →
  length (delete_movie id s).2 < length s.
Proof.
  destruct (find_index_lookup s id) as [[_ Hn]|(i & m & Hi & Hm & <-)].
  - by rewrite delete_movie_absent.
  - rewrite (delete_movie_found _ _ i m) by done. simpl. intros _.
    rewrite length_delete by (by eexists). apply lookup_lt_Some in Hm. lia.
Qed.

(** A step of the server that deletes a record. *)
Definition deleting_step (s s' : store) : Prop := ∃ req, server_step s req deleted_response s'.

(** C31: termination.  There is no infinite run of the server in which
    every request deletes a record: the converse of [deleting_step] is
    well founded, each such step shortening the array [movies]. *)
Theorem deleting_runs_terminate : well_founded (λ s' s, deleting_step s s').
Proof.
  apply (wf_projected (<) length); [|exact lt_wf].
  intros s' s0 (req & Hstep). inversion Hstep as [rnd ? ? Hrnd]; subst.
  match goal with Hr : (handle _ _ _).1 = deleted_response |- _ =>
    destruct (handle_deleted _ _ _ Hr) as (id & Hid & ->) end.
  by apply delete_ok_length.
Qed.

(** ** Reaching the empty collection *)

(** The ids a client can address: non-empty ASCII text. *)
Definition addressable (x : string) : Prop := x ≠ ""%string ∧ UriCode.ascii_text x.

Lemma uuid_char_ascii i c : Uuid.char_ok i c = true → UriCode.is_ascii c = true.
Proof.
  unfold Uuid.char_ok, Uuid.is_variant_char, Uuid.is_hex_char.
  repeat case_match; destruct_ascii c; vm_compute; congruence.
Qed.

Lemma uuid_format_ascii s : Uuid.uuid_v4_format s = true → addressable s.
Proof.
  unfold Uuid.uuid_v4_format, addressable, UriCode.ascii_text.
  intros H. split; [by intros ->|]. revert H.
  generalize (String.list_ascii_of_string s) as l, 0. intros l.
  induction l as [|c l IH]; intros i H; [done|].
  cbn in H. apply andb_true_iff in H as [Hc Hl].
  constructor; [by eapply uuid_char_ascii|by eapply IH].
Qed.

(** DELETE on the encoded id of the first record removes it. *)
Lemma handle_delete_first rnd m r :
  addressable (movie_id m) → (handle rnd (id_req DELETE (movie_id m)) (m :: r)).2 = r.
Proof.
  intros [Hne Ha]. rewrite handle_id_req by done.
  destruct (encoded_id_path _ Hne Ha) as (_ & _ & _ & Hid).
  unfold route. cbn [req_method id_req req_path]. rewrite Hid. cbn.
  unfold delete_movie, js_find_index. simpl. unfold same_id. by rewrite String.eqb_refl.
Qed.

Lemma reachable_ids_addressable seed s :
  Forall addressable (ids seed) → reachable seed s → Forall addressable (ids s).
Proof.
  intros Hseed Hr. induction Hr as [|s req r s' Hr IH Hstep]; [done|].
  inversion Hstep as [rnd ? ? [Hlen Hb]]; subst. eapply Forall_impl; [apply handle_ids|].
  intros x [Hx| ->]; [by eapply Forall_forall in IH|].
  by apply uuid_format_ascii, Uuid.random_uuid_format.
Qed.

(** Draining: from any state whose ids are addressable, one DELETE per
    record reaches the empty store. *)
Lemma reachable_drain s0 s :
  reachable s0 s → Forall addressable (ids s) → reachable s0 [].
Proof.
  induction s as [|m r IH]; intros Hr Hne; [done|].
  apply Forall_cons in Hne as [Hm Hr'].
  apply IH; [|done].
  rewrite <- (handle_delete_first rnd1 m r Hm).
  eapply reach_step; [exact Hr|]. apply step_handle, rnd1_bytes.
Qed.

Lemma empty_reachable_from_state seed s :
  Forall addressable (ids seed) → reachable seed s → reachable s [] ∧ reachable seed [].
Proof.
  intros Hseed Hr.
  assert (Hs : reachable s []).
  { apply (reachable_drain s s); [constructor|]. by apply (reachable_ids_addressable seed s). }
  split; [exact Hs|]. by apply (reachable_trans seed s []).
Qed.

(** C32: progress.  From every state [s] of every run whose seed's ids are
    non-empty ASCII text, the empty collection is reachable by a run that
    starts at [s]: no state lets a record become impossible to delete.
    (With [reachable_trans], it is also reachable from the seed.) *)
Theorem empty_always_reachable seed s :
  Forall addressable (ids seed) → reachable seed s → reachable s [] ∧ reachable seed [].
Proof. apply empty_reachable_from_state. Qed.

Lemma empty_always_reachable_witness :
  Forall addressable (ids seed_rnd1) ∧
  reachable seed_rnd1 (handle rnd1 (post_req dune_body) seed_rnd1).2 ∧
  reachable (handle rnd1 (post_req dune_body) seed_rnd1).2 [].
Proof.
  assert (H0 : Forall addressable (ids seed_rnd1)).
  { apply Forall_singleton. split; [vm_compute; discriminate|]. vm_compute. repeat constructor. }
  assert (H : reachable seed_rnd1 (handle rnd1 (post_req dune_body) seed_rnd1).2).
  { eapply reach_step; [constructor|]. apply step_handle, rnd1_bytes. }
  split_and!; [exact H0|exact H|]. exact (proj1 (empty_always_reachable _ _ H0 H)).
Defined.
